(** * The ES6 migration transformer of ros3djs (Gruntfile.js)

    A shallow embedding of [transpileToEs6] and of the two tables it
    maintains ([inheritance.index], [dependencies.internal]), together with
    the regular expressions the stages are written with and the part of
    [String.prototype.replace], [split], [slice], [join] and [trim] they
    rely on.

    Texts are lists of UTF-16 code units.  The patterns of the source are
    terms of [regex], matched by [rmatch] in the backtracking order of
    ECMAScript; [scan] is the loop of a global [replace].  The callbacks
    live in a state and exception monad over [World]: the two tables and
    what was printed.  [path.basename] and the text of the members of
    [Object.prototype] belong to the host and are parameters of the
    stages. *)

From Stdlib Require Import NArith String Ascii.
From stdpp Require Import gmap list strings.

Local Open Scope N_scope.
Local Open Scope list_scope.

(** ** Text

    A JavaScript string is a sequence of UTF-16 code units. *)

Abbreviation text := (list N).

Definition str (s : string) : text :=
  map N_of_ascii (list_ascii_of_string s).
Arguments str : simpl never.

Definition LF : N := 10.
Definition CR : N := 13.
Definition LS : N := 8232.   (* U+2028 *)
Definition PS : N := 8233.   (* U+2029 *)

(** LineTerminator: the code units [.] does not match and before which
    [$] matches under the [m] flag. *)
Definition is_line_terminator (c : N) : bool :=
  (c =? LF) || (c =? CR) || (c =? LS) || (c =? PS).

Definition not_terminator (c : N) : bool := negb (is_line_terminator c).

(** [\w] without the [i] and [u] flags: [A-Za-z0-9_]. *)
Definition is_word (c : N) : bool :=
  ((48 <=? c) && (c <=? 57)) || ((65 <=? c) && (c <=? 90))
  || ((97 <=? c) && (c <=? 122)) || (c =? 95).

(** [\s], and what [trim] strips: WhiteSpace and LineTerminator. *)
Definition is_space (c : N) : bool :=
  ((9 <=? c) && (c <=? 13)) || (c =? 32) || (c =? 160) || (c =? 5760)
  || ((8192 <=? c) && (c <=? 8202)) || (c =? LS) || (c =? PS)
  || (c =? 8239) || (c =? 8287) || (c =? 12288) || (c =? 65279).

(** [[\r\n]] *)
Definition is_crlf (c : N) : bool := (c =? CR) || (c =? LF).

(** ** Regular expressions

    The constructs the seven patterns of [transpile] use.  Matching is
    backtracking matching in the order ECMAScript prescribes; the matcher
    returns every way to match in that order, the first being the one
    [exec] reports. *)

Inductive regex : Type :=
| Eps                              (* the empty pattern *)
| Chr (c : N)                      (* a literal code unit *)
| Dot                              (* .  *)
| Cls (p : N -> bool)              (* a class: \w \s [...] [^...] *)
| Seq (r1 r2 : regex)
| Alt (r1 r2 : regex)              (* r1|r2 *)
| Star (greedy : bool) (r : regex) (* r* and r*? *)
| Group (i : nat) (r : regex)      (* the i-th capturing parentheses *)
| NegLook (r : regex)              (* (?!r) *)
| Eol.                             (* $ under the m flag *)

Abbreviation captures := (list (option text)).

Section Repeat.
Variable body : text -> captures -> list (text * captures).

(** RepeatMatcher for [min = 0], [max = ∞]: an iteration that consumes
    nothing is rejected, so the number of iterations is bounded by the
    length of what is left, which is the fuel. *)
Fixpoint repeat_fuel (greedy : bool) (n : nat) (s : text) (caps : captures)
  : list (text * captures) :=
  match n with
  | O => [(s, caps)]
  | S n' =>
      let more :=
        flat_map (fun r : text * captures =>
                    if (length r.1 <? length s)%nat
                    then repeat_fuel greedy n' r.1 r.2 else [])
                 (body s caps) in
      if greedy then more ++ [(s, caps)] else (s, caps) :: more
  end.
End Repeat.

Fixpoint rmatch (r : regex) (s : text) (caps : captures)
  : list (text * captures) :=
  match r with
  | Eps => [(s, caps)]
  | Chr c =>
      match s with
      | x :: s' => if x =? c then [(s', caps)] else []
      | [] => []
      end
  | Dot =>
      match s with
      | x :: s' => if is_line_terminator x then [] else [(s', caps)]
      | [] => []
      end
  | Cls p =>
      match s with
      | x :: s' => if p x then [(s', caps)] else []
      | [] => []
      end
  | Seq r1 r2 =>
      flat_map (fun m : text * captures => rmatch r2 m.1 m.2) (rmatch r1 s caps)
  | Alt r1 r2 => rmatch r1 s caps ++ rmatch r2 s caps
  | Star greedy r1 => repeat_fuel (rmatch r1) greedy (length s) s caps
  | Group i r1 =>
      map (fun m : text * captures =>
             (m.1, <[i := Some (take (length s - length m.1) s)]> m.2))
          (rmatch r1 s caps)
  | NegLook r1 =>
      match rmatch r1 s caps with
      | [] => [(s, caps)]
      | _ :: _ => []
      end
  | Eol =>
      match s with
      | [] => [(s, caps)]
      | x :: _ => if is_line_terminator x then [(s, caps)] else []
      end
  end.

(** Derived forms. *)
Definition Plus (greedy : bool) (r : regex) : regex := Seq r (Star greedy r).
Definition Opt (r : regex) : regex := Alt r Eps.
Fixpoint Lit (s : text) : regex :=
  match s with
  | [] => Eps
  | c :: s' => Seq (Chr c) (Lit s')
  end.
Fixpoint Seqs (rs : list regex) : regex :=
  match rs with
  | [] => Eps
  | r :: rs' => Seq r (Seqs rs')
  end.

(** ** [exec] and [replace]

    What a replacement callback receives: the matched text, the captures
    (index 0 unused, [None] for a group that did not take part) and the
    offset of the match. *)
Record hit : Type := Hit_ { m_str : text; m_caps : captures; m_index : nat }.

(** A pattern with the number of its capturing groups. *)
Record pattern : Type := Pattern { p_re : regex; p_groups : nat }.

Definition exec_at (p : pattern) (pos : nat) (s : text) : option hit :=
  match rmatch (p_re p) s (replicate (S (p_groups p)) None) with
  | [] => None
  | (rest, caps) :: _ =>
      Some (Hit_ (take (length s - length rest) s) caps pos)
  end.

Definition group (h : hit) (i : nat) : option text :=
  match m_caps h !! i with
  | Some c => c
  | None => None
  end.

(** A capture that took part in the match. *)
Definition cap (h : hit) (i : nat) : text := default [] (group h i).

Definition defined {A} (o : option A) : bool :=
  match o with Some _ => true | None => false end.

(** The input as [replace] cuts it: code units that stay, and matches. *)
Inductive piece : Type :=
| Keep (c : N)
| Match (h : hit).

(** The loop of [RegExp.prototype[Symbol.replace]] for a [g] pattern:
    [exec] from [lastIndex]; after an empty match [lastIndex] advances by
    one.  [skip] counts the code units of the last match still to pass. *)
Fixpoint scan (p : pattern) (pos skip : nat) (s : text) {struct s} : list piece :=
  match skip with
  | S k =>
      match s with
      | [] => []
      | _ :: s' => scan p (S pos) k s'
      end
  | O =>
      match exec_at p pos s with
      | Some h =>
          Match h ::
            match s with
            | [] => []
            | c :: s' =>
                match length (m_str h) with
                | O => Keep c :: scan p (S pos) 0 s'
                | S k => scan p (S pos) k s'
                end
            end
      | None =>
          match s with
          | [] => []
          | c :: s' => Keep c :: scan p (S pos) 0 s'
          end
      end
  end.

Definition pieces (p : pattern) (s : text) : list piece := scan p 0 0 s.

(** Without the [g] flag only the first match is replaced. *)
Fixpoint scan_first (p : pattern) (pos : nat) (s : text) {struct s} : list piece :=
  match exec_at p pos s with
  | Some h => Match h :: map Keep (drop (length (m_str h)) s)
  | None =>
      match s with
      | [] => []
      | c :: s' => Keep c :: scan_first p (S pos) s'
      end
  end.

(** ** Effects

    A replacement callback reads and extends the shared tables, prints
    diagnostics, and may throw.  [M S A] threads a state [S] and stops at
    the first exception. *)

Inductive error : Type := TypeError.

Inductive result (A : Type) : Type :=
| Ok (a : A)
| Throw (e : error).
Arguments Ok {A} a.
Arguments Throw {A} e.

Definition M (S A : Type) : Type := S -> result (A * S).

Definition ret {S A} (a : A) : M S A := fun s => Ok (a, s).
Definition bind {S A B} (m : M S A) (k : A -> M S B) : M S B :=
  fun s => match m s with
           | Ok (a, s') => k a s'
           | Throw e => Throw e
           end.
Definition throw {S A} (e : error) : M S A := fun _ => Throw e.
Definition gets {S A} (f : S -> A) : M S A := fun s => Ok (f s, s).
Definition modify {S} (f : S -> S) : M S unit := fun s => Ok (tt, f s).
Definition when {S} (b : bool) (m : M S unit) : M S unit :=
  if b then m else ret tt.

Declare Scope js_scope.
Delimit Scope js_scope with js.
Notation "x <- m ;; k" := (bind m (fun x => k))
  (at level 100, m at next level, right associativity) : js_scope.
Notation "m ;; k" := (bind m (fun _ => k))
  (at level 100, right associativity) : js_scope.

(** [replace] with a function: the callback is called once per match, in
    order, and its results are spliced between the parts that stay. *)
Fixpoint splice {S} (cb : hit -> M S text) (ps : list piece) : M S text :=
  match ps with
  | [] => ret []
  | Keep c :: ps' =>
      (out <- splice cb ps' ;; ret (c :: out))%js
  | Match h :: ps' =>
      (r <- cb h ;; out <- splice cb ps' ;; ret (r ++ out))%js
  end.

Definition replace {S} (p : pattern) (cb : hit -> M S text) (s : text) : M S text :=
  splice cb (pieces p s).

(** The text [replace] builds when the callback has no effect and
    returns [f h] for the match [h]. *)
Fixpoint splice_with (f : hit -> text) (ps : list piece) : text :=
  match ps with
  | [] => []
  | Keep c :: ps' => c :: splice_with f ps'
  | Match h :: ps' => f h ++ splice_with f ps'
  end.

(** [replace] with a replacement string that holds no [$]. *)
Definition splice_str (repl : text) (ps : list piece) : text :=
  splice_with (fun _ => repl) ps.

(** The matches among the pieces, and the calls [replace] makes: the
    state before the call, the match, and what the callback returned. *)
Fixpoint hits (ps : list piece) : list hit :=
  match ps with
  | [] => []
  | Keep _ :: ps' => hits ps'
  | Match h :: ps' => h :: hits ps'
  end.

Fixpoint calls {S} (cb : hit -> M S text) (ps : list piece) (s : S)
  : list (S * hit * text) :=
  match ps with
  | [] => []
  | Keep _ :: ps' => calls cb ps' s
  | Match h :: ps' =>
      match cb h s with
      | Ok (r, s') => (s, h, r) :: calls cb ps' s'
      | Throw _ => []
      end
  end.

Definition replace_str (p : pattern) (repl : text) (s : text) : text :=
  splice_str repl (pieces p s).

(** [with_state s0 m] runs [m], which needs an extra piece of state (the
    state object a closure captured), and drops it at the end. *)
Definition with_state {S T A} (t0 : T) (m : M (S * T) A) : M S A :=
  fun s => match m (s, t0) with
           | Ok (a, (s', _)) => Ok (a, s')
           | Throw e => Throw e
           end.

(** ** JavaScript values and objects used as maps *)

Inductive jsval : Type :=
| JUndefined
| JNull
| JStr (s : text)
| JInherited (k : text).  (* the member [k] of [Object.prototype] *)

Definition truthy (v : jsval) : bool :=
  match v with
  | JUndefined | JNull => false
  | JStr s => match s with [] => false | _ :: _ => true end
  | JInherited _ => true
  end.

(** [s === v] for a string [s]. *)
Definition str_strict_eq (s : text) (v : jsval) : bool :=
  match v with
  | JStr s' => bool_decide (s = s')
  | _ => false
  end.

(** Both tables are created by [{}], so a key they do not own is looked
    up in [Object.prototype]. *)
Definition object_prototype_keys : list text :=
  map str ["constructor"; "__defineGetter__"; "__defineSetter__";
           "hasOwnProperty"; "__lookupGetter__"; "__lookupSetter__";
           "isPrototypeOf"; "propertyIsEnumerable"; "toString"; "valueOf";
           "__proto__"; "toLocaleString"]%string.

Definition inherited (k : text) : bool :=
  bool_decide (k ∈ object_prototype_keys).

(** ** The shared state of a run *)

Inductive diag : Type :=
| Processing (filepath : text)
| DependsOn (dependency : text)
| Extends (child parent : text)
| IsAClass (child : text)
| ClassMismatch
| ClassMismatchDetails (filepath name : text) (isClass1 isClass2 : bool)
| FoundConstructor (matched name : text)
| FoundParentConstructor (matched child parent args : text)
| RemovingExtraParentConstructorCall (matched : text).

(** [index] is [inheritance.index] ([None] is [null]), [internal] is
    [dependencies.internal], [console] is what [console.log] printed. *)
Record World : Type := mkWorld {
  index : gmap text (option text);
  internal : gmap text (list text);
  console : list diag
}.

Definition set_index (f : gmap text (option text) -> gmap text (option text))
  (w : World) : World :=
  mkWorld (f (index w)) (internal w) (console w).
Definition set_internal (f : gmap text (list text) -> gmap text (list text))
  (w : World) : World :=
  mkWorld (index w) (f (internal w)) (console w).
Definition log (d : diag) : M World unit :=
  modify (fun w => mkWorld (index w) (internal w) (console w ++ [d])).

Definition empty_world : World := mkWorld ∅ ∅ [].

Module debugRules.
Definition logClasses : bool := false.
Definition logConstructors : bool := false.
Definition logDepsAsFound : bool := false.
Definition logDepsAtEnd : bool := false.
Definition logExtensions : bool := false.
Definition logParentConstructors : bool := false.
End debugRules.

Definition indent : text := str "  ".

Module dependencies.
(** [deps[file]] is an array the table owns, something inherited, or
    [undefined]; [includes] exists on the first only. *)
Definition track (file dependency : text) : M World unit :=
  (when debugRules.logDepsAsFound (log (DependsOn dependency)) ;;
   deps <- gets internal ;;
   match deps !! file with
   | Some l =>
       if bool_decide (dependency ∈ l) then ret tt
       else modify (set_internal <[file := l ++ [dependency]]>)
   | None =>
       if inherited file then throw TypeError
       else modify (set_internal <[file := [dependency]]>)
   end)%js.
End dependencies.

Module inheritance.
Definition lookup (idx : gmap text (option text)) (k : text) : jsval :=
  match idx !! k with
  | Some (Some p) => JStr p
  | Some None => JNull
  | None => if inherited k then JInherited k else JUndefined
  end.

Definition isClass (idx : gmap text (option text)) (prop : text) : bool :=
  match lookup idx prop with
  | JUndefined => false
  | _ => true
  end.

Definition getParent (idx : gmap text (option text)) (child : text) : jsval :=
  lookup idx child.

(** [parent] is a captured string or [null] ([None]). *)
Definition track (child : text) (parent : option text) : M World unit :=
  (idx <- gets index ;;
   if truthy (match parent with Some p => JStr p | None => JNull end)
      && negb (truthy (lookup idx child))
   then
     when debugRules.logExtensions
       (log (Extends child (default [] parent))) ;;
     modify (set_index <[child := parent]>)
   else
     if negb (isClass idx child) then
       when debugRules.logClasses (log (IsAClass child)) ;;
       modify (set_index <[child := None]>)
     else ret tt)%js.
End inheritance.

(** ** String methods *)

(** [String.prototype.split] with a pattern and no limit (the pattern of
    the source has no capturing group, so nothing else is pushed).  [acc]
    is the part since the last separator, [skip] what is left of the
    separator being passed. *)
Fixpoint split_from (p : pattern) (skip : nat) (acc : text) (s : text)
  {struct s} : list text :=
  match s with
  | [] => [acc]
  | c :: s' =>
      match skip with
      | S k => split_from p k [] s'
      | O =>
          match exec_at p 0 s with
          | None => split_from p 0 (acc ++ [c]) s'
          | Some h =>
              match length (m_str h) with
              | S k => acc :: split_from p k [] s'
              | O =>
                  match acc with
                  | [] => split_from p 0 [c] s'
                  | _ :: _ => acc :: split_from p 0 [c] s'
                  end
              end
          end
      end
  end.

Definition split (p : pattern) (s : text) : list text :=
  match s with
  | [] => match exec_at p 0 [] with Some _ => [] | None => [[]] end
  | _ :: _ => split_from p 0 [] s
  end.

(** [a.slice(start, -back)] *)
Definition slice {A} (start back : nat) (a : list A) : list A :=
  take (length a - back - start) (drop start a).

Fixpoint join (sep : text) (a : list text) : text :=
  match a with
  | [] => []
  | [x] => x
  | x :: a' => x ++ sep ++ join sep a'
  end.

Fixpoint trim_start (s : text) : text :=
  match s with
  | c :: s' => if is_space c then trim_start s' else s
  | [] => []
  end.

Definition trim (s : text) : text :=
  reverse (trim_start (reverse (trim_start s))).

(** ** The stages *)

Definition w_plus : regex := Plus true (Cls is_word).
Definition dot_star : regex := Star true Dot.

Module transpile.

(** Line 72, flag m: the literal text of the assignment, in which the
    two dots of the revision are unescaped. *)
Definition initialROS3DAssignment_from : pattern :=
  Pattern (Seqs [Lit (str "var ROS3D = ROS3D || {"); Chr LF;
                 Lit (str "  REVISION : '0"); Dot; Lit (str "18"); Dot;
                 Lit (str "0'"); Chr LF; Lit (str "};")]) 0.
Definition initialROS3DAssignment_to : text :=
  str "export const REVISION = '0.18.0';".

(** Lines 80 and 83, flag g: a line feed and [ROS3D\.], and the text put
    in its place.  [transpileToEs6] does not apply this pair: the call is
    commented out. *)
Definition exportedProperites_from : pattern :=
  Pattern (Lit (LF :: str "ROS3D.")) 0.
Definition exportedProperites_to : text := LF :: str "export const ".

(** Line 89, flag g: [ROS3D\.], group 1 [\w+], then a negative
    look-ahead for [.*=.*]. *)
Definition equals_ahead : regex := Seqs [dot_star; Chr 61; dot_star].
Definition internalDependencies_from : pattern :=
  Pattern (Seqs [Lit (str "ROS3D."); Group 1 w_plus; NegLook equals_ahead]) 1.

(** Line 102, flag g: [ROS3D.], group 1 [\w+], [.prototype.__proto__ = ],
    group 2 [.*], [.prototype;], an optional line break.  The dots
    are unescaped. *)
Definition buildInheritanceIndexViaProto_from : pattern :=
  Pattern (Seqs [Lit (str "ROS3D"); Dot; Group 1 w_plus; Dot;
                 Lit (str "prototype"); Dot; Lit (str "__proto__ = ");
                 Group 2 dot_star; Dot; Lit (str "prototype;");
                 Opt (Cls is_crlf)]) 2.

(** Line 116, flag g: [Object.assign\(], group 1 [\w+], [.prototype, ],
    group 2 [.*], [.prototype\);]. *)
Definition buildInheritanceIndexViaObjectAssign_from : pattern :=
  Pattern (Seqs [Lit (str "Object"); Dot; Lit (str "assign(");
                 Group 1 w_plus; Dot; Lit (str "prototype, ");
                 Group 2 dot_star; Dot; Lit (str "prototype);")]) 2.

(** Line 130, flag g: [ROS3D.], group 1 [\w+], [.prototype.], group 2
    [\w+], [ = function]. *)
Definition methods_from : pattern :=
  Pattern (Seqs [Lit (str "ROS3D"); Dot; Group 1 w_plus; Dot;
                 Lit (str "prototype"); Dot; Group 2 w_plus;
                 Lit (str " = function")]) 2.

(** Line 149, flag g: [ROS3D.], group 1 [\w+], [\s*=\s*function]. *)
Definition constructors_from : pattern :=
  Pattern (Seqs [Lit (str "ROS3D"); Dot; Group 1 w_plus;
                 Star true (Cls is_space); Chr 61;
                 Star true (Cls is_space); Lit (str "function")]) 1.

(** Line 182, flag g: a line break, group 1 [\s*], group 2 [[\w.]+],
    [\.call\(], [this] or [that], group 3 [.*]. *)
Definition is_ref_char (c : N) : bool := is_word c || (c =? 46).
Definition parentConstructors_from : pattern :=
  Pattern (Seqs [Cls is_crlf; Group 1 (Star true (Cls is_space));
                 Group 2 (Plus true (Cls is_ref_char));
                 Lit (str ".call(");
                 Alt (Lit (str "this")) (Lit (str "that"));
                 Group 3 dot_star]) 3.

(** Line 223, flags g and m, three alternatives.  Group 1: a comment
    opened by a slash and two stars, whose body is one or more (lazily)
    of a star followed by a non-slash or a non-star, closed by a star
    and a slash; then [\s] or line breaks, [constructor\(] and [.*].
    Else [$], any number of a line break followed by [$], and group 2
    around a negative look-ahead for a line break.  Else [.*]. *)
Definition classes_open : regex :=
  Seqs [Lit (str "/**");
        Plus false (Alt (Seq (Chr 42) (Cls (fun c => negb (c =? 47))))
                        (Cls (fun c => negb (c =? 42))));
        Lit (str "*/");
        Star true (Cls (fun c => is_space c || is_crlf c));
        Lit (str "constructor("); dot_star].
Definition classes_close : regex :=
  Seqs [Eol; Star true (Seq (Cls is_crlf) Eol);
        Group 2 (NegLook (Cls is_crlf))].
Definition classes_from : pattern :=
  Pattern (Alt (Group 1 classes_open) (Alt classes_close dot_star)) 2.

(** The separator of [split] on line 195 and the pattern of the inner
    [replace] on line 243. *)
Definition comma_or_paren : pattern := Pattern (Alt (Chr 44) (Chr 41)) 0.
Definition line_break : pattern := Pattern (Cls is_crlf) 0.

(** The closure state of [classes]. *)
Record state : Type := mkState { isInClass : bool; matchedFirstComment : bool }.

(** [$1 !== undefined && !state.matchedFirstComment] and
    [$2 !== undefined] *)
Definition isStart (st : state) (h : hit) : bool :=
  defined (group h 1) && negb (matchedFirstComment st).
Definition isFinish (h : hit) : bool := defined (group h 2).

Section WithHost.
(** [path.basename] of Node, and the text an inherited member of
    [Object.prototype] has in a template string; both belong to the
    host. *)
Variable path_basename : text -> text -> text.
Variable inherited_text : text -> text.

Definition getFileClass (filepath : text) : text :=
  path_basename filepath (str ".js").
Definition isFileClass (filepath className : text) : bool :=
  bool_decide (getFileClass filepath = className).

Definition internalDependencies (filepath : text) (h : hit) : M World text :=
  (dependencies.track filepath (cap h 1) ;;
   ret (cap h 1))%js.

Definition buildInheritanceIndexViaProto (h : hit) : M World text :=
  (inheritance.track (cap h 1) (Some (cap h 2)) ;;
   ret [])%js.

Definition buildInheritanceIndexViaObjectAssign (h : hit) : M World text :=
  (inheritance.track (cap h 1) (Some (cap h 2)) ;;
   ret [])%js.

Definition methods (h : hit) : M World text :=
  if bool_decide (cap h 2 = str "__proto__") then ret (m_str h)
  else (inheritance.track (cap h 1) None ;;
        ret (cap h 2))%js.

Definition constructors (filepath : text) (h : hit) : M World text :=
  (isClass1 <- gets (fun w => inheritance.isClass (index w) (cap h 1)) ;;
   let isClass2 := isFileClass filepath (cap h 1) in
   when (negb (eqb isClass1 isClass2))
     (log ClassMismatch ;;
      log (ClassMismatchDetails filepath (cap h 1) isClass1 isClass2)) ;;
   isClass <- gets (fun w => inheritance.isClass (index w) (cap h 1)) ;;
   if isClass then
     when debugRules.logConstructors
       (log (FoundConstructor (m_str h) (cap h 1))) ;;
     ret (str "constructor")
   else ret (m_str h))%js.

Definition super_args (rest : text) : text :=
  trim (join (str ",") (slice 1 1 (split comma_or_paren rest))).

Definition parentConstructors (filepath : text) (h : hit) : M World text :=
  (let child := getFileClass filepath in
   parent <- gets (fun w => inheritance.getParent (index w) child) ;;
   if str_strict_eq (cap h 2) parent then
     let args := super_args (cap h 3) in
     when debugRules.logParentConstructors
       (log (FoundParentConstructor (m_str h) child (cap h 2) args)) ;;
     ret (LF :: cap h 1 ++ str "super(" ++ args ++ str ");")
   else
     log (RemovingExtraParentConstructorCall (m_str h)) ;;
     ret [])%js.

(** [`${v}`] *)
Definition to_text (v : jsval) : text :=
  match v with
  | JUndefined => str "undefined"
  | JNull => str "null"
  | JStr s => s
  | JInherited k => inherited_text k
  end.

Definition classes (filepath : text) (h : hit) : M (World * state) text :=
  (st <- gets snd ;;
   let className := getFileClass filepath in
   parent <- gets (fun s => inheritance.getParent (index s.1) className) ;;
   if isStart st h then
     let indentedMatch :=
       indent ++ replace_str line_break (LF :: indent) (m_str h) in
     modify (fun s => (s.1, mkState true true)) ;;
     if truthy parent then
       ret (str "export class " ++ className ++ str " extends "
            ++ to_text parent ++ str " {" ++ [LF; LF] ++ indentedMatch)
     else
       ret (str "export class " ++ className ++ str " {" ++ [LF; LF]
            ++ indentedMatch)
   else if isInClass st then
     if negb (isFinish h) then ret (indent ++ m_str h)
     else
       modify (fun s => (s.1, mkState false (matchedFirstComment s.2))) ;;
       ret (LF :: str "}" ++ [LF])
   else ret (m_str h))%js.

(** [transpileToEs6(content, filepath, grunt)] *)
Definition transpileToEs6 (content filepath : text) : M World text :=
  (log (Processing filepath) ;;
   let transpiled :=
     if bool_decide (filepath = str "src/Ros3D.js")
     then splice_str initialROS3DAssignment_to
            (scan_first initialROS3DAssignment_from 0 content)
     else content in
   t1 <- replace internalDependencies_from (internalDependencies filepath) transpiled ;;
   t2 <- replace buildInheritanceIndexViaProto_from buildInheritanceIndexViaProto t1 ;;
   t3 <- replace buildInheritanceIndexViaObjectAssign_from
           buildInheritanceIndexViaObjectAssign t2 ;;
   t4 <- replace methods_from methods t3 ;;
   t5 <- replace constructors_from (constructors filepath) t4 ;;
   t6 <- replace parentConstructors_from (parentConstructors filepath) t5 ;;
   with_state (mkState false false)
     (replace classes_from (classes filepath) t6))%js.
End WithHost.
End transpile.

(** A [path.basename] for POSIX paths without a trailing slash: the part
    after the last [/], less the extension when it ends with it and is
    longer than it. *)
Fixpoint last_component (acc : text) (s : text) : text :=
  match s with
  | [] => acc
  | c :: s' => if c =? 47 then last_component [] s' else last_component (acc ++ [c]) s'
  end.

Definition posix_basename (p ext : text) : text :=
  let b := last_component [] p in
  if bool_decide (drop (length b - length ext) b = ext)
     && (length ext <? length b)%nat
  then take (length b - length ext) b else b.

(** The text V8 gives the members of [Object.prototype]. *)
Definition v8_inherited_text (k : text) : text :=
  if bool_decide (k = str "__proto__") then str "[object Object]"
  else if bool_decide (k = str "constructor")
       then str "function Object() { [native code] }"
       else str "function " ++ k ++ str "() { [native code] }".

(** ** Vocabulary of the properties *)

(** The capturing groups of a pattern. *)
Fixpoint groups_of (r : regex) : list nat :=
  match r with
  | Seq r1 r2 | Alt r1 r2 => groups_of r1 ++ groups_of r2
  | Star _ r1 | NegLook r1 => groups_of r1
  | Group i r1 => i :: groups_of r1
  | _ => []
  end.

(** The text [replace] builds from what the calls returned. *)
Fixpoint weave (ps : list piece) (outs : list text) : text :=
  match ps with
  | [] => []
  | Keep c :: ps' => c :: weave ps' outs
  | Match _ :: ps' =>
      match outs with
      | o :: outs' => o ++ weave ps' outs'
      | [] => []
      end
  end.

(** The groups that take part in every match of a pattern. *)
Fixpoint sure_groups (r : regex) : list nat :=
  match r with
  | Seq r1 r2 => sure_groups r1 ++ sure_groups r2
  | Alt r1 r2 => List.filter (λ i, bool_decide (i ∈ sure_groups r2)) (sure_groups r1)
  | Group i r1 => i :: sure_groups r1
  | _ => []
  end.

Definition add_console (ds : list diag) (w : World) : World :=
  mkWorld (index w) (internal w) (console w ++ ds).

(** What the constructor stage makes of a match, given the index. *)
Definition constructor_head (idx : gmap text (option text)) (h : hit) : text :=
  if inheritance.isClass idx (cap h 1) then str "constructor" else m_str h.

(** The report of a match on which the index and the file name disagree. *)
Definition class_mismatch (fileClass : text) (filepath : text)
  (idx : gmap text (option text)) (h : hit) : list diag :=
  let isClass1 := inheritance.isClass idx (cap h 1) in
  let isClass2 := bool_decide (fileClass = cap h 1) in
  if eqb isClass1 isClass2 then []
  else [ClassMismatch; ClassMismatchDetails filepath (cap h 1) isClass1 isClass2].

(** A call of the callback of [classes] at which the open condition
    fires. *)
Definition opened (c : World * transpile.state * hit * text) : bool :=
  transpile.isStart c.1.1.2 c.1.2.

(** What the callback of the class assembler returns on a match, for a
    given class header, and the state it leaves. *)
Definition sweep_out (header : text) (st : transpile.state) (h : hit) : text :=
  if transpile.isStart st h then
    header ++ indent ++ replace_str transpile.line_break (LF :: indent) (m_str h)
  else if transpile.isInClass st then
    if negb (transpile.isFinish h) then indent ++ m_str h
    else LF :: str "}" ++ [LF]
  else m_str h.

Definition sweep_next (st : transpile.state) (h : hit) : transpile.state :=
  if transpile.isStart st h then transpile.mkState true true
  else if transpile.isInClass st then
    if negb (transpile.isFinish h) then st
    else transpile.mkState false (transpile.matchedFirstComment st)
  else st.

(** The text the class assembler builds from the pieces of its input. *)
Fixpoint assemble (header : text) (st : transpile.state) (ps : list piece) : text :=
  match ps with
  | [] => []
  | Keep c :: ps' => c :: assemble header st ps'
  | Match h :: ps' =>
      sweep_out header st h ++ assemble header (sweep_next st h) ps'
  end.

(** The class header for a class name and the text of its parent, if it
    has one. *)
Definition class_header (className : text) (parent : option text) : text :=
  match parent with
  | Some p => str "export class " ++ className ++ str " extends " ++ p
              ++ str " {" ++ [LF; LF]
  | None => str "export class " ++ className ++ str " {" ++ [LF; LF]
  end.

(** The matches of a [g] pattern in a text. *)
Definition matches (p : pattern) (s : text) : list hit := hits (pieces p s).

(** A text in which no stage finds its pattern and the class assembler
    finds no documentation comment followed by the constructor marker. *)
Definition pattern_free (s : text) : bool :=
  match hits (scan_first transpile.initialROS3DAssignment_from 0 s),
        matches transpile.internalDependencies_from s,
        matches transpile.buildInheritanceIndexViaProto_from s,
        matches transpile.buildInheritanceIndexViaObjectAssign_from s,
        matches transpile.methods_from s,
        matches transpile.constructors_from s,
        matches transpile.parentConstructors_from s with
  | [], [], [], [], [], [], [] =>
      forallb (fun h => negb (defined (group h 1)))
        (matches transpile.classes_from s)
  | _, _, _, _, _, _, _ => false
  end.

(** The ways a greedy repetition of a one-character pattern can stop in a
    run of matching characters, the longest first. *)
Fixpoint backtracks (run rest : text) (c : captures) : list (text * captures) :=
  match run with
  | [] => [(rest, c)]
  | x :: run' => backtracks run' rest c ++ [(x :: run' ++ rest, c)]
  end.

(** A text that is empty or begins with a character the class refuses. *)
Definition stops (q : N → bool) (s : text) : bool :=
  match s with
  | [] => true
  | x :: _ => negb (q x)
  end.

(** A line break, white space, a reference, [.call(], the receiver and the
    rest of the line. *)
Definition call_line (nl : N) (ws ref recv rest : text) : text :=
  nl :: ws ++ ref ++ str ".call(" ++ recv ++ rest.

(** The separators of the argument text. *)
Definition is_sep (c : N) : bool := (c =? 44) || (c =? 41).

(** [call_args rest args]: the text after the receiver has the form of
    a closing parenthesis and a tail, or of a comma, an argument text
    free of closing parentheses, the closing parenthesis and a tail; the
    tail holds neither comma nor parenthesis.  [args] is the argument
    text, trimmed. *)
Inductive call_args : text → text → Prop :=
| call_no_args p0 tail :
    existsb is_sep p0 = false →
    existsb is_sep tail = false →
    call_args (p0 ++ 41 :: tail) []
| call_some_args p0 mid tail :
    existsb is_sep p0 = false →
    existsb (N.eqb 41) mid = false →
    existsb is_sep tail = false →
    call_args (p0 ++ 44 :: mid ++ 41 :: tail) (trim mid).

(** Whether an assignment operator comes next, white space and line
    breaks apart: [=] not followed by a second [=]. *)
Definition assigned_next (post : text) : bool :=
  match trim_start post with
  | 61 :: c :: _ => negb (c =? 61)
  | [61] => true
  | _ => false
  end.

(** The rest of the line a text starts in. *)
Fixpoint line_rest (s : text) : text :=
  match s with
  | c :: s' => if is_line_terminator c then [] else c :: line_rest s'
  | [] => []
  end.

(** The dependencies recorded for a file. *)
Definition deps_of (d : gmap text (list text)) (file : text) : list text :=
  default [] (d !! file).

Definition is_string (v : jsval) : bool :=
  match v with JStr _ => true | _ => false end.

(** The parents the index records are names: [track] stores a parent only
    when it is truthy, that is, not the empty string. *)
Definition index_wf (idx : gmap text (option text)) : Prop :=
  ∀ k p, idx !! k = Some (Some p) → p ≠ [].

(** The list [dependencies.track] leaves for a file: [includes], else
    [push]. *)
Definition add_dep (l : list text) (d : text) : list text :=
  if bool_decide (d ∈ l) then l else l ++ [d].

(** The entry [inheritance.track] leaves for a child whose entry was [v]. *)
Definition tracked (v : jsval) (parent : option text) : jsval :=
  match parent with
  | Some (c :: p) => if truthy v then v else JStr (c :: p)
  | _ => match v with JUndefined => JNull | _ => v end
  end.

(** The entry of [k] after the callback of a stage that calls
    [inheritance.track] with the child and parent [act] gives for the
    match, when it gives any. *)
Definition acted (act : hit → option (text * option text)) (k : text)
  (v : jsval) (h : hit) : jsval :=
  match act h with
  | Some (c, p) => if bool_decide (k = c) then tracked v p else v
  | None => v
  end.

(** What the method stage makes of a match. *)
Definition method_head (h : hit) : text :=
  if bool_decide (cap h 2 = str "__proto__") then m_str h else cap h 2.

(** The two link stages. *)
Definition link_stages : list (pattern * (hit → M World text)) :=
  [(transpile.buildInheritanceIndexViaProto_from,
    transpile.buildInheritanceIndexViaProto);
   (transpile.buildInheritanceIndexViaObjectAssign_from,
    transpile.buildInheritanceIndexViaObjectAssign)].

(** A match of the method pattern for the class [k] that is not the
    assignment of a function to [__proto__]. *)
Definition marks (k : text) (h : hit) : bool :=
  bool_decide (k = cap h 1) && negb (bool_decide (cap h 2 = str "__proto__")).

(** What a run prints with the debug rules as they are, the line
    [Processing] apart: the class mismatch banner, its details for the
    file of the run, and the notice of a removed call. *)
Definition notice (filepath : text) (d : diag) : bool :=
  match d with
  | ClassMismatch | RemovingExtraParentConstructorCall _ => true
  | ClassMismatchDetails f _ _ _ => bool_decide (f = filepath)
  | _ => false
  end.

(** A call of the callback of [classes] that closes the block: the block
    is open, the open condition does not fire, and the match is one of
    the second alternative. *)
Definition closed (c : World * transpile.state * hit * text) : bool :=
  negb (transpile.isStart c.1.1.2 c.1.2)
  && transpile.isInClass c.1.1.2 && transpile.isFinish c.1.2.

(** A text with every line break replaced by a line feed and one
    indentation. *)
Definition indent_lines (m : text) : text :=
  flat_map (λ c, if is_crlf c then LF :: indent else [c]) m.

(** A separator of the argument text, as [join] gives it back. *)
Definition sep_to_comma (c : N) : N := if is_sep c then 44 else c.

(** The text the first stage looks for, with [x] and [y] where the
    pattern has its two unescaped dots. *)
Definition initial_assignment (x y : N) : text :=
  str "var ROS3D = ROS3D || {" ++ LF :: str "  REVISION : '0" ++ x :: str "18"
  ++ y :: str "0'" ++ LF :: str "};".

(** What the stage of the superclass calls makes of a match, given the
    parent of the class of the file, and what it prints for it. *)
Definition super_call (parent : jsval) (h : hit) : text :=
  if str_strict_eq (cap h 2) parent
  then LF :: cap h 1 ++ str "super(" ++ transpile.super_args (cap h 3) ++ str ");"
  else [].

Definition removal_notice (parent : jsval) (h : hit) : list diag :=
  if str_strict_eq (cap h 2) parent then []
  else [RemovingExtraParentConstructorCall (m_str h)].

(** The statements the stages look for. *)
Definition method_statement (cls name : text) : text :=
  str "ROS3D." ++ cls ++ str ".prototype." ++ name ++ str " = function".

Definition proto_statement (cls parent : text) : text :=
  str "ROS3D." ++ cls ++ str ".prototype.__proto__ = " ++ parent
  ++ str ".prototype;".

Definition assign_statement (cls parent : text) : text :=
  str "Object.assign(" ++ cls ++ str ".prototype, " ++ parent
  ++ str ".prototype);".

Definition constructor_statement (name ws1 ws2 : text) : text :=
  str "ROS3D." ++ name ++ ws1 ++ 61 :: ws2 ++ str "function".

(** The line break a text begins with, if it begins with one. *)
Definition line_break_of (s : text) : text :=
  match s with
  | c :: _ => if is_crlf c then [c] else []
  | [] => []
  end.

(** Whether a text begins with another. *)
Fixpoint starts_with (l s : text) : bool :=
  match l, s with
  | [], _ => true
  | a :: l', b :: s' => (b =? a) && starts_with l' s'
  | _ :: _, [] => false
  end.

(** Whether a text occurs in another. *)
Fixpoint occurs (l s : text) : bool :=
  match s with
  | [] => starts_with l []
  | _ :: s' => starts_with l s || occurs l s'
  end.

(** ** Vocabulary of the class units and of the second application *)

(** [may_start l s]: [s] agrees with [l] as far as both go, so that [l]
    may begin where [s] begins, whatever follows [s]. *)
Fixpoint may_start (l s : text) : bool :=
  match l, s with
  | a :: l', b :: s' => (b =? a) && may_start l' s'
  | _, _ => true
  end.

(** No suffix of [s] may begin [l]. *)
Fixpoint no_start (l s : text) : bool :=
  match s with
  | [] => true
  | _ :: s' => negb (may_start l s) && no_start l s'
  end.

(** [quiet l a r]: in the text [a ++ r], [l] begins at no place of [a]. *)
Fixpoint quiet (l a r : text) : Prop :=
  match a with
  | [] => True
  | _ :: a' => starts_with l (a ++ r) = false ∧ quiet l a' r
  end.

(** [mute p a r]: in the text [a ++ r], [exec] finds the pattern at no
    place of [a]. *)
Fixpoint mute (p : pattern) (a r : text) : Prop :=
  match a with
  | [] => True
  | _ :: a' => exec_at p 0 (a ++ r) = None ∧ mute p a' r
  end.

(** The lines of a text, each closed by a line feed. *)
Definition unlines (ls : list text) : text := flat_map (λ l, l ++ [LF]) ls.

(** A text that holds none of the marks the stages look for: the name
    space, [Object] and [.call(]. *)
Definition plain (s : text) : bool :=
  negb (occurs (str "ROS3D") s) && negb (occurs (str "Object") s)
  && negb (occurs (str ".call(") s).

(** The text between the opening and the closing of a documentation
    comment, as the pattern of the class assembler reads it: a star
    followed by anything but a slash, or anything but a star, one after
    the other, up to the end. *)
Fixpoint comment_tokens (c : text) : bool :=
  match c with
  | [] => true
  | x :: c1 =>
      if x =? 42 then
        match c1 with
        | [] => false
        | y :: c2 => negb (y =? 47) && comment_tokens c2
        end
      else comment_tokens c1
  end.

Definition comment_body (c : text) : bool :=
  match c with [] => false | _ :: _ => comment_tokens c end.

(** A line of a body: no line terminator, none of the marks, and no
    documentation comment at its beginning. *)
Definition body_line (l : text) : bool :=
  forallb not_terminator l && plain l && negb (starts_with (str "/**") l).

(** Scenario A in general: a documentation comment, the link of the
    prototype of [Arrow2] to that of [Base], the constructor with the
    lines of its body, and one method with the lines of its body, each
    line closed by a line feed. *)
Definition doc_comment (c : text) : text := str "/**" ++ c ++ str "*/".
Definition link_line : text := proto_statement (str "Arrow2") (str "Base").
Definition constructor_line (a1 : text) : text :=
  str "ROS3D.Arrow2 = function(" ++ a1.
Definition method_line (m a2 : text) : text :=
  method_statement (str "Arrow2") m ++ a2.

Definition class_unit (c a1 : text) (body1 : list text) (m a2 : text)
  (body2 : list text) : text :=
  unlines (doc_comment c :: link_line :: constructor_line a1
           :: body1 ++ method_line m a2 :: body2).

(** What is asked of the parts: the comment is one, holds none of the
    marks and no line or paragraph separator; the rests of the two lines
    hold no line terminator and none of the marks; the method has a
    name other than [__proto__]; the lines of the bodies are
    [body_line]s; the last line of the unit is not empty. *)
Definition class_unit_ok (c a1 : text) (body1 : list text) (m a2 : text)
  (body2 : list text) : bool :=
  comment_body c && plain c
  && forallb (λ x, negb ((x =? LS) || (x =? PS))) c
  && forallb not_terminator a1 && plain a1
  && forallb body_line body1
  && negb (bool_decide (m = [])) && forallb is_word m
  && negb (bool_decide (m = str "__proto__"))
  && forallb not_terminator a2 && plain (m ++ a2)
  && forallb body_line body2
  && negb (bool_decide (last body2 = Some [])).

(** The lines inside the class block as the assembler returns them: one
    indentation before each line and, the line being closed by an empty
    match of its own, one after each line that is not empty; the last
    line is followed by the closing brace. *)
Fixpoint block (ls : list text) : text :=
  match ls with
  | [] => []
  | [l] => indent ++ l ++ LF :: str "}" ++ [LF]
  | l :: ls' =>
      indent ++ l ++ (match l with [] => [] | _ :: _ => indent end)
      ++ LF :: block ls'
  end.

Definition class_unit_output (c a1 : text) (body1 : list text) (m a2 : text)
  (body2 : list text) : text :=
  str "export class Arrow2 extends Base {" ++ LF :: LF ::
  indent ++ str "/**" ++ indent_lines c ++ str "*/" ++ LF ::
  block ((str "constructor(" ++ a1) :: body1 ++ (m ++ a2) :: body2).

(** A text that begins with line breaks that are followed by a
    character that ends no line. *)
Definition has_text (s : text) : Prop :=
  ∃ nls x r, s = nls ++ x :: r ∧ forallb is_crlf nls = true
             ∧ is_line_terminator x = false.

(** A text in which no line begins with the opening of a documentation
    comment: not the text itself, and nothing that follows a line
    terminator in it. *)
Fixpoint no_comment_after_break (s : text) : bool :=
  match s with
  | [] => true
  | x :: s' =>
      (negb (is_line_terminator x) || negb (starts_with (str "/**") s'))
      && no_comment_after_break s'
  end.

Definition calm (s : text) : bool :=
  negb (starts_with (str "/**") s) && no_comment_after_break s.

(** A text on which a second application has nothing to do, for a unit
    and an index: the stages of the dependencies, of the links and of
    the superclass calls find nothing in it, nor does the first stage
    when the unit is the namespace's; every method statement in it is on
    [__proto__], every constructor statement in it names something the
    index does not hold, and the class assembler finds no documentation
    comment followed by the constructor marker. *)
Definition settled (filepath : text) (idx : gmap text (option text)) (t : text)
  : bool :=
  (negb (bool_decide (filepath = str "src/Ros3D.js"))
   || bool_decide (hits (scan_first transpile.initialROS3DAssignment_from 0 t) = []))
  && bool_decide (matches transpile.internalDependencies_from t = [])
  && bool_decide (matches transpile.buildInheritanceIndexViaProto_from t = [])
  && bool_decide (matches transpile.buildInheritanceIndexViaObjectAssign_from t = [])
  && forallb (λ h, bool_decide (cap h 2 = str "__proto__"))
       (matches transpile.methods_from t)
  && forallb (λ h, negb (inheritance.isClass idx (cap h 1)))
       (matches transpile.constructors_from t)
  && bool_decide (matches transpile.parentConstructors_from t = [])
  && forallb (λ h, negb (defined (group h 1))) (matches transpile.classes_from t).

(** ** Sample inputs *)

(** Scenario A: documentation comment, link of the prototypes,
    constructor and one method, and what the pipeline makes of it. *)
Definition scenario_A_input : text :=
  str "/** An arrow. */" ++ LF ::
  str "ROS3D.Arrow2.prototype.__proto__ = Base.prototype;" ++ LF ::
  str "ROS3D.Arrow2 = function(options) {" ++ LF ::
  str "};" ++ LF ::
  str "ROS3D.Arrow2.prototype.dispose = function() {" ++ LF ::
  str "};" ++ [LF].

Definition scenario_A_output : text :=
  str "export class Arrow2 extends Base {" ++ LF :: LF ::
  str "  /** An arrow. */" ++ LF ::
  str "  constructor(options) {  " ++ LF ::
  str "  };  " ++ LF ::
  str "  dispose() {  " ++ LF ::
  str "  };" ++ LF ::
  str "}" ++ [LF].

(** The same unit without the documentation comment. *)
Definition scenario_A_bare : text :=
  str "ROS3D.Arrow2.prototype.__proto__ = Base.prototype;" ++ LF ::
  str "ROS3D.Arrow2 = function(options) {" ++ LF ::
  str "};" ++ LF ::
  str "ROS3D.Arrow2.prototype.dispose = function() {" ++ LF ::
  str "};" ++ [LF].

(** A run in which [Arrow2] already extends [Base]. *)
Definition arrow2_world : World :=
  mkWorld {[ str "Arrow2" := Some (str "Base") ]} ∅ [].

(** * Properties *)

(** ** The inheritance index *)

Lemma index_wf_empty : index_wf ∅.
Proof. intros k p H. by rewrite lookup_empty in H. Qed.

Lemma lookup_JStr idx k p :
  inheritance.lookup idx k = JStr p → idx !! k = Some (Some p).
Proof.
  unfold inheritance.lookup.
  destruct (idx !! k) as [[q|]|]; try discriminate.
  - by intros [= ->].
  - by destruct (inherited k).
Qed.

Lemma track_index_wf child parent w u w' :
  index_wf (index w) →
  inheritance.track child parent w = Ok (u, w') →
  index_wf (index w').
Proof.
  intros Hwf. unfold inheritance.track, bind, gets, when, modify, ret; cbn.
  destruct parent as [[|c p]|]; cbn.
  - destruct (inheritance.isClass (index w) child); cbn; intros [= <- <-]; [done|].
    intros k q. cbn. rewrite lookup_insert. case_decide; [done|apply Hwf].
  - destruct (truthy (inheritance.lookup (index w) child)); cbn.
    + destruct (inheritance.isClass (index w) child); cbn; intros [= <- <-]; [done|].
      intros k q. cbn. rewrite lookup_insert. case_decide; [done|apply Hwf].
    + intros [= <- <-] k q. cbn. rewrite lookup_insert.
      case_decide; [by intros [= <-]|apply Hwf].
  - destruct (inheritance.isClass (index w) child); cbn; intros [= <- <-]; [done|].
    intros k q. cbn. rewrite lookup_insert. case_decide; [done|apply Hwf].
Qed.

Lemma track_new child p w :
  inheritance.lookup (index w) child = JUndefined → p ≠ [] →
  inheritance.track child (Some p) w = Ok (tt, set_index <[child := Some p]> w).
Proof.
  intros Hu Hp. unfold inheritance.track, bind, gets, when, modify. cbn.
  rewrite Hu. by destruct p.
Qed.

Lemma track_known child w :
  inheritance.isClass (index w) child = true →
  inheritance.track child None w = Ok (tt, w).
Proof.
  intros Hc. unfold inheritance.track, bind, gets, when, modify. cbn.
  by rewrite Hc.
Qed.

(** C1.  First registration wins: when the index already gives [child] a
    parent name, a later [inheritance.track child q], whatever [q] is
    (another name, the empty string or [null]), returns normally and
    leaves the index as it was, so [getParent] still answers the first
    parent. *)
Theorem track_first_wins (w : World) (child p : text) (q : option text) :
  index_wf (index w) →
  inheritance.getParent (index w) child = JStr p →
  ∃ w', inheritance.track child q w = Ok (tt, w')
        ∧ index w' = index w
        ∧ inheritance.getParent (index w') child = JStr p.
Proof.
  intros Hwf Hp. exists w.
  unfold inheritance.getParent in Hp.
  assert (Hne : p ≠ []) by (eapply Hwf, lookup_JStr, Hp).
  split; [|done].
  unfold inheritance.track, bind, gets; cbn.
  unfold inheritance.isClass. rewrite Hp. cbn.
  destruct p as [|c p]; [done|]. cbn.
  rewrite andb_false_r. done.
Qed.

Lemma track_first_wins_witness :
  ∃ w', inheritance.track (str "Arrow2") (Some (str "Other"))
          (mkWorld {[ str "Arrow2" := Some (str "Base") ]} ∅ []) = Ok (tt, w')
        ∧ index w' = {[ str "Arrow2" := Some (str "Base") ]}
        ∧ inheritance.getParent (index w') (str "Arrow2") = JStr (str "Base").
Proof.
  refine (track_first_wins
            (mkWorld {[ str "Arrow2" := Some (str "Base") ]} ∅ [])
            (str "Arrow2") (str "Base") (Some (str "Other")) _ _).
  - intros k p H. unfold index in H.
    apply lookup_singleton_Some in H as [_ [= <-]]. done.
  - vm_compute. reflexivity.
Defined.

(** C9.  A class marked without parent can still get one: when the index
    holds [null] for [child], [inheritance.track child p] with a name [p]
    (a non-empty string) records [p] as the parent, and changes no other
    entry. *)
Theorem track_null_then_parent (w : World) (child p : text) :
  inheritance.getParent (index w) child = JNull →
  p ≠ [] →
  ∃ w', inheritance.track child (Some p) w = Ok (tt, w')
        ∧ inheritance.getParent (index w') child = JStr p
        ∧ ∀ k, k ≠ child → index w' !! k = index w !! k.
Proof.
  intros Hnull Hp. unfold inheritance.getParent in *.
  exists (set_index <[child := Some p]> w).
  unfold inheritance.track, bind, gets, when, modify; cbn.
  rewrite Hnull. destruct p as [|c p]; [done|]. cbn.
  split; [done|]. split.
  - unfold inheritance.lookup. by rewrite lookup_insert_eq.
  - intros k Hk. by rewrite lookup_insert_ne.
Qed.

Lemma track_null_then_parent_witness :
  ∃ w', inheritance.track (str "Arrow2") (Some (str "Base"))
          (mkWorld {[ str "Arrow2" := None ]} ∅ []) = Ok (tt, w')
        ∧ inheritance.getParent (index w') (str "Arrow2") = JStr (str "Base")
        ∧ ∀ k, k ≠ str "Arrow2" →
               index w' !! k = ({[ str "Arrow2" := None ]} : gmap text (option text)) !! k.
Proof.
  refine (track_null_then_parent
            (mkWorld {[ str "Arrow2" := None ]} ∅ []) (str "Arrow2") (str "Base") _ _).
  - vm_compute. reflexivity.
  - discriminate.
Defined.

(** ** The matcher *)

(** Iterating a matcher keeps every relation that its body keeps, when
    the relation is reflexive and transitive. *)
Lemma repeat_fuel_rel (R : text * captures → text * captures → Prop)
  (body : text → captures → list (text * captures)) :
  (∀ x, R x x) →
  (∀ x y z, R x y → R y z → R x z) →
  (∀ s c y, In y (body s c) → R (s, c) y) →
  ∀ greedy n s c y, In y (repeat_fuel body greedy n s c) → R (s, c) y.
Proof.
  intros Hrefl Htrans Hbody greedy n.
  induction n as [|n IH]; intros s c y; cbn.
  - intros [<-|[]]. apply Hrefl.
  - assert (Hmore : In y (flat_map
               (λ r : text * captures,
                  if (length r.1 <? length s)%nat
                  then repeat_fuel body greedy n r.1 r.2 else [])
               (body s c)) → R (s, c) y).
    { intros Hin. apply in_flat_map in Hin as ([s1 c1] & H1 & H2).
      cbn [fst snd] in H2.
      destruct (length s1 <? length s)%nat; [|done].
      eapply Htrans; [apply Hbody, H1|apply IH, H2]. }
    destruct greedy.
    + intros Hin. apply in_app_iff in Hin as [Hin|[<-|[]]]; [auto|apply Hrefl].
    + intros [<-|Hin]; [apply Hrefl|auto].
Qed.

(** The fuel of [Star] never runs out: beyond the length of the text, more
    fuel changes nothing. *)
Lemma repeat_fuel_enough body greedy : ∀ n m s c,
  (length s ≤ n)%nat → (length s ≤ m)%nat →
  repeat_fuel body greedy n s c = repeat_fuel body greedy m s c.
Proof.
  assert (Hnil : ∀ k c, repeat_fuel body greedy (S k) [] c = [([], c)]).
  { intros k c. cbn [repeat_fuel].
    assert (E : flat_map
                  (λ r : text * captures,
                     if (length r.1 <? length (@nil N))%nat
                     then repeat_fuel body greedy k r.1 r.2 else [])
                  (body [] c) = []).
    { induction (body [] c) as [|x l IH]; [done|]. cbn [flat_map].
      by rewrite IH. }
    rewrite E. by destruct greedy. }
  induction n as [|n IH]; intros [|m] s c Hn Hm.
  - done.
  - destruct s; [|cbn in Hn; lia]. by rewrite Hnil.
  - destruct s; [|cbn in Hm; lia]. by rewrite Hnil.
  - cbn [repeat_fuel].
    rewrite (flat_map_ext _
               (λ r : text * captures,
                  if (length r.1 <? length s)%nat
                  then repeat_fuel body greedy m r.1 r.2 else [])); [done|].
    intros r. destruct (length r.1 <? length s)%nat eqn:E; [|done].
    apply Nat.ltb_lt in E. apply IH; lia.
Qed.

(** What is left after a match is a suffix of what was there. *)
Lemma rmatch_suffix r : ∀ s c y, In y (rmatch r s c) → ∃ pre, s = pre ++ y.1.
Proof.
  induction r as [|a| |p|r1 IH1 r2 IH2|r1 IH1 r2 IH2|g r1 IH1|i r1 IH1|r1 IH1|];
    intros s c y; cbn.
  - intros [<-|[]]. by exists [].
  - destruct s as [|x s]; [done|]. destruct (x =? a); [|done].
    intros [<-|[]]. by exists [x].
  - destruct s as [|x s]; [done|]. destruct (is_line_terminator x); [done|].
    intros [<-|[]]. by exists [x].
  - destruct s as [|x s]; [done|]. destruct (p x); [|done].
    intros [<-|[]]. by exists [x].
  - intros Hin. apply in_flat_map in Hin as (m & H1 & H2).
    destruct (IH1 _ _ _ H1) as [p1 ->]. destruct (IH2 _ _ _ H2) as [p2 E].
    exists (p1 ++ p2). by rewrite E, (assoc_L (++)).
  - intros Hin. apply in_app_iff in Hin as [Hin|Hin]; eauto.
  - intros Hin.
    apply (repeat_fuel_rel (λ x y, ∃ pre, x.1 = pre ++ y.1) (rmatch r1)) in Hin;
      [done|..].
    + intros x. by exists [].
    + intros x y0 z [p1 E1] [p2 E2]. exists (p1 ++ p2).
      by rewrite E1, E2, (assoc_L (++)).
    + intros s0 c0 y0 H0. apply (IH1 _ _ _ H0).
  - intros Hin. apply in_map_iff in Hin as (m & <- & Hm). apply (IH1 _ _ _ Hm).
  - destruct (rmatch r1 s c); [|done]. intros [<-|[]]. by exists [].
  - destruct s as [|x s]; [intros [<-|[]]; by exists []|].
    destruct (is_line_terminator x); [|done]. intros [<-|[]]. by exists [].
Qed.

(** A match changes the captures of the groups of the pattern only, and
    keeps their number. *)
Lemma rmatch_captures r :
  ∀ s c y, In y (rmatch r s c) →
    length y.2 = length c ∧ ∀ i, i ∉ groups_of r → y.2 !! i = c !! i.
Proof.
  induction r as [|a| |p|r1 IH1 r2 IH2|r1 IH1 r2 IH2|g r1 IH1|i r1 IH1|r1 IH1|];
    intros s c y; cbn.
  - by intros [<-|[]].
  - destruct s as [|x s]; [done|]. destruct (x =? a); [|done]. by intros [<-|[]].
  - destruct s as [|x s]; [done|]. destruct (is_line_terminator x); [done|].
    by intros [<-|[]].
  - destruct s as [|x s]; [done|]. destruct (p x); [|done]. by intros [<-|[]].
  - intros Hin. apply in_flat_map in Hin as (m & H1 & H2).
    destruct (IH1 _ _ _ H1) as [L1 E1]. destruct (IH2 _ _ _ H2) as [L2 E2].
    split; [congruence|]. intros i Hi.
    apply not_elem_of_app in Hi as [Hi1 Hi2]. by rewrite E2, E1.
  - intros Hin. apply in_app_iff in Hin as [Hin|Hin].
    + destruct (IH1 _ _ _ Hin) as [L E]. split; [done|]. intros i Hi.
      apply not_elem_of_app in Hi as [Hi1 Hi2]. by apply E.
    + destruct (IH2 _ _ _ Hin) as [L E]. split; [done|]. intros i Hi.
      apply not_elem_of_app in Hi as [Hi1 Hi2]. by apply E.
  - intros Hin.
    apply (repeat_fuel_rel
             (λ x y, length y.2 = length x.2
                     ∧ ∀ i, i ∉ groups_of r1 → y.2 !! i = x.2 !! i)
             (rmatch r1)) in Hin; [done|..].
    + done.
    + intros x y0 z [L1 E1] [L2 E2]. split; [congruence|].
      intros i Hi. by rewrite E2, E1.
    + intros s0 c0 y0 H0. apply (IH1 _ _ _ H0).
  - intros Hin. apply in_map_iff in Hin as (m & <- & Hm).
    destruct (IH1 _ _ _ Hm) as [L E]. cbn. split.
    + by rewrite length_insert.
    + intros j Hj. apply not_elem_of_cons in Hj as [Hj1 Hj2].
      rewrite list_lookup_insert_ne by done. by apply E.
  - destruct (rmatch r1 s c); [|done]. by intros [<-|[]].
  - destruct s as [|x s]; [by intros [<-|[]]|].
    destruct (is_line_terminator x); [|done]. by intros [<-|[]].
Qed.

(** A match unsets no capture, and sets those of the groups that take
    part in every match. *)
Lemma rmatch_defined r :
  ∀ s c y, In y (rmatch r s c) →
    (∀ i, is_Some (mjoin (c !! i)) → is_Some (mjoin (y.2 !! i)))
    ∧ (∀ i, i ∈ sure_groups r → (i < length c)%nat → is_Some (mjoin (y.2 !! i))).
Proof.
  induction r as [|a| |p|r1 IH1 r2 IH2|r1 IH1 r2 IH2|g r1 IH1|i r1 IH1|r1 IH1|];
    intros s c y; cbn [rmatch sure_groups].
  - intros [<-|[]]. split; [done|]. by intros i ?%elem_of_nil.
  - destruct s as [|x s]; [done|]. destruct (x =? a); [|done].
    intros [<-|[]]. split; [done|]. by intros i ?%elem_of_nil.
  - destruct s as [|x s]; [done|]. destruct (is_line_terminator x); [done|].
    intros [<-|[]]. split; [done|]. by intros i ?%elem_of_nil.
  - destruct s as [|x s]; [done|]. destruct (p x); [|done].
    intros [<-|[]]. split; [done|]. by intros i ?%elem_of_nil.
  - intros Hin. apply in_flat_map in Hin as (m & H1 & H2).
    destruct (IH1 _ _ _ H1) as [K1 S1]. destruct (IH2 _ _ _ H2) as [K2 S2].
    destruct (rmatch_captures _ _ _ _ H1) as [L1 _].
    split; [auto|]. intros i [Hi|Hi]%elem_of_app Hlen; [auto|].
    apply S2; [done|]. by rewrite L1.
  - intros Hin. apply in_app_iff in Hin as [Hin|Hin].
    + destruct (IH1 _ _ _ Hin) as [K S]. split; [done|].
      intros i Hi%list_elem_of_In%filter_In. apply S.
      apply list_elem_of_In, Hi.
    + destruct (IH2 _ _ _ Hin) as [K S]. split; [done|].
      intros i Hi%list_elem_of_In%filter_In. apply S.
      destruct Hi as [_ Hi]. by apply bool_decide_eq_true in Hi.
  - intros Hin. split; [|by intros i ?%elem_of_nil].
    refine (repeat_fuel_rel
              (λ x y, ∀ i, is_Some (mjoin (x.2 !! i)) → is_Some (mjoin (y.2 !! i)))
              (rmatch r1) _ _ _ g (length s) s c y Hin).
    + done.
    + intros x y0 z H1 H2 i Hi. auto.
    + intros s0 c0 y0 H0. apply (IH1 _ _ _ H0).
  - intros Hin. apply in_map_iff in Hin as (m & <- & Hm).
    destruct (IH1 _ _ _ Hm) as [K S].
    destruct (rmatch_captures _ _ _ _ Hm) as [L _]. cbn [fst snd].
    split.
    + intros j Hj. destruct (decide (i = j)) as [<-|Hne].
      * rewrite list_lookup_insert_eq; [by eexists|].
        rewrite L. destruct (c !! i) eqn:E; [|by destruct Hj].
        by apply lookup_lt_Some in E.
      * rewrite list_lookup_insert_ne by done. auto.
    + intros j Hj Hlen. destruct (decide (i = j)) as [<-|Hne].
      * rewrite list_lookup_insert_eq; [by eexists|]. by rewrite L.
      * rewrite list_lookup_insert_ne by done. apply S; [|done].
        apply elem_of_cons in Hj as [->|Hj]; done.
  - destruct (rmatch r1 s c); [|done]. intros [<-|[]].
    split; [done|]. by intros i ?%elem_of_nil.
  - destruct s as [|x s].
    + intros [<-|[]]. split; [done|]. by intros i ?%elem_of_nil.
    + destruct (is_line_terminator x); [|done]. intros [<-|[]].
      split; [done|]. by intros i ?%elem_of_nil.
Qed.

(** [exec] reports the first way to match. *)
Lemma exec_at_Some p pos s h :
  exec_at p pos s = Some h →
  ∃ rest caps tl,
    rmatch (p_re p) s (replicate (S (p_groups p)) None) = (rest, caps) :: tl
    ∧ s = m_str h ++ rest ∧ m_caps h = caps ∧ m_index h = pos.
Proof.
  unfold exec_at.
  destruct (rmatch _ _ _) as [|[rest caps] tl] eqn:E; [done|].
  intros [= <-]. exists rest, caps, tl. cbn. split_and!; try done.
  destruct (rmatch_suffix (p_re p) s (replicate (S (p_groups p)) None)
              (rest, caps)) as [pre Hpre].
  { rewrite E. by left. }
  cbn in Hpre. rewrite Hpre at 2 3.
  rewrite length_app, Nat.add_sub, take_app_length. done.
Qed.

(** Every match [replace] finds is what [exec] reports at its offset. *)
Lemma hits_scan p : ∀ s pos skip h,
  In h (hits (scan p pos skip s)) →
  ∃ k, (k ≤ length s)%nat ∧ exec_at p (pos + k) (drop k s) = Some h.
Proof.
  induction s as [|c s IH]; intros pos skip h.
  - destruct skip; cbn; [|done].
    destruct (exec_at p pos []) eqn:E; [|done].
    intros [<-|[]]. exists 0%nat. by rewrite Nat.add_0_r.
  - assert (Hnext : ∀ k', In h (hits (scan p (S pos) k' s)) →
              ∃ k, (k ≤ length (c :: s))%nat
                   ∧ exec_at p (pos + k) (drop k (c :: s)) = Some h).
    { intros k' Hin. destruct (IH _ _ _ Hin) as (k & Hk & E).
      exists (S k). cbn. split; [lia|]. by rewrite Nat.add_succ_r. }
    destruct skip; cbn; [|apply Hnext].
    destruct (exec_at p pos (c :: s)) eqn:E.
    + cbn. intros [<-|Hin].
      * exists 0%nat. rewrite Nat.add_0_r. split; [lia|done].
      * destruct (length (m_str h0)); cbn in Hin; eauto.
    + cbn. eauto.
Qed.

Lemma hits_pieces p s h :
  In h (hits (pieces p s)) →
  ∃ k, (k ≤ length s)%nat ∧ exec_at p k (drop k s) = Some h.
Proof. intros Hin. apply (hits_scan p s 0 0 h Hin). Qed.

(** The captures the callbacks read are those of groups that take part
    in every match of their pattern. *)
Lemma matches_group p s h i :
  In h (matches p s) →
  i ∈ sure_groups (p_re p) → (i ≤ p_groups p)%nat →
  ∃ t, group h i = Some t ∧ cap h i = t.
Proof.
  intros Hin Hi Hle. apply hits_pieces in Hin as (k & _ & E).
  apply exec_at_Some in E as (rest & caps & tl & E & _ & Hc & _).
  destruct (rmatch_defined (p_re p) (drop k s)
              (replicate (S (p_groups p)) None) (rest, caps)) as [_ S].
  { rewrite E. by left. }
  destruct (S i Hi) as [t Ht].
  { rewrite length_replicate. lia. }
  unfold cap, group. rewrite Hc. cbn [fst snd] in Ht.
  destruct (caps !! i) as [[t'|]|]; try done. by exists t'.
Qed.

Lemma stage_captures_take_part :
  sure_groups (p_re transpile.internalDependencies_from) = [1%nat]
  ∧ sure_groups (p_re transpile.buildInheritanceIndexViaProto_from) = [1%nat; 2%nat]
  ∧ sure_groups (p_re transpile.buildInheritanceIndexViaObjectAssign_from)
    = [1%nat; 2%nat]
  ∧ sure_groups (p_re transpile.methods_from) = [1%nat; 2%nat]
  ∧ sure_groups (p_re transpile.constructors_from) = [1%nat]
  ∧ sure_groups (p_re transpile.parentConstructors_from) = [1%nat; 2%nat; 3%nat].
Proof. repeat split; reflexivity. Qed.

(** Putting every match back gives the text back. *)
Lemma splice_with_scan p : ∀ s pos skip,
  splice_with m_str (scan p pos skip s) = drop skip s.
Proof.
  induction s as [|c s IH]; intros pos skip.
  - destruct skip; cbn; [|done].
    destruct (exec_at p pos []) eqn:E; [|done]. cbn.
    apply exec_at_Some in E as (rest & caps & tl & _ & E & _).
    symmetry in E. apply app_eq_nil in E as [-> _]. done.
  - destruct skip; cbn; [|apply IH].
    destruct (exec_at p pos (c :: s)) eqn:E; cbn; [|by rewrite IH].
    apply exec_at_Some in E as (rest & caps & tl & _ & E & _).
    destruct (m_str h) as [|x m] eqn:Em; cbn.
    + by rewrite IH.
    + rewrite IH. cbn in E. injection E as -> ->.
      by rewrite drop_app_length.
Qed.

Lemma splice_with_pieces p s : splice_with m_str (pieces p s) = s.
Proof. apply (splice_with_scan p s 0 0). Qed.

Lemma splice_with_Keep f l : splice_with f (map Keep l) = l.
Proof. induction l as [|c l IH]; cbn; [done|by rewrite IH]. Qed.

Lemma splice_with_scan_first p : ∀ s pos,
  splice_with m_str (scan_first p pos s) = s.
Proof.
  induction s as [|c s IH]; intros pos; cbn [scan_first].
  - destruct (exec_at p pos []) eqn:E; [|done]. cbn.
    apply exec_at_Some in E as (rest & caps & tl & _ & E & _).
    symmetry in E. apply app_eq_nil in E as [-> _]. done.
  - destruct (exec_at p pos (c :: s)) eqn:E; [|cbn; by rewrite IH].
    cbn [splice_with]. rewrite splice_with_Keep.
    apply exec_at_Some in E as (rest & caps & tl & _ & E & _).
    rewrite E at 1. by rewrite drop_app_length.
Qed.

(** ** The monad and [replace] *)

Lemma add_console_nil w : add_console [] w = w.
Proof. destruct w. unfold add_console. cbn. by rewrite app_nil_r. Qed.

Lemma add_console_app ds1 ds2 w :
  add_console ds2 (add_console ds1 w) = add_console (ds1 ++ ds2) w.
Proof. unfold add_console. cbn. by rewrite app_assoc. Qed.

Lemma log_add d w : log d w = Ok (tt, add_console [d] w).
Proof. reflexivity. Qed.

(** A callback that only prints: [replace] then builds the text from what
    the callback returns on the initial tables. *)
Lemma splice_printing (cb : hit → M World text) (f : hit → text)
  (ds : hit → list diag) (idx : gmap text (option text))
  (dep : gmap text (list text)) :
  (∀ h w, index w = idx → internal w = dep →
          cb h w = Ok (f h, add_console (ds h) w)) →
  ∀ ps w, index w = idx → internal w = dep →
    splice cb ps w = Ok (splice_with f ps, add_console (flat_map ds (hits ps)) w).
Proof.
  intros Hcb ps. induction ps as [|[c|h] ps IH]; intros w Hi Hd; cbn.
  - by rewrite add_console_nil.
  - unfold bind. by rewrite (IH w Hi Hd).
  - unfold bind. rewrite (Hcb h w Hi Hd).
    rewrite (IH (add_console (ds h) w)); [|done..].
    cbn. by rewrite add_console_app.
Qed.

Lemma bind_Ok {S A B} (m : M S A) (k : A → M S B) s a s' :
  m s = Ok (a, s') → bind m k s = k a s'.
Proof. unfold bind. by intros ->. Qed.

Lemma splice_no_hits {S} (cb : hit → M S text) ps (s : S) :
  hits ps = [] → splice cb ps s = Ok (splice_with m_str ps, s).
Proof.
  induction ps as [|[c|h] ps IH]; cbn; [done| |done].
  intros H. unfold bind. by rewrite (IH H).
Qed.

Lemma replace_no_hits {S} (p : pattern) (cb : hit → M S text) t (s : S) :
  matches p t = [] → replace p cb t s = Ok (t, s).
Proof.
  intros H. unfold replace. rewrite (splice_no_hits cb _ s H).
  by rewrite splice_with_pieces.
Qed.

Lemma splice_with_ext f g ps :
  (∀ h, In h (hits ps) → f h = g h) → splice_with f ps = splice_with g ps.
Proof.
  induction ps as [|[c|h] ps IH]; cbn; intros H; [done|by rewrite IH|].
  rewrite (H h) by (by left). rewrite IH; [done|]. intros h' Hh. apply H. by right.
Qed.

Lemma splice_with_no_hits f ps :
  hits ps = [] → splice_with f ps = splice_with m_str ps.
Proof.
  induction ps as [|[c|h] ps IH]; cbn; [done| |done].
  intros H. by rewrite (IH H).
Qed.

Lemma bind_inv {S A B} (m : M S A) (k : A → M S B) s b s'' :
  bind m k s = Ok (b, s'') → ∃ a s', m s = Ok (a, s') ∧ k a s' = Ok (b, s'').
Proof.
  unfold bind. destruct (m s) as [[a s']|]; [|done]. intros H. by exists a, s'.
Qed.

(** [replace] keeps what every call of the callback keeps. *)
Lemma splice_invariant {S} (P : S → Prop) (cb : hit → M S text) :
  (∀ h s r s', P s → cb h s = Ok (r, s') → P s') →
  ∀ ps s out s', P s → splice cb ps s = Ok (out, s') → P s'.
Proof.
  intros Hcb ps. induction ps as [|[c|h] ps IH]; intros s out s' Hs; cbn [splice].
  - by intros [= <- <-].
  - intros (o & s1 & E & [= <- <-])%bind_inv. by apply (IH _ _ _ Hs E).
  - intros (r & s1 & E1 & (o & s2 & E2 & [= <- <-])%bind_inv)%bind_inv.
    apply (IH _ _ _ (Hcb _ _ _ _ Hs E1) E2).
Qed.

(** [calls] lists the calls [replace] makes. *)
Lemma splice_calls {S} (cb : hit → M S text) ps : ∀ s out s',
  splice cb ps s = Ok (out, s') →
  out = weave ps (map (λ c, c.2) (calls cb ps s))
  ∧ map (λ c, c.1.2) (calls cb ps s) = hits ps.
Proof.
  induction ps as [|[c|h] ps IH]; intros s out s'; cbn [splice calls weave hits].
  - by intros [= <- <-].
  - intros (o & s1 & E & [= <- <-])%bind_inv.
    destruct (IH _ _ _ E) as [-> Hh]. done.
  - intros (r & s1 & E1 & (o & s2 & E2 & [= <- <-])%bind_inv)%bind_inv.
    rewrite E1. cbn [map snd fst weave]. destruct (IH _ _ _ E2) as [-> ->]. done.
Qed.

(** A callback that is called once. *)
Lemma splice_once {S} (cb : hit → M S text) ps h r (s s' : S) :
  hits ps = [h] → cb h s = Ok (r, s') →
  splice cb ps s = Ok (splice_with (λ _, r) ps, s').
Proof.
  induction ps as [|[c|h'] ps IH]; cbn [hits splice splice_with]; [done|..].
  - intros Hh Hcb. unfold bind. by rewrite (IH Hh Hcb).
  - intros [= -> Hh] Hcb. unfold bind. rewrite Hcb.
    rewrite (splice_no_hits cb ps s' Hh).
    by rewrite (splice_with_no_hits (λ _, r) ps Hh).
Qed.

(** ** Greedy runs *)

Lemma repeat_fuel_run body (q : N → bool) :
  (∀ x s c, body (x :: s) c = if q x then [(s, c)] else []) →
  (∀ c, body [] c = []) →
  ∀ run rest c,
    forallb q run = true → stops q rest = true →
    repeat_fuel body true (length (run ++ rest)) (run ++ rest) c
    = backtracks run rest c.
Proof.
  intros Hcons Hnil run rest c Hrun Hstop.
  induction run as [|x run IH]; cbn [app backtracks].
  - destruct rest as [|y rest]; [done|]. cbn [stops] in Hstop.
    cbn [length repeat_fuel]. rewrite Hcons.
    apply negb_true_iff in Hstop. by rewrite Hstop.
  - cbn [forallb] in Hrun. apply andb_prop in Hrun as [Hx Hrun].
    cbn [length repeat_fuel]. rewrite Hcons, Hx. cbn [flat_map fst snd].
    replace (length (run ++ rest) <? S (length (run ++ rest)))%nat with true
      by (symmetry; apply Nat.ltb_lt; lia).
    by rewrite app_nil_r, (IH Hrun).
Qed.

Lemma rmatch_Cls_star q run rest c :
  forallb q run = true → stops q rest = true →
  rmatch (Star true (Cls q)) (run ++ rest) c = backtracks run rest c.
Proof. intros. by apply (repeat_fuel_run (rmatch (Cls q)) q). Qed.

Lemma rmatch_dot_star run rest c :
  forallb not_terminator run = true →
  stops not_terminator rest = true →
  rmatch dot_star (run ++ rest) c = backtracks run rest c.
Proof.
  intros.
  apply (repeat_fuel_run (rmatch Dot) not_terminator);
    try done.
  intros x s c'. unfold not_terminator. cbn. by destruct (is_line_terminator x).
Qed.

Lemma rmatch_Cls_plus q x run rest c :
  q x = true → forallb q run = true → stops q rest = true →
  rmatch (Plus true (Cls q)) (x :: run ++ rest) c = backtracks run rest c.
Proof.
  intros Hx Hrun Hstop. unfold Plus.
  change (rmatch (Seq (Cls q) (Star true (Cls q))) (x :: run ++ rest) c)
    with (flat_map (λ m : text * captures, rmatch (Star true (Cls q)) m.1 m.2)
            (if q x then [(run ++ rest, c)] else [])).
  rewrite Hx. cbn [flat_map fst snd]. rewrite app_nil_r.
  by apply rmatch_Cls_star.
Qed.

(** The longest way comes first. *)
Lemma backtracks_head run rest c :
  ∃ tl, backtracks run rest c = (rest, c) :: tl.
Proof.
  induction run as [|x run [tl IH]]; cbn [backtracks]; [by exists []|].
  rewrite IH. by eexists.
Qed.

Lemma backtracks_app a b rest c :
  ∃ tl, backtracks (a ++ b) rest c = backtracks b rest c ++ tl.
Proof.
  induction a as [|x a [tl IH]]; cbn [app backtracks].
  - exists []. by rewrite app_nil_r.
  - rewrite IH. eexists. by rewrite <- (assoc_L (++)).
Qed.

(** ** The first way to match *)

Lemma exec_at_head p pos s rest caps :
  head (rmatch (p_re p) s (replicate (S (p_groups p)) None)) = Some (rest, caps) →
  exec_at p pos s = Some (Hit_ (take (length s - length rest) s) caps pos).
Proof.
  unfold exec_at. destruct (rmatch _ _ _) as [|[r c] tl]; [done|].
  by intros [= -> ->].
Qed.

Lemma head_Seq r1 r2 s c m y :
  head (rmatch r1 s c) = Some m →
  head (rmatch r2 m.1 m.2) = Some y →
  head (rmatch (Seq r1 r2) s c) = Some y.
Proof.
  cbn [rmatch]. destruct (rmatch r1 s c) as [|m' tl]; [done|].
  intros [= ->]. cbn [flat_map].
  destruct (rmatch r2 m.1 m.2); [done|]. by intros [= ->].
Qed.

(** The ways of the first pattern that the second refuses are passed
    over. *)
Lemma head_Seq_skip r1 r2 s c pre m tl y :
  rmatch r1 s c = pre ++ m :: tl →
  Forall (λ x : text * captures, rmatch r2 x.1 x.2 = []) pre →
  head (rmatch r2 m.1 m.2) = Some y →
  head (rmatch (Seq r1 r2) s c) = Some y.
Proof.
  cbn [rmatch]. intros -> Hpre Hm.
  induction Hpre as [|x pre Hx _ IH]; cbn [app flat_map].
  - destruct (rmatch r2 m.1 m.2); [done|]. by injection Hm as ->.
  - by rewrite Hx.
Qed.

Lemma rmatch_Seq_nil r1 r2 s c :
  rmatch r1 s c = [] → rmatch (Seq r1 r2) s c = [].
Proof. cbn [rmatch]. by intros ->. Qed.

Lemma head_Group i r s c m :
  head (rmatch r s c) = Some m →
  head (rmatch (Group i r) s c)
  = Some (m.1, <[i := Some (take (length s - length m.1) s)]> m.2).
Proof.
  cbn [rmatch]. destruct (rmatch r s c) as [|m' tl]; [done|]. by intros [= ->].
Qed.

Lemma head_Lit l : ∀ s c, head (rmatch (Lit l) (l ++ s) c) = Some (s, c).
Proof.
  induction l as [|a l IH]; intros s c; [done|].
  cbn [Lit app]. apply (head_Seq _ _ _ _ (l ++ s, c)); [|apply IH].
  cbn [rmatch]. by rewrite N.eqb_refl.
Qed.

(** ** The pattern of the superclass calls *)

Lemma is_ref_char_not_space x :
  transpile.is_ref_char x = true → is_space x = false.
Proof.
  unfold transpile.is_ref_char, is_word, is_space, LS, PS. intros H.
  apply not_true_iff_false. intros Hs.
  repeat first [ rewrite orb_true_iff in H | rewrite andb_true_iff in H
               | rewrite N.leb_le in H | rewrite N.eqb_eq in H ].
  repeat first [ rewrite orb_true_iff in Hs | rewrite andb_true_iff in Hs
               | rewrite N.leb_le in Hs | rewrite N.eqb_eq in Hs ].
  lia.
Qed.

(** A line break, white space, a reference, [.call(], [this] or [that],
    and the rest of the line: [exec] at the line break reports the
    line, with the white space, the reference and the rest as captures. *)
Lemma parentConstructors_from_statement pos nl ws ref recv rest following :
  is_crlf nl = true →
  forallb is_space ws = true →
  ref ≠ [] → forallb transpile.is_ref_char ref = true →
  recv = str "this" ∨ recv = str "that" →
  forallb not_terminator rest = true →
  stops not_terminator following = true →
  exec_at transpile.parentConstructors_from pos
    (nl :: ws ++ ref ++ str ".call(" ++ recv ++ rest ++ following)
  = Some (Hit_ (nl :: ws ++ ref ++ str ".call(" ++ recv ++ rest)
            [None; Some ws; Some ref; Some rest] pos).
Proof.
  intros Hnl Hws Hne Href Hrecv Hrest Hfol.
  set (Z := str ".call(" ++ recv ++ rest ++ following).
  set (c1 := [None; Some ws; None; None] : captures).
  set (c2 := [None; Some ws; Some ref; None] : captures).
  set (c3 := [None; Some ws; Some ref; Some rest] : captures).
  assert (H : head (rmatch (p_re transpile.parentConstructors_from)
                      (nl :: ws ++ ref ++ Z)
                      (replicate (S (p_groups transpile.parentConstructors_from)) None))
              = Some (following, c3)).
  { unfold transpile.parentConstructors_from. cbn [p_re p_groups Seqs replicate].
    (* the line break *)
    apply (head_Seq _ _ _ _ (ws ++ ref ++ Z, [None; None; None; None])).
    { cbn [rmatch]. by rewrite Hnl. }
    cbn [fst snd].
    (* the white space *)
    apply (head_Seq _ _ _ _ (ref ++ Z, c1)).
    { assert (Hstop : stops is_space (ref ++ Z) = true).
      { destruct ref as [|r0 ref']; [done|]. cbn [forallb] in Href.
        apply andb_prop in Href as [Hr0 _]. cbn [app stops].
        by rewrite (is_ref_char_not_space _ Hr0). }
      destruct (backtracks_head ws (ref ++ Z) [None; None; None; None]) as [tl Hb].
      rewrite (head_Group 1 _ _ _ (ref ++ Z, [None; None; None; None])).
      - cbn [fst snd]. rewrite length_app, Nat.add_sub, take_app_length. done.
      - rewrite rmatch_Cls_star by done. by rewrite Hb. }
    cbn [fst snd].
    (* the reference: the run of reference characters ends with [.call],
       which is given back *)
    destruct ref as [|r0 ref']; [done|]. cbn [forallb] in Href.
    apply andb_prop in Href as [Hr0 Href].
    set (Z' := 40 :: recv ++ rest ++ following).
    assert (HZ : Z = [46; 99; 97; 108; 108] ++ Z') by reflexivity.
    destruct (backtracks_app ref' [46; 99; 97; 108; 108] Z' c1) as [tl Hb].
    assert (Hrun : rmatch (Group 2 (Plus true (Cls transpile.is_ref_char)))
                     ((r0 :: ref') ++ Z) c1
                   = map (λ m : text * captures,
                            (m.1, <[2%nat := Some (take (length ((r0 :: ref') ++ Z)
                                                        - length m.1)
                                                     ((r0 :: ref') ++ Z))]> m.2))
                       (backtracks [46; 99; 97; 108; 108] Z' c1 ++ tl)).
    { change (rmatch (Group 2 ?r) ?s ?c)
        with (map (λ m : text * captures,
                     (m.1, <[2%nat := Some (take (length s - length m.1) s)]> m.2))
                (rmatch r s c)).
      f_equal. cbn [app]. rewrite HZ, (assoc_L (++)).
      rewrite rmatch_Cls_plus; [done|done| |done].
      rewrite forallb_app, Href. done. }
    cbn [backtracks app map fst snd] in Hrun.
    eapply (head_Seq_skip _ _ _ _
              [_; _; _; _; _] (Z, c2)).
    { refine (eq_trans Hrun _). cbn [app].
      do 5 (apply (f_equal2 cons); [reflexivity|]).
      apply (f_equal2 cons); [|reflexivity].
      apply (f_equal2 pair); [by rewrite HZ|].
      change (46 :: 99 :: 97 :: 108 :: 108 :: Z') with Z.
      change (r0 :: ref' ++ Z) with ((r0 :: ref') ++ Z).
      rewrite length_app, Nat.add_sub, take_app_length. done. }
    { repeat constructor. }
    cbn [fst snd].
    apply (head_Seq _ _ _ _ (recv ++ rest ++ following, c2)); [apply head_Lit|].
    cbn [fst snd].
    apply (head_Seq _ _ _ _ (rest ++ following, c2)).
    { cbn [rmatch]. destruct Hrecv as [-> | ->].
      - pose proof (head_Lit (str "this") (rest ++ following) c2) as HL.
        destruct (rmatch (Lit (str "this")) (str "this" ++ rest ++ following) c2)
          as [|y l]; [done|]. exact HL.
      - replace (rmatch (Lit (str "this")) (str "that" ++ rest ++ following) c2)
          with (@nil (text * captures)) by reflexivity.
        apply head_Lit. }
    cbn [fst snd].
    apply (head_Seq _ _ _ _ (following, c3)); [|done].
    destruct (backtracks_head rest following c2) as [tl3 Hb3].
    rewrite (head_Group 3 _ _ _ (following, c2)).
    - cbn [fst snd]. rewrite length_app, Nat.add_sub, take_app_length. done.
    - rewrite rmatch_dot_star by done. by rewrite Hb3. }
  rewrite (exec_at_head _ _ _ _ _ H). f_equal. f_equal.
  subst Z. rewrite !app_comm_cons, !(assoc_L (++)).
  rewrite length_app, Nat.add_sub. by rewrite take_app_length.
Qed.

(** ** The pattern of the dependency stage *)

Lemma rmatch_Lit l : ∀ s c y,
  In y (rmatch (Lit l) s c) → s = l ++ y.1 ∧ y.2 = c.
Proof.
  induction l as [|a l IH]; intros s c y; cbn [Lit rmatch].
  - by intros [<-|[]].
  - intros Hin. apply in_flat_map in Hin as (m & H1 & H2).
    destruct s as [|x s]; [done|]. destruct (x =? a) eqn:E; [|done].
    apply N.eqb_eq in E as ->. destruct H1 as [<-|[]]. cbn [fst snd] in H2.
    destruct (IH _ _ _ H2) as [-> ->]. done.
Qed.

(** [.*] can stop after every prefix that holds no line terminator. *)
Lemma repeat_Dot_prefix pre : ∀ n post c,
  (length (pre ++ post) ≤ n)%nat →
  forallb not_terminator pre = true →
  In (post, c) (repeat_fuel (rmatch Dot) true n (pre ++ post) c).
Proof.
  induction pre as [|x pre IH]; intros n post c Hn Hpre.
  - destruct n; cbn [app repeat_fuel]; [by left|].
    apply in_app_iff. right. by left.
  - destruct n as [|n]; [cbn in Hn; lia|].
    cbn [forallb] in Hpre. apply andb_prop in Hpre as [Hx Hpre].
    apply negb_true_iff in Hx.
    cbn [app repeat_fuel rmatch]. rewrite Hx. cbn [flat_map fst snd].
    apply in_app_iff. left. rewrite app_nil_r.
    replace (length (pre ++ post) <? length (x :: pre ++ post))%nat with true
      by (symmetry; apply Nat.ltb_lt; cbn [length]; lia).
    apply IH; [cbn [app length] in Hn; lia|done].
Qed.

Lemma dot_star_prefix pre post c :
  forallb not_terminator pre = true →
  In (post, c) (rmatch dot_star (pre ++ post) c).
Proof. intros H. by apply repeat_Dot_prefix. Qed.

Lemma line_rest_elem a : ∀ s,
  In a (line_rest s) →
  ∃ pre post, s = pre ++ a :: post
              ∧ forallb not_terminator pre = true.
Proof.
  induction s as [|x s IH]; cbn [line_rest]; [done|].
  destruct (is_line_terminator x) eqn:E; [done|].
  intros [->|Hin].
  - by exists [], s.
  - destruct (IH Hin) as (pre & post & -> & Hpre).
    exists (x :: pre), post. cbn [forallb]. unfold not_terminator at 1.
    by rewrite E, Hpre.
Qed.

(** The look-ahead of the dependency pattern succeeds only when no [=]
    is left on the line. *)
Lemma lookahead_no_equals s c :
  rmatch transpile.equals_ahead s c = [] → ¬ In 61 (line_rest s).
Proof.
  intros E Hin. apply line_rest_elem in Hin as (pre & post & -> & Hpre).
  assert (H : In (post, c) (rmatch transpile.equals_ahead (pre ++ 61 :: post) c));
    [|by rewrite E in H].
  unfold transpile.equals_ahead. cbn [Seqs rmatch].
  apply in_flat_map. exists (61 :: post, c).
  split; [by apply dot_star_prefix|].
  cbn [fst snd]. apply in_flat_map. exists (post, c).
  split; [cbn; by left|]. cbn [fst snd].
  apply in_flat_map. exists (post, c). split; [|by left].
  apply (dot_star_prefix [] post c eq_refl).
Qed.

(** A match of the dependency pattern: [ROS3D.], the captured name, and
    after it a line without [=]. *)
Lemma internalDependencies_from_match s h :
  In h (matches transpile.internalDependencies_from s) →
  ∃ pre post,
    s = pre ++ str "ROS3D." ++ cap h 1 ++ post
    ∧ m_str h = str "ROS3D." ++ cap h 1
    ∧ length pre = m_index h
    ∧ ¬ In 61 (line_rest post).
Proof.
  intros Hin. apply hits_pieces in Hin as (k & Hk & E).
  apply exec_at_Some in E as (rest & caps & tl & E & Hs & Hc & Hi).
  assert (Hin : In (rest, caps)
                  (rmatch (p_re transpile.internalDependencies_from) (drop k s)
                     (replicate (S (p_groups transpile.internalDependencies_from)) None)))
    by (rewrite E; by left).
  clear E. unfold transpile.internalDependencies_from in Hin.
  cbn [p_re p_groups Seqs] in Hin. cbn [rmatch] in Hin.
  apply in_flat_map in Hin as ([s1 c1] & H1 & Hin).
  apply rmatch_Lit in H1 as [Hs1 Hc1]. cbn [fst snd] in *. subst c1.
  apply in_flat_map in Hin as ([s2 c2] & H2 & Hin).
  apply in_map_iff in H2 as ([s2' c2'] & [= <- <-] & H2). cbn [fst snd] in *.
  destruct (rmatch_suffix _ _ _ _ H2) as [name Hname].
  destruct (rmatch_captures _ _ _ _ H2) as [Hlen _]. cbn [fst snd] in *.
  apply in_flat_map in Hin as ([s3 c3] & H3 & Hin). cbn [fst snd] in *.
  destruct Hin as [[= <- <-]|[]].
  destruct (rmatch transpile.equals_ahead s2' _) eqn:Ela; [|done].
  destruct H3 as [[= <- <-]|[]].
  assert (Hcap : cap h 1 = name).
  { unfold cap, group. rewrite Hc.
    rewrite list_lookup_insert_eq by (rewrite Hlen; cbn; lia).
    cbn. rewrite Hname, length_app, Nat.add_sub. by rewrite take_app_length. }
  exists (take k s), s2'. rewrite Hcap. split_and!.
  - rewrite <- Hname, <- Hs1. by rewrite take_drop.
  - rewrite Hs1, Hname in Hs. rewrite (assoc_L (++)) in Hs.
    by apply app_inv_tail in Hs.
  - rewrite length_take. lia.
  - eapply lookahead_no_equals. apply Ela.
Qed.

(** What [dependencies.track] adds for a file is the dependency it was
    given. *)
Lemma dependencies_track_adds file d w u w' :
  dependencies.track file d w = Ok (u, w') →
  ∀ name, In name (deps_of (internal w') file) →
          In name (deps_of (internal w) file) ∨ name = d.
Proof.
  unfold dependencies.track, bind, gets, when, modify, throw, ret, deps_of.
  cbn. destruct (internal w !! file) as [l|] eqn:E.
  - case_bool_decide; intros [= <- <-]; cbn; [rewrite E; auto|].
    rewrite lookup_insert_eq. cbn. intros name Hin.
    apply in_app_iff in Hin as [Hin|[<-|[]]]; auto.
  - destruct (inherited file); [done|]. intros [= <- <-]. cbn.
    rewrite lookup_insert_eq. cbn. intros name [<-|[]]. auto.
Qed.

Lemma internalDependencies_records filepath ps : ∀ w out w',
  splice (transpile.internalDependencies filepath) ps w = Ok (out, w') →
  ∀ name, In name (deps_of (internal w') filepath) →
          In name (deps_of (internal w) filepath)
          ∨ ∃ h, In h (hits ps) ∧ cap h 1 = name.
Proof.
  induction ps as [|[c|h] ps IH]; intros w out w'; cbn [splice hits].
  - intros [= <- <-]. auto.
  - unfold bind at 1.
    destruct (splice _ ps w) as [[o w1]|] eqn:E; [|done].
    intros [= <- <-]. apply (IH _ _ _ E).
  - unfold bind at 1. unfold transpile.internalDependencies at 1.
    unfold bind at 1.
    destruct (dependencies.track filepath (cap h 1) w) as [[u w1]|] eqn:Et; [|done].
    cbn [ret]. unfold bind at 1.
    destruct (splice _ ps w1) as [[o w2]|] eqn:E; [|done].
    intros [= <- <-] name Hin.
    destruct (IH _ _ _ E name Hin) as [Hin1|(h' & Hh & Hc)].
    + destruct (dependencies_track_adds _ _ _ _ _ Et name Hin1) as [Ho| ->]; [auto|].
      right. exists h. split; [by left|done].
    + right. exists h'. split; [by right|done].
Qed.

(** ** The argument text of a superclass call *)

Lemma exec_at_sep c s :
  exec_at transpile.comma_or_paren 0 (c :: s)
  = if is_sep c then Some (Hit_ [c] [None] 0) else None.
Proof.
  unfold exec_at, is_sep. cbn [transpile.comma_or_paren p_re p_groups rmatch].
  assert (E : (length (c :: s) - length s = 1)%nat) by (cbn [length]; lia).
  destruct (c =? 44); cbn [app orb]; [by rewrite E|].
  destruct (c =? 41); cbn [app orb]; [by rewrite E|done].
Qed.

Lemma split_from_step c s acc :
  split_from transpile.comma_or_paren 0 acc (c :: s)
  = if is_sep c then acc :: split_from transpile.comma_or_paren 0 [] s
    else split_from transpile.comma_or_paren 0 (acc ++ [c]) s.
Proof. cbn [split_from]. rewrite exec_at_sep. by destruct (is_sep c). Qed.

Lemma split_from_nonempty s : ∀ acc,
  split_from transpile.comma_or_paren 0 acc s ≠ [].
Proof.
  induction s as [|c s IH]; intros acc; [done|].
  rewrite split_from_step. destruct (is_sep c); [done|apply IH].
Qed.

(** Cutting at a separator cuts the parts before and after apart. *)
Lemma split_from_app a : ∀ acc c b,
  is_sep c = true →
  split_from transpile.comma_or_paren 0 acc (a ++ c :: b)
  = split_from transpile.comma_or_paren 0 acc a
    ++ split_from transpile.comma_or_paren 0 [] b.
Proof.
  induction a as [|x a IH]; intros acc c b Hc.
  - cbn [app]. rewrite split_from_step, Hc. done.
  - cbn [app]. rewrite !split_from_step.
    destruct (is_sep x); [cbn [app]; f_equal|]; by apply IH.
Qed.

Lemma split_from_no_sep s : ∀ acc,
  existsb is_sep s = false →
  split_from transpile.comma_or_paren 0 acc s = [acc ++ s].
Proof.
  induction s as [|c s IH]; intros acc H; [by rewrite app_nil_r|].
  cbn [existsb] in H. apply orb_false_elim in H as [Hc Hs].
  rewrite split_from_step, Hc, (IH _ Hs). by rewrite <- (assoc_L (++)).
Qed.

Lemma join_cons sep x l : l ≠ [] → join sep (x :: l) = x ++ sep ++ join sep l.
Proof. by destruct l. Qed.

(** Joining with commas what was cut at commas gives the text back. *)
Lemma join_split_from s : ∀ acc,
  existsb (N.eqb 41) s = false →
  join (str ",") (split_from transpile.comma_or_paren 0 acc s) = acc ++ s.
Proof.
  induction s as [|c s IH]; intros acc H; [by rewrite app_nil_r|].
  cbn [existsb] in H. apply orb_false_elim in H as [Hc Hs].
  rewrite split_from_step. unfold is_sep. rewrite N.eqb_sym in Hc. rewrite Hc.
  rewrite orb_false_r. destruct (c =? 44) eqn:E.
  - apply N.eqb_eq in E as ->.
    rewrite join_cons by apply split_from_nonempty.
    by rewrite (IH [] Hs).
  - rewrite (IH _ Hs). by rewrite <- (assoc_L (++)).
Qed.

Lemma slice_inner {A} (x y : A) (l : list A) : slice 1 1 (x :: l ++ [y]) = l.
Proof.
  unfold slice. change (drop 1 (x :: l ++ [y])) with (l ++ [y]).
  assert (E : (length (x :: l ++ [y]) - 1 - 1 = length l)%nat).
  { cbn [length]. rewrite length_app. cbn [length]. lia. }
  rewrite E. apply take_app_length.
Qed.

Lemma super_args_spec rest args :
  call_args rest args → transpile.super_args rest = args.
Proof.
  intros [p0 tail H0 Ht|p0 mid tail H0 Hm Ht]; unfold transpile.super_args, split.
  - destruct (p0 ++ 41 :: tail) as [|x r] eqn:E; [by destruct p0|].
    rewrite <- E. rewrite split_from_app by done.
    rewrite (split_from_no_sep p0), (split_from_no_sep tail) by done. done.
  - destruct (p0 ++ 44 :: mid ++ 41 :: tail) as [|x r] eqn:E; [by destruct p0|].
    rewrite <- E. rewrite split_from_app by done.
    rewrite split_from_app by done.
    rewrite (split_from_no_sep p0), (split_from_no_sep tail) by done. cbn [app].
    rewrite slice_inner. by rewrite join_split_from.
Qed.

(** A stage that finds nothing in a given text. *)
Ltac skip_stage p t :=
  rewrite (bind_Ok _ _ _ _ _
             (replace_no_hits p _ t _
                (ltac:(vm_compute; reflexivity) : matches p t = []))).

Section Properties.
Variable path_basename : text → text → text.
Variable inherited_text : text → text.

Local Abbreviation getFileClass := (transpile.getFileClass path_basename).
Local Abbreviation constructors := (transpile.constructors path_basename).
Local Abbreviation parentConstructors := (transpile.parentConstructors path_basename).
Local Abbreviation classes := (transpile.classes path_basename inherited_text).
Local Abbreviation transpileToEs6 := (transpile.transpileToEs6 path_basename inherited_text).

(** The calls the class assembler makes on a text, from its fresh
    state. *)
Local Abbreviation sweep filepath s w :=
  (calls (classes filepath) (pieces transpile.classes_from s)
     (w, transpile.mkState false false)).

(** ** Constructor tagging *)

Lemma constructors_call filepath h w :
  constructors filepath h w
  = Ok (constructor_head (index w) h,
        add_console (class_mismatch (getFileClass filepath) filepath (index w) h) w).
Proof.
  unfold transpile.constructors, constructor_head, class_mismatch,
    transpile.isFileClass, bind, gets, when. cbn.
  destruct (inheritance.isClass (index w) (cap h 1)) eqn:E1;
    destruct (bool_decide (getFileClass filepath = cap h 1)) eqn:E2; cbn;
    rewrite ?E1; cbn; rewrite ?add_console_nil; unfold ret, add_console; cbn;
    by rewrite <- ?app_assoc.
Qed.

(** C8.  The constructor stage never throws and never touches the two
    tables; the text it builds is [constructor_head] of the index on
    every match, in which the file path does not occur: a match is
    rewritten to the constructor marker exactly when [isClass] holds of
    its name.  The file path only decides what is printed: for every
    match on which [isClass] and the file-name signal differ, the
    banner and the details (file path, name, both booleans), and
    nothing else. *)
Theorem constructors_decided_by_index (filepath s : text) (w : World) :
  replace transpile.constructors_from (constructors filepath) s w
  = Ok (splice_with (constructor_head (index w))
          (pieces transpile.constructors_from s),
        add_console
          (flat_map (class_mismatch (getFileClass filepath) filepath (index w))
             (matches transpile.constructors_from s)) w).
Proof.
  unfold replace, matches.
  apply (splice_printing _ _ _ (index w) (internal w)); [|done..].
  intros h w' <- _. apply constructors_call.
Qed.

(** ** The class assembler *)

Lemma classes_call filepath h w st :
  ∃ out st',
    classes filepath h (w, st) = Ok (out, (w, st'))
    ∧ (transpile.isStart st h = true → st' = transpile.mkState true true)
    ∧ (transpile.isStart st h = false →
       transpile.matchedFirstComment st' = transpile.matchedFirstComment st
       ∧ (transpile.isInClass st = false → st' = st ∧ out = m_str h)
       ∧ (transpile.isInClass st = true → transpile.isFinish h = false →
          st' = st ∧ out = indent ++ m_str h)).
Proof.
  unfold transpile.classes, bind, gets, modify, ret. cbn.
  destruct (transpile.isStart st h) eqn:Es.
  - destruct (truthy _); eexists _, _; (split; [reflexivity|]); by split.
  - destruct (transpile.isInClass st) eqn:Ei.
    + destruct (transpile.isFinish h) eqn:Ef; cbn;
        eexists _, _; (split; [reflexivity|]); (split; [done|]); intros _;
        cbn; (split; [done|]); (split; [done|]); [done|].
      by destruct st as [i m]; cbn in *; subst.
    + eexists _, _; (split; [reflexivity|]). split; [done|]. by intros _.
Qed.

Lemma calls_sound {S} (cb : hit → M S text) ps : ∀ s c,
  In c (calls cb ps s) →
  In c.1.2 (hits ps) ∧ ∃ s' s'', c.1.1 = s' ∧ cb c.1.2 s' = Ok (c.2, s'').
Proof.
  induction ps as [|[x|h] ps IH]; intros s c; cbn; [done|..].
  - apply IH.
  - destruct (cb h s) as [[r s1]|] eqn:E; [|done].
    intros [<-|Hin]; cbn.
    + split; [by left|]. by exists s, s1.
    + destruct (IH _ _ Hin) as [H1 H2]. split; [by right|done].
Qed.

Lemma classes_calls_after_open filepath ps : ∀ w st,
  transpile.matchedFirstComment st = true →
  Forall (λ c, opened c = false
               ∧ transpile.matchedFirstComment c.1.1.2 = true)
    (calls (classes filepath) ps (w, st)).
Proof.
  induction ps as [|[x|h] ps IH]; intros w st Hm; cbn [calls]; [done|by apply IH|].
  destruct (classes_call filepath h w st) as (out & st' & -> & _ & H2).
  assert (Hs : transpile.isStart st h = false).
  { unfold transpile.isStart. rewrite Hm. apply andb_false_r. }
  constructor; [done|]. apply IH.
  destruct (H2 Hs) as [-> _]. done.
Qed.

Lemma classes_calls_inv filepath ps : ∀ w st,
  (transpile.isInClass st = true → transpile.matchedFirstComment st = true) →
  Forall (λ c, transpile.isInClass c.1.1.2 = true →
               transpile.matchedFirstComment c.1.1.2 = true)
    (calls (classes filepath) ps (w, st)).
Proof.
  induction ps as [|[x|h] ps IH]; intros w st Hinv; cbn [calls]; [done|by apply IH|].
  destruct (classes_call filepath h w st) as (out & st' & -> & H1 & H2).
  constructor; [done|]. apply IH.
  destruct (transpile.isStart st h) eqn:Es.
  - by rewrite (H1 eq_refl).
  - destruct (H2 eq_refl) as (Hm & Hout & Hin).
    destruct (transpile.isInClass st) eqn:Ei.
    + intros _. rewrite Hm. by apply Hinv.
    + destruct (Hout eq_refl) as [-> _]. by rewrite Ei.
Qed.

(** A match of the first alternative of the pattern has no second
    group. *)
Lemma classes_from_groups s h :
  In h (hits (pieces transpile.classes_from s)) →
  defined (group h 1) = true → group h 2 = None.
Proof.
  intros Hin Hd. apply hits_pieces in Hin as (k & _ & E).
  apply exec_at_Some in E as (rest & caps & tl & E & _ & Hc & _).
  assert (Hin : In (rest, caps)
                  (rmatch (p_re transpile.classes_from) (drop k s)
                     (replicate (S (p_groups transpile.classes_from)) None)))
    by (rewrite E; by left).
  unfold transpile.classes_from in Hin. cbn [p_re p_groups rmatch] in Hin.
  unfold group in *. rewrite Hc in *.
  apply in_app_iff in Hin as [Hin|Hin].
  - apply in_map_iff in Hin as ([r c] & [= <- <-] & Hin).
    apply rmatch_captures in Hin as [L Hin].
    rewrite list_lookup_insert_ne by done.
    rewrite Hin; [reflexivity|].
    replace (groups_of transpile.classes_open) with (@nil nat) by reflexivity.
    apply not_elem_of_nil.
  - assert (Hg : caps !! 1%nat = Some None); [|by rewrite Hg in Hd].
    apply in_app_iff in Hin as [Hin|Hin];
      apply rmatch_captures in Hin as [_ Hin]; rewrite Hin; try reflexivity.
    + replace (groups_of transpile.classes_close) with [2%nat] by reflexivity.
      intros [Hne|Hnil]%elem_of_cons; [discriminate|by apply elem_of_nil in Hnil].
    + apply not_elem_of_nil.
Qed.

Lemma classes_calls_all filepath ps : ∀ w st,
  map (λ c, c.1.2) (calls (classes filepath) ps (w, st)) = hits ps.
Proof.
  induction ps as [|[x|h] ps IH]; intros w st; cbn [calls hits]; [done|done|].
  destruct (classes_call filepath h w st) as (out & st' & -> & _).
  cbn. by rewrite IH.
Qed.

Lemma classes_calls_open_count filepath ps : ∀ w st,
  (length (List.filter opened (calls (classes filepath) ps (w, st))) ≤ 1)%nat.
Proof.
  induction ps as [|[x|h] ps IH]; intros w st; cbn [calls]; [cbn; lia|done|].
  destruct (classes_call filepath h w st) as (out & st' & -> & H1 & _).
  cbn [List.filter]. unfold opened at 1. cbn [fst snd].
  destruct (transpile.isStart st h) eqn:Es; [|apply IH].
  rewrite (H1 eq_refl).
  pose proof (classes_calls_after_open filepath ps w
                (transpile.mkState true true) eq_refl) as Hno.
  induction Hno as [|c l [Hc _] _ IHl]; cbn; [lia|].
  by rewrite Hc.
Qed.

(** The sweep as a function of the pieces, once the header is known. *)
Lemma classes_step filepath h w st :
  classes filepath h (w, st)
  = Ok (sweep_out
          (class_header (getFileClass filepath)
             (let parent := inheritance.getParent (index w) (getFileClass filepath) in
              if truthy parent
              then Some (transpile.to_text inherited_text parent) else None))
          st h,
        (w, sweep_next st h)).
Proof.
  unfold transpile.classes, bind, gets, modify, ret, sweep_out, sweep_next.
  cbn [fst snd].
  destruct (transpile.isStart st h).
  - destruct (truthy _); cbn [class_header]; by rewrite <- ?(assoc_L (++)).
  - destruct (transpile.isInClass st); [|done].
    by destruct (transpile.isFinish h).
Qed.

Lemma classes_assemble filepath ps : ∀ w st,
  ∃ st',
    splice (classes filepath) ps (w, st)
    = Ok (assemble
            (class_header (getFileClass filepath)
               (let parent := inheritance.getParent (index w) (getFileClass filepath) in
                if truthy parent
                then Some (transpile.to_text inherited_text parent) else None))
            st ps, (w, st')).
Proof.
  induction ps as [|[c|h] ps IH]; intros w st; cbn [splice assemble].
  - by exists st.
  - destruct (IH w st) as [st' E]. exists st'. unfold bind. by rewrite E.
  - destruct (IH w (sweep_next st h)) as [st' E]. exists st'.
    unfold bind. by rewrite classes_step, E.
Qed.

(** While the open condition does not fire, the assembler passes the
    text through. *)
Lemma classes_no_open filepath ps : ∀ w,
  (∀ h, In h (hits ps) → defined (group h 1) = false) →
  splice (classes filepath) ps (w, transpile.mkState false false)
  = Ok (splice_with m_str ps, (w, transpile.mkState false false)).
Proof.
  induction ps as [|[c|h] ps IH]; intros w H; cbn [splice splice_with hits];
    [done|..].
  - unfold bind. rewrite IH; [done|]. intros h Hh. apply H, Hh.
  - destruct (classes_call filepath h w (transpile.mkState false false))
      as (out & st' & E & _ & H2).
    assert (Hs : transpile.isStart (transpile.mkState false false) h = false).
    { unfold transpile.isStart. rewrite (H h) by (by left). done. }
    destruct (H2 Hs) as (_ & H3 & _). destruct (H3 eq_refl) as [-> ->].
    unfold bind. rewrite E. rewrite IH; [done|].
    intros h' Hh. apply H. by right.
Qed.

(** ** Superclass calls *)

Lemma parentConstructors_call filepath h w :
  (inheritance.getParent (index w) (getFileClass filepath) = JStr (cap h 2) →
   parentConstructors filepath h w
   = Ok (LF :: cap h 1 ++ str "super(" ++ transpile.super_args (cap h 3) ++ str ");",
         w))
  ∧ (inheritance.getParent (index w) (getFileClass filepath) ≠ JStr (cap h 2) →
     parentConstructors filepath h w
     = Ok ([], add_console [RemovingExtraParentConstructorCall (m_str h)] w)).
Proof.
  unfold transpile.parentConstructors, bind, gets. cbn.
  split; intros Hp.
  - rewrite Hp. cbn. by rewrite bool_decide_eq_true_2.
  - destruct (inheritance.getParent _ _) as [| |p|k]; cbn; try done.
    rewrite bool_decide_eq_false_2; [done|]. by intros <-.
Qed.

(** C10, as amended.  When the index gives the unit's class no parent
    name (no entry, or [null]), the superclass-call stage replaces every
    match of its pattern by the empty text, whatever reference the match
    holds, and prints one notice per match, carrying the matched text; the
    tables stay as they are.  The matches are the calls that follow a line
    break: a line break, white space, a reference, [.call(], [this] or
    [that] and the rest of the line is what [exec] reports at the line
    break, and the callback deletes it. *)
Theorem parentConstructors_without_parent (filepath s : text) (w : World) :
  is_string (inheritance.getParent (index w) (getFileClass filepath)) = false →
  replace transpile.parentConstructors_from (parentConstructors filepath) s w
  = Ok (splice_with (fun _ => []) (pieces transpile.parentConstructors_from s),
        add_console
          (flat_map (fun h => [RemovingExtraParentConstructorCall (m_str h)])
             (matches transpile.parentConstructors_from s)) w)
  ∧ ∀ pos nl ws ref recv rest following,
      is_crlf nl = true → forallb is_space ws = true →
      ref ≠ [] → forallb transpile.is_ref_char ref = true →
      recv = str "this" ∨ recv = str "that" →
      forallb not_terminator rest = true →
      stops not_terminator following = true →
      ∃ h, exec_at transpile.parentConstructors_from pos
             (call_line nl ws ref recv rest ++ following) = Some h
           ∧ m_str h = call_line nl ws ref recv rest
           ∧ parentConstructors filepath h w
             = Ok ([], add_console
                         [RemovingExtraParentConstructorCall
                            (call_line nl ws ref recv rest)] w).
Proof.
  intros Hp. split.
  - unfold replace, matches.
    apply (splice_printing _ _ _ (index w) (internal w)); [|done..].
    intros h w' Hi _.
    unfold transpile.parentConstructors, bind, gets. cbn. rewrite Hi.
    destruct (inheritance.getParent (index w) (getFileClass filepath)); try done.
  - intros pos nl ws ref recv rest following Hnl Hws Hne Href Hrecv Hrest Hfol.
    set (h := Hit_ (call_line nl ws ref recv rest)
                [None; Some ws; Some ref; Some rest] pos).
    exists h. split.
    { unfold call_line. cbn [app]. rewrite <- !(assoc_L (++)).
      by apply parentConstructors_from_statement. }
    split; [reflexivity|].
    apply (proj2 (parentConstructors_call filepath h w)).
    intros E. by rewrite E in Hp.
Qed.

(** C2, as amended.  A superclass call that follows a line break: white
    space, a reference, [.call(], [this] or [that], and a rest of the line
    that is a closing parenthesis and a tail, or a comma, arguments free
    of closing parentheses, the closing parenthesis and a tail, the tail
    without comma and parenthesis.  [exec] at the line break reports
    that line.  When the reference is the parent the index records for
    the unit's class, the callback returns a line feed, the white space,
    and [super(] the trimmed arguments [);]; when it is not, it returns
    the empty text and prints the notice with the line.  The tables are
    unchanged. *)
Theorem parentConstructors_statement_rewritten
  (filepath : text) (w : World) (pos : nat) (nl : N)
  (ws ref recv rest following args : text) :
  is_crlf nl = true → forallb is_space ws = true →
  ref ≠ [] → forallb transpile.is_ref_char ref = true →
  recv = str "this" ∨ recv = str "that" →
  forallb not_terminator rest = true →
  stops not_terminator following = true →
  call_args rest args →
  ∃ h, exec_at transpile.parentConstructors_from pos
         (call_line nl ws ref recv rest ++ following) = Some h
       ∧ m_str h = call_line nl ws ref recv rest
       ∧ (inheritance.getParent (index w) (getFileClass filepath) = JStr ref →
          parentConstructors filepath h w
          = Ok (LF :: ws ++ str "super(" ++ args ++ str ");", w))
       ∧ (inheritance.getParent (index w) (getFileClass filepath) ≠ JStr ref →
          parentConstructors filepath h w
          = Ok ([], add_console
                      [RemovingExtraParentConstructorCall
                         (call_line nl ws ref recv rest)] w)).
Proof.
  intros Hnl Hws Hne Href Hrecv Hrest Hfol Hargs.
  set (h := Hit_ (call_line nl ws ref recv rest)
              [None; Some ws; Some ref; Some rest] pos).
  exists h. split.
  { unfold call_line. cbn [app]. rewrite <- !(assoc_L (++)).
    by apply parentConstructors_from_statement. }
  split; [reflexivity|].
  split; intros Hp.
  - rewrite (proj1 (parentConstructors_call filepath h w)) by done.
    change (transpile.super_args (cap h 3)) with (transpile.super_args rest).
    by rewrite (super_args_spec _ _ Hargs).
  - by apply (proj2 (parentConstructors_call filepath h w)).
Qed.

(** ** Dependency extraction *)

(** C3, as amended.  When the dependency stage has run over a text without
    throwing, every dependency it recorded for the file is the name of
    an occurrence of [ROS3D.] and the name in the text, after which no
    [=] comes before the end of the line. *)
Theorem internalDependencies_not_assigned_on_line
  (filepath s out name : text) (w w' : World) :
  replace transpile.internalDependencies_from
    (transpile.internalDependencies filepath) s w = Ok (out, w') →
  In name (deps_of (internal w') filepath) →
  ¬ In name (deps_of (internal w) filepath) →
  ∃ pre post,
    s = pre ++ str "ROS3D." ++ name ++ post ∧ ¬ In 61 (line_rest post).
Proof.
  intros Hrun Hin Hnew.
  destruct (internalDependencies_records _ _ _ _ _ Hrun name Hin)
    as [Hold|(h & Hh & <-)]; [done|].
  destruct (internalDependencies_from_match s h Hh) as (pre & post & E & _ & _ & Hno).
  by exists pre, post.
Qed.

(** ** The pipeline *)

(** Every index the pipeline builds records names only. *)
Lemma transpileToEs6_index_wf s filepath w out w' :
  index_wf (index w) →
  transpileToEs6 s filepath w = Ok (out, w') →
  index_wf (index w').
Proof.
  intros Hwf. unfold transpile.transpileToEs6.
  intros (u0 & w0 & [= <- <-] & H)%bind_inv.
  apply bind_inv in H as (t1 & w1 & E1 & H).
  apply bind_inv in H as (t2 & w2 & E2 & H).
  apply bind_inv in H as (t3 & w3 & E3 & H).
  apply bind_inv in H as (t4 & w4 & E4 & H).
  apply bind_inv in H as (t5 & w5 & E5 & H).
  apply bind_inv in H as (t6 & w6 & E6 & H).
  unfold with_state in H.
  destruct (replace transpile.classes_from _ _ _) as [[t7 [w7 st7]]|] eqn:E7; [|done].
  injection H as <- <-.
  apply (splice_invariant (λ s, index_wf (index s.1))) in E7.
  - done.
  - intros h [w8 st8] r [w9 st9] H8 E. rewrite classes_step in E.
    injection E as _ <- _. exact H8.
  - cbn [fst].
    apply (splice_invariant (λ s, index_wf (index s))) in E6; [done|..].
    { intros h w8 r w9 H8 E. unfold transpile.parentConstructors in E.
      apply bind_inv in E as (pa & w10 & [= <- <-] & E).
      destruct (str_strict_eq _ _); cbn in E; by injection E as <- <-. }
    apply (splice_invariant (λ s, index_wf (index s))) in E5.
    { done. }
    { intros h w8 r w9 H8 E. rewrite constructors_call in E.
      by injection E as <- <-. }
    apply (splice_invariant (λ s, index_wf (index s))) in E4.
    { done. }
    { intros h w8 r w9 H8 E. unfold transpile.methods in E.
      case_bool_decide; [by injection E as <- <-|].
      apply bind_inv in E as (u & w10 & E & [= <- <-]).
      by eapply track_index_wf. }
    apply (splice_invariant (λ s, index_wf (index s))) in E3.
    { done. }
    { intros h w8 r w9 H8 E.
      apply bind_inv in E as (u & w10 & E & [= <- <-]).
      by eapply track_index_wf. }
    apply (splice_invariant (λ s, index_wf (index s))) in E2.
    { done. }
    { intros h w8 r w9 H8 E.
      apply bind_inv in E as (u & w10 & E & [= <- <-]).
      by eapply track_index_wf. }
    apply (splice_invariant (λ s, index_wf (index s))) in E1.
    { done. }
    { intros h w8 r w9 H8 E.
      apply bind_inv in E as (u & w10 & E & [= <- <-]).
      unfold dependencies.track in E.
      apply bind_inv in E as (u1 & w11 & [= <- <-] & E).
      apply bind_inv in E as (d & w12 & [= <- <-] & E).
      destruct (internal w8 !! filepath).
      - case_bool_decide; by injection E as _ <-.
      - destruct (inherited filepath); [done|]. by injection E as _ <-. }
    done.
Qed.

Lemma transpileToEs6_pattern_free s filepath w :
  pattern_free s = true →
  transpileToEs6 s filepath w = Ok (s, add_console [Processing filepath] w).
Proof.
  unfold pattern_free. intros H.
  destruct (hits (scan_first _ _ _)) eqn:E1; [|done].
  destruct (matches transpile.internalDependencies_from s) eqn:E2; [|done].
  destruct (matches transpile.buildInheritanceIndexViaProto_from s) eqn:E3; [|done].
  destruct (matches transpile.buildInheritanceIndexViaObjectAssign_from s) eqn:E4;
    [|done].
  destruct (matches transpile.methods_from s) eqn:E5; [|done].
  destruct (matches transpile.constructors_from s) eqn:E6; [|done].
  destruct (matches transpile.parentConstructors_from s) eqn:E7; [|done].
  unfold transpile.transpileToEs6.
  rewrite (bind_Ok _ _ _ _ _ (log_add _ _)).
  assert (E0 : (if bool_decide (filepath = str "src/Ros3D.js")
                then splice_str transpile.initialROS3DAssignment_to
                       (scan_first transpile.initialROS3DAssignment_from 0 s)
                else s) = s).
  { case_bool_decide; [|done]. unfold splice_str.
    rewrite (splice_with_no_hits _ _ E1). apply splice_with_scan_first. }
  rewrite E0.
  rewrite (bind_Ok _ _ _ _ _ (replace_no_hits _ _ _ _ E2)).
  rewrite (bind_Ok _ _ _ _ _ (replace_no_hits _ _ _ _ E3)).
  rewrite (bind_Ok _ _ _ _ _ (replace_no_hits _ _ _ _ E4)).
  rewrite (bind_Ok _ _ _ _ _ (replace_no_hits _ _ _ _ E5)).
  rewrite (bind_Ok _ _ _ _ _ (replace_no_hits _ _ _ _ E6)).
  rewrite (bind_Ok _ _ _ _ _ (replace_no_hits _ _ _ _ E7)).
  unfold with_state, replace. rewrite classes_no_open.
  - by rewrite splice_with_pieces.
  - intros h Hh. rewrite forallb_forall in H.
    apply negb_true_iff. apply H, Hh.
Qed.

(** C5, as amended.  Scenario B: the unit that holds only the assignment
    of a function to [ROS3D.util], for a [util] the index does not know
    as a class, comes out of the pipeline as it went in: the function
    stays assigned to [ROS3D.util], the constructor stage leaves the head
    in place, no class header is added, and the tables are unchanged, so
    that [isClass] is still false of [util]. *)
Theorem scenario_B_plain_function (filepath : text) (w : World) :
  inheritance.isClass (index w) (str "util") = false →
  ∃ w',
    transpileToEs6 (str "ROS3D.util = function(x) { return x; };") filepath w
    = Ok (str "ROS3D.util = function(x) { return x; };", w')
    ∧ index w' = index w ∧ internal w' = internal w
    ∧ inheritance.isClass (index w') (str "util") = false.
Proof.
  intros Hu. eexists.
  set (content := str "ROS3D.util = function(x) { return x; };").
  unfold transpile.transpileToEs6.
  rewrite (bind_Ok _ _ _ _ _ (log_add _ _)).
  assert (E0 : (if bool_decide (filepath = str "src/Ros3D.js")
                then splice_str transpile.initialROS3DAssignment_to
                       (scan_first transpile.initialROS3DAssignment_from 0 content)
                else content) = content).
  { case_bool_decide; [|done]. by vm_compute. }
  rewrite E0.
  skip_stage transpile.internalDependencies_from content.
  skip_stage transpile.buildInheritanceIndexViaProto_from content.
  skip_stage transpile.buildInheritanceIndexViaObjectAssign_from content.
  skip_stage transpile.methods_from content.
  unfold replace at 1.
  rewrite (bind_Ok _ _ _ _ _
             (splice_printing _ _ _ _ _
                (λ h w' Hi _, eq_trans (constructors_call filepath h w')
                                (f_equal (λ i, Ok (constructor_head i h, 
                                   add_console (class_mismatch (getFileClass filepath) filepath i h) w')) Hi))
                _ _ eq_refl eq_refl)).
  assert (E5 : splice_with
                 (constructor_head (index (add_console [Processing filepath] w)))
                 (pieces transpile.constructors_from content) = content).
  { rewrite <- (splice_with_pieces transpile.constructors_from content) at 2.
    apply splice_with_ext. intros h Hh.
    assert (Hc : cap h 1 = str "util").
    { assert (Hb : bool_decide (cap h 1 = str "util") = true);
        [|by apply bool_decide_eq_true in Hb].
      revert h Hh. apply forallb_forall. by vm_compute. }
    unfold constructor_head. cbn [index add_console]. by rewrite Hc, Hu. }
  rewrite E5.
  skip_stage transpile.parentConstructors_from content.
  unfold with_state, replace. rewrite classes_no_open.
  - rewrite splice_with_pieces. done.
  - intros h Hh. apply negb_true_iff.
    revert h Hh. apply forallb_forall. by vm_compute.
Qed.

End Properties.

(** * Further properties

    What the code shows besides: the two tables, the stages one by one,
    the statements their patterns find, and the run as a whole. *)

(** ** The two tables *)

Lemma lookup_insert_same idx (k : text) (v : option text) :
  inheritance.lookup (<[k := v]> idx) k
  = match v with Some p => JStr p | None => JNull end.
Proof. unfold inheritance.lookup. by rewrite lookup_insert_eq. Qed.

Lemma lookup_insert_other idx (k k' : text) (v : option text) :
  k' ≠ k → inheritance.lookup (<[k := v]> idx) k' = inheritance.lookup idx k'.
Proof. intros H. unfold inheritance.lookup. by rewrite lookup_insert_ne. Qed.

(** What a call of [inheritance.track] does. *)
Lemma track_lookup child parent w :
  ∃ w', inheritance.track child parent w = Ok (tt, w')
        ∧ internal w' = internal w ∧ console w' = console w
        ∧ ∀ k, inheritance.lookup (index w') k
               = if bool_decide (k = child)
                 then tracked (inheritance.lookup (index w) child) parent
                 else inheritance.lookup (index w) k.
Proof.
  assert (Hins : ∀ v, tracked (inheritance.lookup (index w) child) parent
                      = match v with Some p => JStr p | None => JNull end →
            ∀ k, inheritance.lookup (index (set_index <[child:=v]> w)) k
                 = if bool_decide (k = child)
                   then tracked (inheritance.lookup (index w) child) parent
                   else inheritance.lookup (index w) k).
  { intros v Hv k. cbn [index set_index]. case_bool_decide as Hk.
    - subst k. by rewrite lookup_insert_same.
    - by rewrite lookup_insert_other. }
  assert (Hid : tracked (inheritance.lookup (index w) child) parent
                = inheritance.lookup (index w) child →
            ∀ k, inheritance.lookup (index w) k
                 = if bool_decide (k = child)
                   then tracked (inheritance.lookup (index w) child) parent
                   else inheritance.lookup (index w) k).
  { intros Hv k. case_bool_decide as Hk; [by subst k|done]. }
  unfold inheritance.track, bind, gets, when, modify, ret, inheritance.isClass.
  cbn [index debugRules.logExtensions debugRules.logClasses].
  destruct parent as [[|c p]|];
    destruct (inheritance.lookup (index w) child) as [| |[|c0 p0]|k0] eqn:El;
    cbn [truthy andb negb];
    (eexists; split; [reflexivity|]; split; [done|]; split; [done|]);
    first [ apply Hid; reflexivity | apply Hins; reflexivity ].
Qed.

(** What a call of [dependencies.track] does for a file whose name is no
    member of [Object.prototype]. *)
Lemma dependencies_track_ok file d w :
  inherited file = false →
  ∃ w', dependencies.track file d w = Ok (tt, w')
        ∧ internal w' !! file = Some (add_dep (deps_of (internal w) file) d)
        ∧ (∀ g, g ≠ file → internal w' !! g = internal w !! g)
        ∧ index w' = index w ∧ console w' = console w.
Proof.
  intros Hf. unfold dependencies.track, bind, gets, when, modify, ret, deps_of, add_dep.
  cbn. destruct (internal w !! file) as [l|] eqn:E; cbn.
  - case_bool_decide as Hd.
    + exists w. by rewrite E.
    + eexists. split; [reflexivity|]. cbn. rewrite lookup_insert_eq.
      split_and!; try done. intros g Hg. by rewrite lookup_insert_ne.
  - rewrite Hf. eexists. split; [reflexivity|]. cbn. rewrite lookup_insert_eq.
    rewrite bool_decide_eq_false_2 by apply not_elem_of_nil.
    split_and!; try done. intros g Hg. by rewrite lookup_insert_ne.
Qed.

Lemma dependencies_track_frame file d w u w' :
  dependencies.track file d w = Ok (u, w') →
  internal w' !! file = Some (add_dep (deps_of (internal w) file) d)
  ∧ (∀ g, g ≠ file → internal w' !! g = internal w !! g)
  ∧ index w' = index w ∧ console w' = console w.
Proof.
  unfold dependencies.track, bind, gets, when, modify, ret, throw, deps_of, add_dep.
  cbn. destruct (internal w !! file) as [l|] eqn:E; cbn.
  - case_bool_decide as Hd; intros [= <- <-]; [done|]. cbn.
    rewrite lookup_insert_eq. split_and!; try done.
    intros g Hg. by rewrite lookup_insert_ne.
  - destruct (inherited file); [done|]. intros [= <- <-]. cbn.
    rewrite lookup_insert_eq, bool_decide_eq_false_2 by apply not_elem_of_nil.
    split_and!; try done. intros g Hg. by rewrite lookup_insert_ne.
Qed.

Lemma add_dep_NoDup l d : NoDup l → NoDup (add_dep l d).
Proof.
  intros Hn. unfold add_dep. case_bool_decide as Hd; [done|].
  apply NoDup_app. split_and!; [done| |apply NoDup_singleton].
  by intros x Hx ->%list_elem_of_singleton.
Qed.

Lemma add_dep_elem l d x : x ∈ add_dep l d ↔ x ∈ l ∨ x = d.
Proof.
  unfold add_dep. case_bool_decide as Hd.
  - split; [auto|]. by intros [H| ->].
  - rewrite elem_of_app, list_elem_of_singleton. done.
Qed.

(** X1.  [dependencies.track] for a file whose name is no member of
    [Object.prototype]: the call returns normally; afterwards the
    dependency is in the list of the file; the list is the old one, with
    the dependency pushed at the end when it was not in it, so a list
    without duplicates stays one; the lists of the other files, the index
    and the console are untouched; and the same call once more changes
    nothing. *)
Theorem dependencies_track_records (file d : text) (w : World) :
  inherited file = false →
  ∃ w', dependencies.track file d w = Ok (tt, w')
        ∧ d ∈ deps_of (internal w') file
        ∧ (∃ l, deps_of (internal w') file = deps_of (internal w) file ++ l)
        ∧ (∀ x, x ∈ deps_of (internal w') file
                ↔ x ∈ deps_of (internal w) file ∨ x = d)
        ∧ (NoDup (deps_of (internal w) file) → NoDup (deps_of (internal w') file))
        ∧ (∀ g, g ≠ file → internal w' !! g = internal w !! g)
        ∧ index w' = index w ∧ console w' = console w
        ∧ dependencies.track file d w' = Ok (tt, w').
Proof.
  intros Hf.
  destruct (dependencies_track_ok file d w Hf) as (w' & E & Hl & Hg & Hi & Hc).
  exists w'. split; [done|].
  assert (Hd : deps_of (internal w') file = add_dep (deps_of (internal w) file) d).
  { unfold deps_of at 1. by rewrite Hl. }
  assert (Hin : d ∈ deps_of (internal w') file).
  { rewrite Hd. apply add_dep_elem. by right. }
  split; [done|]. split.
  { rewrite Hd. unfold add_dep. case_bool_decide.
    - exists []. by rewrite app_nil_r.
    - by exists [d]. }
  split; [intros x; rewrite Hd; apply add_dep_elem|].
  split; [rewrite Hd; apply add_dep_NoDup|].
  split; [done|]. split; [done|]. split; [done|].
  destruct (dependencies_track_ok file d w' Hf) as (w2 & E2 & Hl2 & Hg2 & Hi2 & Hc2).
  rewrite E2. do 2 f_equal.
  assert (Hsame : add_dep (deps_of (internal w') file) d = deps_of (internal w') file).
  { unfold add_dep. by rewrite bool_decide_eq_true_2. }
  rewrite Hsame in Hl2.
  destruct w2 as [i2 d2 c2], w' as [i1 d1 c1]. cbn in *. subst. f_equal.
  apply map_eq. intros g. destruct (decide (g = file)) as [->|Hne].
  - rewrite Hl2. unfold deps_of. by rewrite Hl.
  - by apply Hg2.
Qed.

(** X2.  [inheritance.track] never throws, whatever the child and the
    parent; afterwards [isClass] holds of the child; what was a class
    stays one; the entries of the other names, the dependencies and the
    console are untouched. *)
Theorem inheritance_track_marks (child : text) (parent : option text) (w : World) :
  ∃ w', inheritance.track child parent w = Ok (tt, w')
        ∧ inheritance.isClass (index w') child = true
        ∧ (∀ k, inheritance.isClass (index w) k = true →
                inheritance.isClass (index w') k = true)
        ∧ (∀ k, k ≠ child →
                inheritance.getParent (index w') k = inheritance.getParent (index w) k)
        ∧ internal w' = internal w ∧ console w' = console w.
Proof.
  destruct (track_lookup child parent w) as (w' & E & Hd & Hc & Hl).
  exists w'. split; [done|].
  assert (Ht : ∀ v, tracked v parent ≠ JUndefined).
  { intros v. unfold tracked. destruct parent as [[|c p]|], v as [| |[|c0 p0]|k0]; done. }
  split.
  { unfold inheritance.isClass. rewrite Hl, bool_decide_eq_true_2 by done.
    specialize (Ht (inheritance.lookup (index w) child)).
    by destruct (tracked _ _). }
  split.
  { intros k. unfold inheritance.isClass. rewrite Hl. case_bool_decide as Hkc; [|done].
    intros _. specialize (Ht (inheritance.lookup (index w) child)).
    by destruct (tracked _ _). }
  split; [|done].
  intros k Hne. unfold inheritance.getParent. rewrite Hl.
  by rewrite bool_decide_eq_false_2.
Qed.

Ltac track_cases w child :=
  unfold inheritance.track, bind, gets, when, modify, ret, inheritance.isClass;
  cbn [index set_index debugRules.logExtensions debugRules.logClasses];
  destruct (inheritance.lookup (index w) child) as [| |[|? ?]|?] eqn:El;
  cbn [truthy andb negb index set_index];
  rewrite ?lookup_insert_same, ?El; cbn [truthy andb negb index set_index];
  rewrite ?lookup_insert_same, ?El; try done.

(** X3.  [inheritance.track] twice with the same child and parent is
    [inheritance.track] once. *)
Theorem inheritance_track_twice (child : text) (parent : option text) (w : World) :
  (inheritance.track child parent ;; inheritance.track child parent)%js w
  = inheritance.track child parent w.
Proof.
  destruct parent as [[|c p]|]; track_cases w child.
Qed.

(** X4.  Marking a class ([track] with [null], as the method stage does)
    and linking it to a parent ([track] with a name, as the two link stages
    do) give the same tables in either order. *)
Theorem inheritance_track_mark_link_commute (child p : text) (w : World) :
  (inheritance.track child None ;; inheritance.track child (Some p))%js w
  = (inheritance.track child (Some p) ;; inheritance.track child None)%js w.
Proof.
  destruct p as [|c p]; track_cases w child.
  unfold set_index. cbn. by rewrite insert_insert_eq.
Qed.

(** X5.  The members of [Object.prototype]: a name such as [toString] or
    [constructor] that the index does not own is found in the prototype
    of the table, so [isClass] holds of it in every index, [track] records
    nothing for it, whatever the parent, and the callback of the
    constructor stage returns the constructor marker for an assignment of
    a function to it. *)
Theorem inherited_names_count_as_classes (k : text) (q : option text) (w : World) :
  inherited k = true → index w !! k = None →
  inheritance.isClass (index w) k = true
  ∧ inheritance.track k q w = Ok (tt, w)
  ∧ ∀ path_basename filepath h,
      cap h 1 = k →
      ∃ w', transpile.constructors path_basename filepath h w
            = Ok (str "constructor", w').
Proof.
  intros Hk Hn.
  assert (Hl : inheritance.lookup (index w) k = JInherited k).
  { unfold inheritance.lookup. by rewrite Hn, Hk. }
  assert (Hc : inheritance.isClass (index w) k = true).
  { unfold inheritance.isClass. by rewrite Hl. }
  split; [done|]. split.
  - unfold inheritance.track, bind, gets, when, modify, ret.
    cbn [index]. rewrite Hl, Hc. cbn [truthy negb]. by rewrite andb_false_r.
  - intros pb filepath h Hh. rewrite constructors_call. eexists.
    unfold constructor_head. by rewrite Hh, Hc.
Qed.

(** ** The first way to match, continued *)

Lemma exec_at_None p pos pos' s : exec_at p pos s = None → exec_at p pos' s = None.
Proof. unfold exec_at. by destruct (rmatch _ _ _) as [|[r c] tl]. Qed.

Lemma head_Chr c s caps : head (rmatch (Chr c) (c :: s) caps) = Some (s, caps).
Proof. cbn [rmatch]. by rewrite N.eqb_refl. Qed.

Lemma head_Dot x s caps :
  not_terminator x = true → head (rmatch Dot (x :: s) caps) = Some (s, caps).
Proof.
  unfold not_terminator. intros Hx%negb_true_iff. cbn [rmatch]. by rewrite Hx.
Qed.

Lemma head_w_plus i x run rest c :
  is_word x = true → forallb is_word run = true → stops is_word rest = true →
  head (rmatch (Group i w_plus) (x :: run ++ rest) c)
  = Some (rest, <[i := Some (x :: run)]> c).
Proof.
  intros Hx Hrun Hstop.
  rewrite (head_Group i _ _ _ (rest, c)).
  - cbn [fst snd]. change (x :: run ++ rest) with ((x :: run) ++ rest).
    by rewrite length_app, Nat.add_sub, take_app_length.
  - unfold w_plus. rewrite rmatch_Cls_plus by done.
    destruct (backtracks_head run rest c) as [tl ->]. done.
Qed.

Lemma head_NegLook r s c :
  rmatch r s c = [] → head (rmatch (NegLook r) s c) = Some (s, c).
Proof. cbn [rmatch]. by intros ->. Qed.

Lemma head_spaces ws rest c :
  forallb is_space ws = true → stops is_space rest = true →
  head (rmatch (Star true (Cls is_space)) (ws ++ rest) c) = Some (rest, c).
Proof.
  intros Hws Hstop. rewrite rmatch_Cls_star by done.
  by destruct (backtracks_head ws rest c) as [tl ->].
Qed.

Lemma is_space_not_word x : is_space x = true → is_word x = false.
Proof.
  intros Hs. destruct (is_word x) eqn:Hw; [|done].
  rewrite is_ref_char_not_space in Hs; [done|].
  unfold transpile.is_ref_char. by rewrite Hw.
Qed.

(** A literal that holds no line terminator does not fit in what is left
    of the line when that is shorter. *)
Lemma Lit_short tail c : stops not_terminator tail = true →
  ∀ lit u, forallb not_terminator lit = true → (length u < length lit)%nat →
  rmatch (Lit lit) (u ++ tail) c = [].
Proof.
  intros Hstop. induction lit as [|a lit IH]; intros u Hlit Hlen.
  - cbn [length] in Hlen. lia.
  - cbn [forallb] in Hlit. apply andb_prop in Hlit as [Ha Hlit].
    cbn [Lit rmatch]. destruct u as [|b u]; cbn [app].
    + destruct tail as [|t tail]; [done|]. cbn [stops] in Hstop.
      destruct (t =? a) eqn:E; [|done]. apply N.eqb_eq in E as ->.
      by rewrite Ha in Hstop.
    + destruct (b =? a); [|done]. cbn [flat_map fst snd]. rewrite app_nil_r.
      apply IH; [done|]. cbn [length] in Hlen. lia.
Qed.

Lemma backtracks_elem run tail c x :
  In x (backtracks run tail c) →
  ∃ u, x = (u ++ tail, c) ∧ (length u ≤ length run)%nat.
Proof.
  induction run as [|a run IH]; cbn [backtracks].
  - intros [<-|[]]. by exists [].
  - intros [Hin|[<-|[]]]%in_app_iff.
    + destruct (IH Hin) as (u & -> & Hu). exists u. split; [done|]. cbn [length]. lia.
    + by exists (a :: run).
Qed.

(** A greedy [.*] in a group, then any character, a literal and the rest
    of the pattern: when the line ends with the character and the literal,
    the group takes what stands before them. *)
Lemma head_dot_star_to_end i r parent d lit tail c y :
  forallb not_terminator parent = true → not_terminator d = true →
  forallb not_terminator lit = true → stops not_terminator tail = true →
  head (rmatch r tail (<[i := Some parent]> c)) = Some y →
  head (rmatch (Seq (Group i dot_star) (Seq Dot (Seq (Lit lit) r)))
          (parent ++ d :: lit ++ tail) c) = Some y.
Proof.
  intros Hp Hd Hlit Hstop Hr.
  set (s := parent ++ d :: lit ++ tail).
  set (g := λ m : text * captures,
              (m.1, <[i := Some (take (length s - length m.1) s)]> m.2)).
  assert (Hrun : rmatch (Group i dot_star) s c
                 = map g (backtracks (parent ++ d :: lit) tail c)).
  { change (rmatch (Group i dot_star) s c) with (map g (rmatch dot_star s c)).
    f_equal. unfold s.
    replace (parent ++ d :: lit ++ tail) with ((parent ++ d :: lit) ++ tail)
      by (by rewrite <- (assoc_L (++))).
    apply rmatch_dot_star; [|done].
    rewrite forallb_app, Hp. cbn [forallb]. by rewrite Hd, Hlit. }
  destruct (backtracks_app parent (d :: lit) tail c) as [tl Hb].
  rewrite Hb in Hrun. cbn [backtracks] in Hrun.
  rewrite <- (assoc_L (++)), map_app in Hrun. cbn [app map] in Hrun.
  eapply head_Seq_skip; [exact Hrun| |].
  - apply Forall_forall. intros x Hx%list_elem_of_In%in_map_iff.
    destruct Hx as (m & <- & Hm).
    apply backtracks_elem in Hm as (u & -> & Hu). cbn [g fst snd].
    cbn [rmatch]. destruct u as [|b u]; cbn [app].
    + destruct tail as [|t tail]; [done|]. cbn [stops] in Hstop.
      unfold not_terminator in Hstop. apply negb_true_iff in Hstop.
      rewrite negb_false_iff in Hstop. by rewrite Hstop.
    + destruct (is_line_terminator b); [done|]. cbn [flat_map fst snd].
      rewrite app_nil_r.
      change (flat_map _ (rmatch (Lit lit) (u ++ tail) ?c0))
        with (rmatch (Seq (Lit lit) r) (u ++ tail) c0).
      apply rmatch_Seq_nil. apply Lit_short; [done|done|]. cbn [length] in Hu. lia.
  - cbn [g fst snd].
    assert (Et : take (length s - length (d :: lit ++ tail)) s = parent).
    { unfold s. by rewrite length_app, Nat.add_sub, take_app_length. }
    rewrite Et.
    eapply head_Seq; [by apply head_Dot|]. cbn [fst snd].
    eapply head_Seq; [apply head_Lit|]. exact Hr.
Qed.

Lemma line_break_of_split tail :
  tail = line_break_of tail ++ drop (length (line_break_of tail)) tail.
Proof. destruct tail as [|t tail]; [done|]. cbn. by destruct (is_crlf t). Qed.

Lemma head_line_break tail c :
  head (rmatch (Seq (Opt (Cls is_crlf)) Eps) tail c)
  = Some (drop (length (line_break_of tail)) tail, c).
Proof.
  destruct tail as [|t tail]; [done|]. cbn. by destruct (is_crlf t).
Qed.

(** ** The first stage *)

(** A [replace] without the [g] flag replaces the first match: what
    stands before it and after it stays. *)
Lemma scan_first_at p h rest : ∀ pre pos,
  (∀ j, (j < length pre)%nat → exec_at p 0 (drop j (pre ++ rest)) = None) →
  exec_at p (pos + length pre) rest = Some h →
  scan_first p pos (pre ++ rest)
  = map Keep pre ++ Match h :: map Keep (drop (length (m_str h)) rest).
Proof.
  induction pre as [|c pre IH]; intros pos Hno Hex.
  - cbn [app length map] in *. rewrite Nat.add_0_r in Hex.
    destruct rest as [|r rest]; cbn [scan_first]; by rewrite Hex.
  - pose proof (exec_at_None p 0 pos _ (Hno 0%nat ltac:(cbn [length]; lia))) as E0.
    cbn [drop app] in E0. cbn [app scan_first]. rewrite E0.
    cbn [map app]. f_equal. apply IH.
    + intros j Hj. apply (Hno (S j)). cbn [length]. lia.
    + cbn [length] in Hex. by rewrite Nat.add_succ_r in Hex.
Qed.

Lemma initialROS3DAssignment_from_match x y post pos :
  not_terminator x = true → not_terminator y = true →
  exec_at transpile.initialROS3DAssignment_from pos (initial_assignment x y ++ post)
  = Some (Hit_ (initial_assignment x y) [None] pos).
Proof.
  intros Hx Hy.
  rewrite (exec_at_head _ _ _ post [None]).
  - f_equal. f_equal. by rewrite length_app, Nat.add_sub, take_app_length.
  - unfold initial_assignment, transpile.initialROS3DAssignment_from.
    cbn [p_re p_groups Seqs replicate].
    rewrite <- !(assoc_L (++)). cbn [app].
    repeat first
      [ rewrite <- !(assoc_L (++)); cbn [app]
      | eapply head_Seq; [first [ apply head_Lit | apply head_Chr
                                | by apply head_Dot ]|]; cbn [fst snd] ].
    reflexivity.
Qed.

Section FirstStage.
Variable path_basename : text → text → text.
Variable inherited_text : text → text.

(** X6.  The first stage, the one for the file [src/Ros3D.js].  The
    pattern matches the assignment of the namespace object with its
    revision, the two dots of the revision standing for any character
    that ends no line.  Where the text holds the assignment and no match
    begins before it, the stage puts the export of the revision [0.18.0]
    in its place and keeps what stands before and after it, later
    occurrences of the assignment included.  When no stage finds its
    pattern in the text so built, that text is what the pipeline returns
    for [src/Ros3D.js], and the tables stay as they are. *)
Theorem initialROS3DAssignment_first_only (pre post : text) (x y : N) (w : World) :
  not_terminator x = true → not_terminator y = true →
  (∀ j, (j < length pre)%nat →
        exec_at transpile.initialROS3DAssignment_from 0
          (drop j (pre ++ initial_assignment x y ++ post)) = None) →
  splice_str transpile.initialROS3DAssignment_to
    (scan_first transpile.initialROS3DAssignment_from 0
       (pre ++ initial_assignment x y ++ post))
  = pre ++ str "export const REVISION = '0.18.0';" ++ post
  ∧ (pattern_free (pre ++ str "export const REVISION = '0.18.0';" ++ post) = true →
     transpile.transpileToEs6 path_basename inherited_text
       (pre ++ initial_assignment x y ++ post) (str "src/Ros3D.js") w
     = Ok (pre ++ str "export const REVISION = '0.18.0';" ++ post,
           add_console [Processing (str "src/Ros3D.js")] w)).
Proof.
  intros Hx Hy Hno.
  assert (Hstage : splice_str transpile.initialROS3DAssignment_to
                     (scan_first transpile.initialROS3DAssignment_from 0
                        (pre ++ initial_assignment x y ++ post))
                   = pre ++ str "export const REVISION = '0.18.0';" ++ post).
  { rewrite (scan_first_at _ (Hit_ (initial_assignment x y) [None] (length pre)));
      [|done|by apply initialROS3DAssignment_from_match].
    unfold splice_str. cbn [m_str].
    assert (Hs : ∀ f l ps, splice_with f (map Keep l ++ ps) = l ++ splice_with f ps).
    { intros f l ps. induction l as [|c l IH]; cbn; [done|by rewrite IH]. }
    rewrite Hs. cbn [splice_with]. rewrite splice_with_Keep.
    by rewrite drop_app_length. }
  split; [exact Hstage|]. intros Hfree.
  rewrite <- (transpileToEs6_pattern_free path_basename inherited_text _
                (str "src/Ros3D.js") w Hfree).
  unfold transpile.transpileToEs6.
  rewrite bool_decide_eq_true_2 by done. rewrite Hstage.
  assert (Hsame : splice_str transpile.initialROS3DAssignment_to
                    (scan_first transpile.initialROS3DAssignment_from 0
                       (pre ++ str "export const REVISION = '0.18.0';" ++ post))
                  = pre ++ str "export const REVISION = '0.18.0';" ++ post).
  { unfold pattern_free in Hfree.
    destruct (hits (scan_first _ _ _)) eqn:E1; [|done].
    unfold splice_str. rewrite (splice_with_no_hits _ _ E1).
    apply splice_with_scan_first. }
  by rewrite Hsame.
Qed.

End FirstStage.

(** ** The dependency stage *)

Lemma fold_add_dep_elem ds : ∀ l x,
  x ∈ fold_left add_dep ds l ↔ x ∈ l ∨ x ∈ ds.
Proof.
  induction ds as [|d ds IH]; intros l x; cbn [fold_left].
  - rewrite elem_of_nil. tauto.
  - rewrite IH, add_dep_elem, elem_of_cons. tauto.
Qed.

Lemma fold_add_dep_NoDup ds : ∀ l, NoDup l → NoDup (fold_left add_dep ds l).
Proof.
  induction ds as [|d ds IH]; intros l Hl; [done|]. cbn [fold_left].
  by apply IH, add_dep_NoDup.
Qed.

Lemma fold_add_dep_prefix ds : ∀ l, ∃ l', fold_left add_dep ds l = l ++ l'.
Proof.
  induction ds as [|d ds IH]; intros l; cbn [fold_left].
  - exists []. by rewrite app_nil_r.
  - destruct (IH (add_dep l d)) as [l' ->]. unfold add_dep.
    case_bool_decide; [by exists l'|].
    exists (d :: l'). by rewrite <- (assoc_L (++)).
Qed.

Lemma internalDependencies_run filepath ps :
  inherited filepath = false →
  ∀ w, ∃ w',
    splice (transpile.internalDependencies filepath) ps w
    = Ok (splice_with (λ h, cap h 1) ps, w')
    ∧ deps_of (internal w') filepath
      = fold_left add_dep (map (λ h, cap h 1) (hits ps)) (deps_of (internal w) filepath)
    ∧ (∀ g, g ≠ filepath → internal w' !! g = internal w !! g)
    ∧ index w' = index w ∧ console w' = console w.
Proof.
  intros Hf. induction ps as [|[c|h] ps IH]; intros w;
    cbn [splice splice_with hits map fold_left].
  - by exists w.
  - destruct (IH w) as (w' & E & H). exists w'. unfold bind. by rewrite E.
  - destruct (dependencies_track_ok filepath (cap h 1) w Hf)
      as (w1 & E1 & Hl1 & Hg1 & Hi1 & Hc1).
    destruct (IH w1) as (w' & E & Hl & Hg & Hi & Hc).
    exists w'. unfold transpile.internalDependencies, bind. rewrite E1.
    cbn [ret]. unfold transpile.internalDependencies, bind in E. rewrite E.
    split; [done|]. split.
    { rewrite Hl. f_equal. unfold deps_of at 1. by rewrite Hl1. }
    split; [|split; congruence].
    intros g Hne. by rewrite Hg, Hg1.
Qed.

(** X7.  The dependency stage for a file whose name is no member of
    [Object.prototype], on every text and in every state: the stage
    returns normally and replaces every match by the captured name; the
    list of the file is the old one with the captured names pushed in the
    order of the text, each unless it is in the list already; so the list
    holds what it held and the captured names, the old list is a prefix
    of the new one, and a list without duplicates stays one; the lists of
    the other files, the index and the console are untouched. *)
Theorem internalDependencies_stage (filepath s : text) (w : World) :
  inherited filepath = false →
  ∃ w', replace transpile.internalDependencies_from
          (transpile.internalDependencies filepath) s w
        = Ok (splice_with (λ h, cap h 1)
                (pieces transpile.internalDependencies_from s), w')
    ∧ deps_of (internal w') filepath
      = fold_left add_dep
          (map (λ h, cap h 1) (matches transpile.internalDependencies_from s))
          (deps_of (internal w) filepath)
    ∧ (∀ x, x ∈ deps_of (internal w') filepath
            ↔ x ∈ deps_of (internal w) filepath
              ∨ ∃ h, In h (matches transpile.internalDependencies_from s)
                     ∧ cap h 1 = x)
    ∧ (∃ l, deps_of (internal w') filepath = deps_of (internal w) filepath ++ l)
    ∧ (NoDup (deps_of (internal w) filepath) → NoDup (deps_of (internal w') filepath))
    ∧ (∀ g, g ≠ filepath → internal w' !! g = internal w !! g)
    ∧ index w' = index w ∧ console w' = console w.
Proof.
  intros Hf.
  destruct (internalDependencies_run filepath
              (pieces transpile.internalDependencies_from s) Hf w)
    as (w' & E & Hl & Hg & Hi & Hc).
  exists w'. unfold matches. split; [done|]. split; [done|]. split.
  { intros x. rewrite Hl, fold_add_dep_elem. split.
    - intros [H|H]; [by left|]. right.
      apply list_elem_of_In, in_map_iff in H as (h & <- & Hh). by exists h.
    - intros [H|(h & Hh & <-)]; [by left|]. right.
      apply list_elem_of_In, in_map_iff. by exists h. }
  split; [rewrite Hl; apply fold_add_dep_prefix|].
  split; [rewrite Hl; apply fold_add_dep_NoDup|]. done.
Qed.

Lemma dot_star_elem s c y :
  In y (rmatch dot_star s c) →
  ∃ pre, s = pre ++ y.1 ∧ forallb not_terminator pre = true.
Proof.
  intros Hin.
  refine (repeat_fuel_rel
            (λ a b, ∃ pre, a.1 = pre ++ b.1 ∧ forallb not_terminator pre = true)
            (rmatch Dot) _ _ _ true (length s) s c y Hin).
  - intros a. by exists [].
  - intros a b d (p1 & E1 & H1) (p2 & E2 & H2). exists (p1 ++ p2).
    rewrite E1, E2, (assoc_L (++)), forallb_app, H1, H2. done.
  - intros s0 c0 y0. cbn [rmatch]. destruct s0 as [|x s0]; [done|].
    destruct (is_line_terminator x) eqn:Ex; [done|]. intros [<-|[]].
    exists [x]. cbn. unfold not_terminator. by rewrite Ex.
Qed.

Lemma line_rest_app pre s :
  forallb not_terminator pre = true → line_rest (pre ++ s) = pre ++ line_rest s.
Proof.
  induction pre as [|x pre IH]; [done|]. cbn [forallb app line_rest].
  intros [Hx Hpre]%andb_prop. unfold not_terminator in Hx.
  apply negb_true_iff in Hx. rewrite Hx. by rewrite IH.
Qed.

(** The look-ahead of the dependency pattern succeeds when no [=] is left
    on the line. *)
Lemma lookahead_equals s c :
  ¬ In 61 (line_rest s) → rmatch transpile.equals_ahead s c = [].
Proof.
  intros Hno. destruct (rmatch transpile.equals_ahead s c) as [|y l] eqn:E; [done|].
  exfalso. apply Hno.
  assert (Hin : In y (rmatch transpile.equals_ahead s c)) by (rewrite E; by left).
  unfold transpile.equals_ahead in Hin. cbn [Seqs rmatch] in Hin.
  apply in_flat_map in Hin as ([s1 c1] & H1 & Hin).
  apply dot_star_elem in H1 as (pre & -> & Hpre). cbn [fst snd] in Hin.
  apply in_flat_map in Hin as ([s2 c2] & H2 & _).
  destruct s1 as [|x s1]; [done|]. destruct (x =? 61) eqn:Ex; [|done].
  apply N.eqb_eq in Ex as ->.
  rewrite line_rest_app by done. apply in_app_iff. right. cbn. by left.
Qed.

Lemma internalDependencies_from_reference pos x name following :
  is_word x = true → forallb is_word name = true →
  stops is_word following = true →
  ¬ In 61 (line_rest following) →
  exec_at transpile.internalDependencies_from pos
    (str "ROS3D." ++ x :: name ++ following)
  = Some (Hit_ (str "ROS3D." ++ x :: name) [None; Some (x :: name)] pos).
Proof.
  intros Hx Hname Hstop Hno.
  rewrite (exec_at_head _ _ _ following [None; Some (x :: name)]).
  - f_equal. f_equal.
    change (str "ROS3D." ++ x :: name ++ following)
      with (str "ROS3D." ++ (x :: name) ++ following).
    rewrite (assoc_L (++)). by rewrite length_app, Nat.add_sub, take_app_length.
  - unfold transpile.internalDependencies_from. cbn [p_re p_groups Seqs replicate].
    eapply head_Seq; [apply head_Lit|]. cbn [fst snd].
    eapply head_Seq; [by apply head_w_plus|]. cbn [fst snd].
    eapply head_Seq; [by apply head_NegLook, lookahead_equals|]. done.
Qed.

(** X8.  A reference the dependency stage takes: [ROS3D.] and a name of
    word characters, after which the name ends and no [=] comes before
    the end of the line.  [exec] at the reference reports [ROS3D.] and
    the name, with the name as the capture; in a file whose name is no
    member of [Object.prototype] the callback returns the bare name and
    the name is among the dependencies of the file afterwards. *)
Theorem internalDependencies_reference
  (filepath : text) (w : World) (pos : nat) (x : N) (name following : text) :
  is_word x = true → forallb is_word name = true →
  stops is_word following = true →
  ¬ In 61 (line_rest following) →
  inherited filepath = false →
  ∃ h w',
    exec_at transpile.internalDependencies_from pos
      (str "ROS3D." ++ x :: name ++ following) = Some h
    ∧ m_str h = str "ROS3D." ++ x :: name
    ∧ transpile.internalDependencies filepath h w = Ok (x :: name, w')
    ∧ x :: name ∈ deps_of (internal w') filepath.
Proof.
  intros Hx Hname Hstop Hno Hf.
  set (h := Hit_ (str "ROS3D." ++ x :: name) [None; Some (x :: name)] pos).
  destruct (dependencies_track_ok filepath (x :: name) w Hf)
    as (w' & E & Hl & _).
  exists h, w'. split; [by apply internalDependencies_from_reference|].
  split; [done|]. split.
  - unfold transpile.internalDependencies, bind.
    change (cap h 1) with (x :: name). by rewrite E.
  - unfold deps_of. rewrite Hl. apply add_dep_elem. by right.
Qed.

(** ** The stages that feed the index *)

Lemma tracked_truthy v p : truthy v = true → tracked v p = v.
Proof. destruct p as [[|c p]|], v as [| |[|c0 p0]|k0]; done. Qed.

Lemma tracked_defined v p : tracked v p ≠ JUndefined.
Proof. destruct p as [[|c p]|], v as [| |[|c0 p0]|k0]; done. Qed.

Lemma acted_truthy act k v h : truthy v = true → acted act k v h = v.
Proof.
  intros Hv. unfold acted. destruct (act h) as [[c p]|]; [|done].
  case_bool_decide; [by apply tracked_truthy|done].
Qed.

Lemma fold_acted_truthy act k ms : ∀ v,
  truthy v = true → fold_left (acted act k) ms v = v.
Proof.
  induction ms as [|h ms IH]; intros v Hv; [done|]. cbn [fold_left].
  rewrite acted_truthy by done. by apply IH.
Qed.

Lemma acted_defined act k v h : v ≠ JUndefined → acted act k v h ≠ JUndefined.
Proof.
  intros Hv. unfold acted. destruct (act h) as [[c p]|]; [|done].
  case_bool_decide; [apply tracked_defined|done].
Qed.

Lemma fold_acted_defined act k ms : ∀ v,
  v ≠ JUndefined → fold_left (acted act k) ms v ≠ JUndefined.
Proof.
  induction ms as [|h ms IH]; intros v Hv; [done|]. cbn [fold_left].
  by apply IH, acted_defined.
Qed.

(** A stage whose callback calls [inheritance.track] and returns a text
    that depends on the match alone. *)
Lemma track_stage (act : hit → option (text * option text)) (f : hit → text)
  (cb : hit → M World text) :
  (∀ h w, cb h w = match act h with
                   | Some (c, p) => (inheritance.track c p ;; ret (f h))%js w
                   | None => Ok (f h, w)
                   end) →
  ∀ ps w, ∃ w',
    splice cb ps w = Ok (splice_with f ps, w')
    ∧ internal w' = internal w ∧ console w' = console w
    ∧ ∀ k, inheritance.lookup (index w') k
           = fold_left (acted act k) (hits ps) (inheritance.lookup (index w) k).
Proof.
  intros Hcb ps. induction ps as [|[c|h] ps IH]; intros w;
    cbn [splice splice_with hits fold_left].
  - by exists w.
  - destruct (IH w) as (w' & E & H). exists w'. unfold bind. by rewrite E.
  - assert (H1 : ∃ w1, cb h w = Ok (f h, w1)
                       ∧ internal w1 = internal w ∧ console w1 = console w
                       ∧ ∀ k, inheritance.lookup (index w1) k
                              = acted act k (inheritance.lookup (index w) k) h).
    { rewrite Hcb. unfold acted. destruct (act h) as [[c p]|]; [|by exists w].
      destruct (track_lookup c p w) as (w1 & E & Hd & Hc & Hl).
      exists w1. unfold bind. rewrite E. split; [done|]. split; [done|].
      split; [done|]. intros k. rewrite Hl.
      case_bool_decide as Hk; [by subst k|done]. }
    destruct H1 as (w1 & E1 & Hd1 & Hc1 & Hl1).
    destruct (IH w1) as (w' & E & Hd & Hc & Hl).
    exists w'. unfold bind. rewrite E1, E. split; [done|].
    split; [congruence|]. split; [congruence|].
    intros k. by rewrite Hl, Hl1.
Qed.

Lemma fold_acted_In act k p ms h : ∀ v,
  In h ms → act h = Some (k, p) →
  fold_left (acted act k) ms v ≠ JUndefined.
Proof.
  induction ms as [|h' ms IH]; intros v; [done|]. cbn [fold_left].
  intros [->|Hin] Hact.
  - apply fold_acted_defined. unfold acted. rewrite Hact.
    rewrite bool_decide_eq_true_2 by done. apply tracked_defined.
  - by apply IH.
Qed.

Lemma fold_acted_JStr act k q ms : ∀ v,
  fold_left (acted act k) ms v = JStr q →
  v = JStr q ∨ ∃ h, In h ms ∧ act h = Some (k, Some q).
Proof.
  induction ms as [|h ms IH]; intros v; cbn [fold_left]; [auto|].
  intros Hf. destruct (IH _ Hf) as [Hv|(h' & Hin & Hact)].
  - unfold acted in Hv. destruct (act h) as [[c p]|] eqn:Ea; [|auto].
    case_bool_decide as Hk; [|auto]. subst c.
    destruct p as [[|c p]|], v as [| |[|c0 p0]|k0]; cbn in Hv; try done; auto;
      injection Hv as <-; right; exists h; (split; [by left|done]).
  - right. exists h'. split; [by right|done].
Qed.

Lemma fold_acted_skip act k ms : ∀ v,
  (∀ h, In h ms → ∀ p, act h ≠ Some (k, p)) →
  fold_left (acted act k) ms v = v.
Proof.
  induction ms as [|h ms IH]; intros v Hno; [done|]. cbn [fold_left].
  assert (E : acted act k v h = v).
  { unfold acted. destruct (act h) as [[c p]|] eqn:Ea; [|done].
    case_bool_decide as Hk; [|done]. subst c.
    by destruct (Hno h (or_introl eq_refl) p). }
  rewrite E. apply IH. intros h' Hh. apply Hno. by right.
Qed.

(** X9.  Each of the two link stages, on every text and in every state:
    the stage returns normally and deletes every match of its pattern; it
    leaves the dependencies and the console alone; the entry of a name in
    the index is the old one, carried through the matches for that name
    in the order of the text by what [inheritance.track] does.  So an
    entry that was a name stays; the first statement for a child that
    gives a parent decides when the child had none; every child of a
    match is a class afterwards; and a parent the index records was there
    before or stands in a match for the child. *)
Theorem link_stage_first_wins
  (p : pattern) (cb : hit → M World text) (s : text) (w : World) :
  In (p, cb) link_stages →
  ∃ w', replace p cb s w = Ok (splice_with (λ _, []) (pieces p s), w')
    ∧ internal w' = internal w ∧ console w' = console w
    ∧ (∀ k, inheritance.getParent (index w') k
            = fold_left (λ v h, if bool_decide (k = cap h 1)
                                then tracked v (Some (cap h 2)) else v)
                (matches p s) (inheritance.getParent (index w) k))
    ∧ (∀ k, truthy (inheritance.getParent (index w) k) = true →
            inheritance.getParent (index w') k = inheritance.getParent (index w) k)
    ∧ (∀ pre h post,
         matches p s = pre ++ h :: post →
         (∀ h', In h' pre → cap h' 1 ≠ cap h 1) →
         cap h 2 ≠ [] →
         truthy (inheritance.getParent (index w) (cap h 1)) = false →
         inheritance.getParent (index w') (cap h 1) = JStr (cap h 2))
    ∧ (∀ h, In h (matches p s) → inheritance.isClass (index w') (cap h 1) = true)
    ∧ (∀ k q, inheritance.getParent (index w') k = JStr q →
              inheritance.getParent (index w) k = JStr q
              ∨ ∃ h, In h (matches p s) ∧ cap h 1 = k ∧ cap h 2 = q).
Proof.
  intros Hin.
  set (act := λ h : hit, Some (cap h 1, Some (cap h 2))).
  assert (Hcb : ∀ h w0, cb h w0
                 = match act h with
                   | Some (c, q) => (inheritance.track c q ;; ret [])%js w0
                   | None => Ok ([], w0)
                   end).
  { destruct Hin as [[= <- <-]|[[= <- <-]|[]]]; reflexivity. }
  destruct (track_stage act (λ _, []) cb Hcb (pieces p s) w)
    as (w' & E & Hd & Hc & Hl).
  exists w'. unfold inheritance.getParent, matches.
  split; [done|]. split; [done|]. split; [done|].
  split; [exact Hl|].
  split.
  { intros k Hk. rewrite Hl. by apply fold_acted_truthy. }
  split.
  { intros pre h post Hm Hpre Hne Hv. rewrite Hl, Hm, fold_left_app.
    cbn [fold_left]. rewrite (fold_acted_skip act (cap h 1) pre).
    - assert (Ea : acted act (cap h 1) (inheritance.lookup (index w) (cap h 1)) h
                   = JStr (cap h 2)).
      { unfold acted, act. rewrite bool_decide_eq_true_2 by done.
        destruct (cap h 2) as [|c q]; [done|]. cbn [tracked]. by rewrite Hv. }
      rewrite Ea. apply fold_acted_truthy. by destruct (cap h 2).
    - intros h' Hh q [= E1 _]. by apply (Hpre h' Hh). }
  split.
  { intros h Hh. unfold inheritance.isClass. rewrite Hl.
    pose proof (fold_acted_In act (cap h 1) (Some (cap h 2)) _ h
                  (inheritance.lookup (index w) (cap h 1)) Hh eq_refl) as Hne.
    by destruct (fold_left _ _ _). }
  intros k q Hq. rewrite Hl in Hq.
  apply fold_acted_JStr in Hq as [Hv|(h & Hh & [= <- <-])]; [by left|].
  right. by exists h.
Qed.

Lemma buildInheritanceIndexViaProto_from_statement pos x1 cls parent tail :
  is_word x1 = true → forallb is_word cls = true →
  forallb not_terminator parent = true → stops not_terminator tail = true →
  exec_at transpile.buildInheritanceIndexViaProto_from pos
    (proto_statement (x1 :: cls) parent ++ tail)
  = Some (Hit_ (proto_statement (x1 :: cls) parent ++ line_break_of tail)
            [None; Some (x1 :: cls); Some parent] pos).
Proof.
  intros Hx1 Hcls Hp Hstop.
  rewrite (exec_at_head _ _ _ (drop (length (line_break_of tail)) tail)
             [None; Some (x1 :: cls); Some parent]).
  - f_equal. f_equal.
    assert (E : proto_statement (x1 :: cls) parent ++ tail
                = (proto_statement (x1 :: cls) parent ++ line_break_of tail)
                  ++ drop (length (line_break_of tail)) tail).
    { rewrite <- (assoc_L (++)). f_equal. apply line_break_of_split. }
    rewrite E. by rewrite length_app, Nat.add_sub, take_app_length.
  - unfold proto_statement, transpile.buildInheritanceIndexViaProto_from.
    cbn [p_re p_groups Seqs replicate].
    change (str "ROS3D.") with (str "ROS3D" ++ [46]).
    change (str ".prototype.__proto__ = ")
      with (46 :: str "prototype" ++ 46 :: str "__proto__ = ").
    change (str ".prototype;") with (46 :: str "prototype;").
    rewrite <- !(assoc_L (++)). cbn [app]. rewrite <- ?(assoc_L (++)). cbn [app].
    eapply head_Seq; [apply head_Lit|]. cbn [fst snd].
    eapply head_Seq; [by apply head_Dot|]. cbn [fst snd].
    eapply head_Seq; [by apply head_w_plus|]. cbn [fst snd].
    eapply head_Seq; [by apply head_Dot|]. cbn [fst snd].
    eapply head_Seq; [apply head_Lit|]. cbn [fst snd].
    eapply head_Seq; [by apply head_Dot|]. cbn [fst snd].
    eapply head_Seq; [apply head_Lit|]. cbn [fst snd].
    apply head_dot_star_to_end; try done.
    apply head_line_break.
Qed.

Lemma buildInheritanceIndexViaObjectAssign_from_statement pos x1 cls parent tail :
  is_word x1 = true → forallb is_word cls = true →
  forallb not_terminator parent = true → stops not_terminator tail = true →
  exec_at transpile.buildInheritanceIndexViaObjectAssign_from pos
    (assign_statement (x1 :: cls) parent ++ tail)
  = Some (Hit_ (assign_statement (x1 :: cls) parent)
            [None; Some (x1 :: cls); Some parent] pos).
Proof.
  intros Hx1 Hcls Hp Hstop.
  rewrite (exec_at_head _ _ _ tail [None; Some (x1 :: cls); Some parent]).
  - f_equal. f_equal. by rewrite length_app, Nat.add_sub, take_app_length.
  - unfold assign_statement, transpile.buildInheritanceIndexViaObjectAssign_from.
    cbn [p_re p_groups Seqs replicate].
    change (str "Object.assign(") with (str "Object" ++ 46 :: str "assign(").
    change (str ".prototype, ") with (46 :: str "prototype, ").
    change (str ".prototype);") with (46 :: str "prototype);").
    rewrite <- !(assoc_L (++)). cbn [app]. rewrite <- ?(assoc_L (++)). cbn [app].
    eapply head_Seq; [apply head_Lit|]. cbn [fst snd].
    eapply head_Seq; [by apply head_Dot|]. cbn [fst snd].
    eapply head_Seq; [apply head_Lit|]. cbn [fst snd].
    eapply head_Seq; [by apply head_w_plus|]. cbn [fst snd].
    eapply head_Seq; [by apply head_Dot|]. cbn [fst snd].
    eapply head_Seq; [apply head_Lit|]. cbn [fst snd].
    apply head_dot_star_to_end; try done.
Qed.

(** What the callback of a link stage does on a match for a child and a
    parent. *)
Lemma link_callback h cls parent w :
  cap h 1 = cls → cap h 2 = parent →
  ∃ w', (inheritance.track (cap h 1) (Some (cap h 2)) ;; ret (@nil N))%js w
        = Ok ([], w')
        ∧ inheritance.getParent (index w') cls
          = tracked (inheritance.getParent (index w) cls) (Some parent)
        ∧ (∀ k, k ≠ cls →
                inheritance.getParent (index w') k = inheritance.getParent (index w) k)
        ∧ internal w' = internal w ∧ console w' = console w.
Proof.
  intros <- <-.
  destruct (track_lookup (cap h 1) (Some (cap h 2)) w) as (w' & E & Hd & Hc & Hl).
  exists w'. unfold bind. rewrite E. unfold inheritance.getParent.
  split; [done|]. split; [by rewrite Hl, bool_decide_eq_true_2|].
  split; [|done]. intros k Hk. by rewrite Hl, bool_decide_eq_false_2.
Qed.

(** X10.  A link statement written with [__proto__] that ends its line:
    [ROS3D.], a class name of word characters, [.prototype.__proto__ = ],
    a parent and [.prototype;].  [exec] at the statement reports the
    statement and the carriage return or line feed after it, if there is
    one, with the class name and the parent as captures.  The callback
    deletes the match; when the class had no parent and the parent is not
    empty, the index records the parent, and when it had one, the index
    keeps it; no other entry changes. *)
Theorem buildInheritanceIndexViaProto_statement
  (w : World) (pos : nat) (cls parent tail : text) :
  cls ≠ [] → forallb is_word cls = true →
  forallb not_terminator parent = true → stops not_terminator tail = true →
  ∃ h w',
    exec_at transpile.buildInheritanceIndexViaProto_from pos
      (proto_statement cls parent ++ tail) = Some h
    ∧ m_str h = proto_statement cls parent ++ line_break_of tail
    ∧ transpile.buildInheritanceIndexViaProto h w = Ok ([], w')
    ∧ (truthy (inheritance.getParent (index w) cls) = false → parent ≠ [] →
       inheritance.getParent (index w') cls = JStr parent)
    ∧ (truthy (inheritance.getParent (index w) cls) = true →
       inheritance.getParent (index w') cls = inheritance.getParent (index w) cls)
    ∧ (∀ k, k ≠ cls →
            inheritance.getParent (index w') k = inheritance.getParent (index w) k)
    ∧ internal w' = internal w ∧ console w' = console w.
Proof.
  intros Hc Hcls Hp Hstop. destruct cls as [|x1 cls]; [done|].
  cbn [forallb] in Hcls. apply andb_prop in Hcls as [Hx1 Hcls].
  set (h := Hit_ (proto_statement (x1 :: cls) parent ++ line_break_of tail)
              [None; Some (x1 :: cls); Some parent] pos).
  destruct (link_callback h (x1 :: cls) parent w eq_refl eq_refl)
    as (w' & E & Hl & Hk & Hd & Hco).
  exists h, w'. split; [by apply buildInheritanceIndexViaProto_from_statement|].
  split; [done|]. split; [exact E|]. split.
  { intros Hv Hne. rewrite Hl. destruct parent as [|c p]; [done|].
    cbn [tracked]. by rewrite Hv. }
  split; [|done]. intros Hv. rewrite Hl. by apply tracked_truthy.
Qed.

(** X11.  A link statement written with [Object.assign] that ends its
    line: [Object.assign(], a class name of word characters,
    [.prototype, ], a parent and [.prototype);].  [exec] at the statement
    reports the statement, with the class name and the parent as
    captures, and the callback does what the callback of the other link
    stage does. *)
Theorem buildInheritanceIndexViaObjectAssign_statement
  (w : World) (pos : nat) (cls parent tail : text) :
  cls ≠ [] → forallb is_word cls = true →
  forallb not_terminator parent = true → stops not_terminator tail = true →
  ∃ h w',
    exec_at transpile.buildInheritanceIndexViaObjectAssign_from pos
      (assign_statement cls parent ++ tail) = Some h
    ∧ m_str h = assign_statement cls parent
    ∧ transpile.buildInheritanceIndexViaObjectAssign h w = Ok ([], w')
    ∧ (truthy (inheritance.getParent (index w) cls) = false → parent ≠ [] →
       inheritance.getParent (index w') cls = JStr parent)
    ∧ (truthy (inheritance.getParent (index w) cls) = true →
       inheritance.getParent (index w') cls = inheritance.getParent (index w) cls)
    ∧ (∀ k, k ≠ cls →
            inheritance.getParent (index w') k = inheritance.getParent (index w) k)
    ∧ internal w' = internal w ∧ console w' = console w.
Proof.
  intros Hc Hcls Hp Hstop. destruct cls as [|x1 cls]; [done|].
  cbn [forallb] in Hcls. apply andb_prop in Hcls as [Hx1 Hcls].
  set (h := Hit_ (assign_statement (x1 :: cls) parent)
              [None; Some (x1 :: cls); Some parent] pos).
  destruct (link_callback h (x1 :: cls) parent w eq_refl eq_refl)
    as (w' & E & Hl & Hk & Hd & Hco).
  exists h, w'.
  split; [by apply buildInheritanceIndexViaObjectAssign_from_statement|].
  split; [done|]. split; [exact E|]. split.
  { intros Hv Hne. rewrite Hl. destruct parent as [|c p]; [done|].
    cbn [tracked]. by rewrite Hv. }
  split; [|done]. intros Hv. rewrite Hl. by apply tracked_truthy.
Qed.

(** X12.  The method stage, on every text and in every state: the stage
    returns normally; a match is replaced by the name of the method, but
    stays as it is when that name is [__proto__]; the dependencies and the
    console are untouched; a name the index did not know becomes a class
    without parent when a match other than those for [__proto__] carries
    it, and no other entry changes, so no parent is ever given or
    changed. *)
Theorem methods_stage (s : text) (w : World) :
  ∃ w', replace transpile.methods_from transpile.methods s w
        = Ok (splice_with method_head (pieces transpile.methods_from s), w')
    ∧ internal w' = internal w ∧ console w' = console w
    ∧ (∀ k, inheritance.getParent (index w') k
            = match inheritance.getParent (index w) k with
              | JUndefined =>
                  if existsb (marks k) (matches transpile.methods_from s)
                  then JNull else JUndefined
              | v => v
              end)
    ∧ (∀ h, In h (matches transpile.methods_from s) →
            cap h 2 ≠ str "__proto__" →
            inheritance.isClass (index w') (cap h 1) = true).
Proof.
  set (act := λ h : hit, if bool_decide (cap h 2 = str "__proto__") then None
                         else Some (cap h 1, @None text)).
  assert (Hcb : ∀ h w0, transpile.methods h w0
                 = match act h with
                   | Some (c, q) => (inheritance.track c q ;; ret (method_head h))%js w0
                   | None => Ok (method_head h, w0)
                   end).
  { intros h w0. unfold transpile.methods, method_head, act.
    by case_bool_decide. }
  destruct (track_stage act method_head _ Hcb (pieces transpile.methods_from s) w)
    as (w' & E & Hd & Hc & Hl).
  exists w'. unfold inheritance.getParent, matches.
  split; [done|]. split; [done|]. split; [done|].
  assert (Hfold : ∀ k ms v,
            fold_left (acted act k) ms v
            = match v with
              | JUndefined => if existsb (marks k) ms then JNull else JUndefined
              | v => v
              end).
  { intros k ms. induction ms as [|h ms IH]; intros v; cbn [fold_left existsb].
    - by destruct v.
    - rewrite IH. unfold acted, act, marks.
      case_bool_decide as Hp; cbn [negb]; [by rewrite andb_false_r|].
      rewrite andb_true_r.
      destruct (bool_decide (k = cap h 1)); cbn [orb].
      + destruct v; reflexivity.
      + reflexivity. }
  split.
  { intros k. rewrite Hl, Hfold. by destruct (inheritance.lookup (index w) k). }
  intros h Hh Hp. unfold inheritance.isClass. rewrite Hl, Hfold.
  assert (He : existsb (marks (cap h 1)) (hits (pieces transpile.methods_from s)) = true).
  { apply existsb_exists. exists h. split; [done|]. unfold marks.
    rewrite bool_decide_eq_true_2 by done. by rewrite bool_decide_eq_false_2. }
  rewrite He. by destruct (inheritance.lookup (index w) (cap h 1)).
Qed.

Lemma methods_from_statement pos x1 cls x2 name following :
  is_word x1 = true → forallb is_word cls = true →
  is_word x2 = true → forallb is_word name = true →
  exec_at transpile.methods_from pos
    (method_statement (x1 :: cls) (x2 :: name) ++ following)
  = Some (Hit_ (method_statement (x1 :: cls) (x2 :: name))
            [None; Some (x1 :: cls); Some (x2 :: name)] pos).
Proof.
  intros Hx1 Hcls Hx2 Hname.
  rewrite (exec_at_head _ _ _ following [None; Some (x1 :: cls); Some (x2 :: name)]).
  - f_equal. f_equal. by rewrite length_app, Nat.add_sub, take_app_length.
  - unfold method_statement, transpile.methods_from.
    cbn [p_re p_groups Seqs replicate].
    change (str "ROS3D.") with (str "ROS3D" ++ [46]).
    change (str ".prototype.") with (46 :: str "prototype" ++ [46]).
    rewrite <- !(assoc_L (++)). cbn [app]. rewrite <- ?(assoc_L (++)). cbn [app].
    eapply head_Seq; [apply head_Lit|]. cbn [fst snd].
    eapply head_Seq; [by apply head_Dot|]. cbn [fst snd].
    eapply head_Seq; [by apply head_w_plus|]. cbn [fst snd].
    eapply head_Seq; [by apply head_Dot|]. cbn [fst snd].
    eapply head_Seq; [apply head_Lit|]. cbn [fst snd].
    eapply head_Seq; [by apply head_Dot|]. cbn [fst snd].
    eapply head_Seq; [by apply head_w_plus|]. cbn [fst snd].
    eapply head_Seq; [apply head_Lit|]. done.
Qed.

(** X13.  A method statement: [ROS3D.], a class name, [.prototype.], a
    method name and [ = function], the names made of word characters.
    [exec] at the statement reports it, with the two names as captures.
    The callback returns the method name, and the class name is a class
    afterwards, the parents the index records staying as they are; but
    when the method name is [__proto__] the callback returns the
    statement and changes nothing. *)
Theorem methods_statement
  (w : World) (pos : nat) (cls name following : text) :
  cls ≠ [] → forallb is_word cls = true →
  name ≠ [] → forallb is_word name = true →
  ∃ h, exec_at transpile.methods_from pos (method_statement cls name ++ following)
       = Some h
    ∧ m_str h = method_statement cls name
    ∧ (name = str "__proto__" →
       transpile.methods h w = Ok (method_statement cls name, w))
    ∧ (name ≠ str "__proto__" →
       ∃ w', transpile.methods h w = Ok (name, w')
             ∧ inheritance.isClass (index w') cls = true
             ∧ ∀ k p, inheritance.getParent (index w) k = JStr p →
                      inheritance.getParent (index w') k = JStr p).
Proof.
  intros Hc Hcls Hn Hname.
  destruct cls as [|x1 cls]; [done|]. destruct name as [|x2 name]; [done|].
  cbn [forallb] in Hcls, Hname.
  apply andb_prop in Hcls as [Hx1 Hcls]. apply andb_prop in Hname as [Hx2 Hname].
  set (h := Hit_ (method_statement (x1 :: cls) (x2 :: name))
              [None; Some (x1 :: cls); Some (x2 :: name)] pos).
  exists h. split; [by apply methods_from_statement|]. split; [done|].
  unfold transpile.methods. change (cap h 2) with (x2 :: name).
  change (cap h 1) with (x1 :: cls). split.
  - intros E. by rewrite bool_decide_eq_true_2.
  - intros E. rewrite bool_decide_eq_false_2 by done.
    destruct (track_lookup (x1 :: cls) None w) as (w' & Et & _ & _ & Hl).
    exists w'. unfold bind. rewrite Et. split; [done|]. split.
    + unfold inheritance.isClass. rewrite Hl, bool_decide_eq_true_2 by done.
      by destruct (inheritance.lookup (index w) (x1 :: cls)).
    + intros k p Hk. unfold inheritance.getParent in *. rewrite Hl.
      case_bool_decide as Hkc; [|done]. subst k. by rewrite Hk.
Qed.

(** ** Constructors and superclass calls *)

Lemma constructors_from_statement pos x name ws1 ws2 following :
  is_word x = true → forallb is_word name = true →
  forallb is_space ws1 = true → forallb is_space ws2 = true →
  exec_at transpile.constructors_from pos
    (constructor_statement (x :: name) ws1 ws2 ++ following)
  = Some (Hit_ (constructor_statement (x :: name) ws1 ws2)
            [None; Some (x :: name)] pos).
Proof.
  intros Hx Hname Hws1 Hws2.
  rewrite (exec_at_head _ _ _ following [None; Some (x :: name)]).
  - f_equal. f_equal. by rewrite length_app, Nat.add_sub, take_app_length.
  - unfold constructor_statement, transpile.constructors_from.
    cbn [p_re p_groups Seqs replicate].
    change (str "ROS3D.") with (str "ROS3D" ++ [46]).
    rewrite <- !(assoc_L (++)). cbn [app]. rewrite <- ?(assoc_L (++)). cbn [app].
    eapply head_Seq; [apply head_Lit|]. cbn [fst snd].
    eapply head_Seq; [by apply head_Dot|]. cbn [fst snd].
    eapply head_Seq.
    { apply head_w_plus; [done|done|].
      destruct ws1 as [|s ws1]; [done|]. cbn [forallb] in Hws1.
      apply andb_prop in Hws1 as [Hs _]. cbn [app stops].
      by rewrite (is_space_not_word _ Hs). }
    cbn [fst snd].
    eapply head_Seq; [by apply head_spaces|]. cbn [fst snd].
    eapply head_Seq; [apply head_Chr|]. cbn [fst snd].
    eapply head_Seq; [by apply head_spaces|]. cbn [fst snd].
    eapply head_Seq; [apply head_Lit|]. done.
Qed.

Lemma join_split_from_commas s : ∀ acc,
  join (str ",") (split_from transpile.comma_or_paren 0 acc s)
  = acc ++ map sep_to_comma s.
Proof.
  induction s as [|c s IH]; intros acc; [by rewrite app_nil_r|].
  rewrite split_from_step. cbn [map]. unfold sep_to_comma at 1.
  destruct (is_sep c).
  - rewrite join_cons by apply split_from_nonempty. by rewrite (IH []).
  - rewrite IH. by rewrite <- (assoc_L (++)).
Qed.

Section Calls.
Variable path_basename : text → text → text.

(** X14.  An assignment of a function to a member of the namespace:
    [ROS3D.], a name of word characters, white space or none, [=], white
    space or none, and [function].  [exec] at the assignment reports it,
    with the name as the capture.  The callback returns the constructor
    marker when the index knows the name as a class, and the assignment as
    it is when it does not; it leaves both tables alone. *)
Theorem constructors_statement
  (filepath : text) (w : World) (pos : nat) (name ws1 ws2 following : text) :
  name ≠ [] → forallb is_word name = true →
  forallb is_space ws1 = true → forallb is_space ws2 = true →
  ∃ h w',
    exec_at transpile.constructors_from pos
      (constructor_statement name ws1 ws2 ++ following) = Some h
    ∧ m_str h = constructor_statement name ws1 ws2
    ∧ transpile.constructors path_basename filepath h w
      = Ok (if inheritance.isClass (index w) name then str "constructor"
            else constructor_statement name ws1 ws2, w')
    ∧ index w' = index w ∧ internal w' = internal w.
Proof.
  intros Hn Hname Hws1 Hws2. destruct name as [|x name]; [done|].
  cbn [forallb] in Hname. apply andb_prop in Hname as [Hx Hname].
  set (h := Hit_ (constructor_statement (x :: name) ws1 ws2)
              [None; Some (x :: name)] pos).
  exists h, (add_console
               (class_mismatch (transpile.getFileClass path_basename filepath)
                  filepath (index w) h) w).
  split; [by apply constructors_from_statement|]. split; [done|].
  split; [|done]. rewrite constructors_call. done.
Qed.

(** X15.  The stage of the superclass calls, on every text and in every
    state: the stage returns normally and leaves both tables alone; with
    the parent the index gives the class of the file, a match whose
    reference is that parent becomes a line feed, the white space of the
    match and [super(] the arguments [);], every other match is deleted,
    and the console receives one notice for each deleted match, with the
    matched text, in the order of the text. *)
Theorem parentConstructors_stage (filepath s : text) (w : World) :
  replace transpile.parentConstructors_from
    (transpile.parentConstructors path_basename filepath) s w
  = Ok (splice_with
          (super_call (inheritance.getParent (index w)
                         (transpile.getFileClass path_basename filepath)))
          (pieces transpile.parentConstructors_from s),
        add_console
          (flat_map
             (removal_notice (inheritance.getParent (index w)
                                (transpile.getFileClass path_basename filepath)))
             (matches transpile.parentConstructors_from s)) w).
Proof.
  unfold replace, matches.
  apply (splice_printing _ _ _ (index w) (internal w)); [|done..].
  intros h w0 Hi _.
  unfold transpile.parentConstructors, super_call, removal_notice, bind, gets.
  cbn. rewrite Hi. destruct (str_strict_eq _ _); cbn; [|done].
  by rewrite add_console_nil.
Qed.

End Calls.

(** X16.  The arguments of the rewritten call, for every rest of the
    line.  The rest is cut at every comma and every closing parenthesis,
    the first and the last part are dropped, and the others are joined
    with commas and trimmed.  So, of a rest with two separators or more,
    the arguments are the text between the first and the last separator,
    in which every closing parenthesis has become a comma; what stands
    before the first separator and after the last is dropped; and a rest
    with one separator or none gives no arguments. *)
Theorem super_args_between (p0 mid tail : text) (c1 c2 : N) :
  existsb is_sep p0 = false → existsb is_sep tail = false →
  is_sep c1 = true → is_sep c2 = true →
  transpile.super_args (p0 ++ c1 :: mid ++ c2 :: tail) = trim (map sep_to_comma mid)
  ∧ transpile.super_args (p0 ++ c1 :: tail) = []
  ∧ transpile.super_args (p0 ++ tail) = [].
Proof.
  intros H0 Ht H1 H2. unfold transpile.super_args, split. split_and!.
  - destruct (p0 ++ c1 :: mid ++ c2 :: tail) as [|x r] eqn:E; [by destruct p0|].
    rewrite <- E. rewrite split_from_app by done.
    rewrite split_from_app by done.
    rewrite (split_from_no_sep p0), (split_from_no_sep tail) by done. cbn [app].
    rewrite slice_inner. by rewrite join_split_from_commas.
  - destruct (p0 ++ c1 :: tail) as [|x r] eqn:E; [by destruct p0|].
    rewrite <- E. rewrite split_from_app by done.
    rewrite (split_from_no_sep p0), (split_from_no_sep tail) by done. done.
  - destruct (p0 ++ tail) as [|x r] eqn:E; [done|].
    rewrite <- E. rewrite split_from_no_sep; [done|].
    by rewrite existsb_app, H0, Ht.
Qed.

(** ** The class assembler: header and closing brace *)

Lemma replace_str_line_break r : ∀ m pos,
  splice_str r (scan transpile.line_break pos 0 m)
  = flat_map (λ c, if is_crlf c then r else [c]) m.
Proof.
  induction m as [|c m IH]; intros pos; [done|].
  cbn [scan flat_map]. unfold exec_at.
  cbn [transpile.line_break p_re p_groups rmatch].
  destruct (is_crlf c) eqn:Ec.
  - assert (El : (length (c :: m) - length m = 1)%nat) by (cbn [length]; lia).
    rewrite El. cbn [take m_str length]. unfold splice_str in *.
    cbn [splice_with]. by rewrite IH.
  - unfold splice_str in *. cbn [splice_with]. by rewrite IH.
Qed.

(** The last match a global [replace] finds is the one at the end of the
    text, when the pattern matches the empty text there. *)
Lemma scan_last p h : ∀ s pos skip,
  (skip ≤ length s)%nat →
  (∀ n, exec_at p n [] = Some (Hit_ (m_str h) (m_caps h) n)) →
  ∃ l n, hits (scan p pos skip s) = l ++ [Hit_ (m_str h) (m_caps h) n].
Proof.
  intros s pos skip Hle Hend. revert pos skip Hle.
  induction s as [|c s IH]; intros pos skip Hle.
  - destruct skip; [|cbn in Hle; lia]. cbn [scan]. rewrite Hend.
    by exists [], pos.
  - destruct skip as [|k]; cbn [scan].
    + destruct (exec_at p pos (c :: s)) as [h0|] eqn:E; cbn [hits].
      * apply exec_at_Some in E as (rest & caps & tl & _ & Hs & _).
        destruct (m_str h0) as [|x m] eqn:Em; cbn [length hits].
        -- destruct (IH (S pos) 0%nat) as (l & n & ->); [lia|]. by exists (h0 :: l), n.
        -- destruct (IH (S pos) (length m)) as (l & n & ->).
           { apply (f_equal length) in Hs. rewrite length_app in Hs.
             cbn [length] in Hs. lia. }
           by exists (h0 :: l), n.
      * destruct (IH (S pos) 0%nat) as (l & n & ->); [lia|]. by exists l, n.
    + cbn [length] in Hle. apply IH. lia.
Qed.

Lemma classes_from_last s :
  ∃ l n, matches transpile.classes_from s = l ++ [Hit_ [] [None; None; Some []] n].
Proof.
  apply (scan_last transpile.classes_from (Hit_ [] [None; None; Some []] 0));
    [lia|done].
Qed.

Lemma rmatch_Lit_starts l : ∀ s c,
  rmatch (Lit l) s c = if starts_with l s then [(drop (length l) s, c)] else [].
Proof.
  induction l as [|a l IH]; intros s c; [done|].
  cbn [Lit rmatch starts_with]. destruct s as [|b s]; [done|].
  destruct (b =? a); cbn [flat_map andb fst snd]; [|done].
  rewrite IH, app_nil_r. by destruct (starts_with l s).
Qed.

Lemma starts_with_length l : ∀ s,
  starts_with l s = true → (length l ≤ length s)%nat.
Proof.
  induction l as [|a l IH]; intros s; cbn [starts_with length]; [lia|].
  destruct s as [|b s]; [done|]. intros [_ H]%andb_prop.
  apply IH in H. cbn [length]. lia.
Qed.

Lemma starts_with_app l s : starts_with l (l ++ s) = true.
Proof.
  induction l as [|a l IH]; [done|]. cbn [app starts_with].
  by rewrite N.eqb_refl, IH.
Qed.

Lemma occurs_drop l : ∀ s k,
  starts_with l (drop k s) = true → occurs l s = true.
Proof.
  induction s as [|c s IH]; intros k H.
  - by rewrite drop_nil in H.
  - destruct k as [|k]; cbn [drop occurs] in *.
    + by rewrite H.
    + rewrite (IH k H). apply orb_true_r.
Qed.

(** A match of the first alternative begins with the opening of a
    documentation comment. *)
Lemma classes_from_opening s h :
  In h (matches transpile.classes_from s) →
  defined (group h 1) = true →
  occurs (str "/**") s = true.
Proof.
  intros Hin Hd. apply hits_pieces in Hin as (k & _ & E).
  apply exec_at_Some in E as (rest & caps & tl & E & _ & Hc & _).
  assert (Hin : In (rest, caps)
                  (rmatch (p_re transpile.classes_from) (drop k s)
                     (replicate (S (p_groups transpile.classes_from)) None)))
    by (rewrite E; by left).
  unfold transpile.classes_from in Hin. cbn [p_re p_groups rmatch] in Hin.
  unfold group in Hd. rewrite Hc in Hd.
  apply in_app_iff in Hin as [Hin|Hin].
  - apply in_map_iff in Hin as ([r c] & _ & Hin).
    unfold transpile.classes_open in Hin. cbn [Seqs rmatch] in Hin.
    apply in_flat_map in Hin as (m & Hm & _).
    apply rmatch_Lit in Hm as [Hs _].
    apply (occurs_drop _ _ k). rewrite Hs. apply starts_with_app.
  - assert (Hg : caps !! 1%nat = Some None); [|by rewrite Hg in Hd].
    apply in_app_iff in Hin as [Hin|Hin];
      apply rmatch_captures in Hin as [_ Hin]; rewrite Hin; try reflexivity.
    + replace (groups_of transpile.classes_close) with [2%nat] by reflexivity.
      intros [Hne|Hnil]%elem_of_cons; [discriminate|by apply elem_of_nil in Hnil].
    + apply not_elem_of_nil.
Qed.

Section Assembler.
Variable path_basename : text → text → text.
Variable inherited_text : text → text.

Local Abbreviation classes := (transpile.classes path_basename inherited_text).
Local Abbreviation sweep filepath s w :=
  (calls (classes filepath) (pieces transpile.classes_from s)
     (w, transpile.mkState false false)).

(** X17.  The call that opens the class block, in every state in which
    the open condition holds of the match: the callback returns the
    header, [export class], the class name that [path.basename] gives the
    file, [extends] and the parent when the index records one, an opening
    brace and an empty line, and then, behind one indentation, the match
    with every carriage return and every line feed replaced by a line feed
    and one indentation; it leaves the block open and the tables as they
    were. *)
Theorem classes_header (filepath : text) (h : hit) (w : World) (st : transpile.state) :
  transpile.isStart st h = true →
  classes filepath h (w, st)
  = Ok (str "export class " ++ transpile.getFileClass path_basename filepath
        ++ match inheritance.getParent (index w)
                   (transpile.getFileClass path_basename filepath) with
           | JStr (c :: p) => str " extends " ++ c :: p
           | JInherited k => str " extends " ++ inherited_text k
           | _ => []
           end
        ++ str " {" ++ [LF; LF] ++ indent ++ indent_lines (m_str h),
        (w, transpile.mkState true true)).
Proof.
  intros Hs. rewrite classes_step. unfold sweep_out, sweep_next. rewrite Hs.
  unfold replace_str, pieces, indent_lines. rewrite replace_str_line_break.
  do 2 f_equal. unfold class_header.
  destruct (inheritance.getParent _ _) as [| |[|c p]|k]; cbn [truthy transpile.to_text];
    by rewrite <- ?(assoc_L (++)).
Qed.

(** The state the sweep ends in. *)
Lemma classes_final_state filepath ps : ∀ w st,
  ∃ out, splice (classes filepath) ps (w, st)
         = Ok (out, (w, fold_left sweep_next (hits ps) st)).
Proof.
  induction ps as [|[c|h] ps IH]; intros w st; cbn [splice hits fold_left].
  - by exists [].
  - destruct (IH w st) as [out E]. eexists. unfold bind. by rewrite E.
  - destruct (IH w (sweep_next st h)) as [out E]. eexists.
    unfold bind. by rewrite classes_step, E.
Qed.

(** Opening and closing calls balance, up to the block that is open at
    either end. *)
Lemma classes_calls_balance filepath ps : ∀ w st,
  (transpile.isInClass st = true → transpile.matchedFirstComment st = true) →
  (length (List.filter opened (calls (classes filepath) ps (w, st)))
   + (if transpile.isInClass st then 1 else 0)
   = length (List.filter closed (calls (classes filepath) ps (w, st)))
     + (if transpile.isInClass (fold_left sweep_next (hits ps) st) then 1 else 0))%nat.
Proof.
  induction ps as [|[c|h] ps IH]; intros w st Hinv; cbn [calls hits fold_left].
  - done.
  - by apply IH.
  - rewrite classes_step. cbn [List.filter].
    unfold opened at 1, closed at 1. cbn [fst snd].
    destruct (transpile.isStart st h) eqn:Es; cbn [negb andb].
    + assert (Hi : transpile.isInClass st = false).
      { unfold transpile.isStart in Es. apply andb_prop in Es as [_ Hm].
        destruct (transpile.isInClass st); [|done].
        rewrite Hinv in Hm by done. done. }
      assert (Hn : sweep_next st h = transpile.mkState true true)
        by (unfold sweep_next; by rewrite Es).
      rewrite Hn, Hi. cbn [length].
      specialize (IH w (transpile.mkState true true) (λ _, eq_refl)).
      cbn [transpile.isInClass] in IH. lia.
    + destruct (transpile.isInClass st) eqn:Ei; cbn [andb];
        [destruct (transpile.isFinish h) eqn:Ef; cbn [negb length]|].
      * assert (Hn : sweep_next st h
                     = transpile.mkState false (transpile.matchedFirstComment st))
          by (unfold sweep_next; by rewrite Es, Ei, Ef).
        rewrite Hn.
        specialize (IH w (transpile.mkState false (transpile.matchedFirstComment st))).
        cbn [transpile.isInClass] in IH. specialize (IH ltac:(done)). lia.
      * assert (Hn : sweep_next st h = st)
          by (unfold sweep_next; by rewrite Es, Ei, Ef).
        rewrite Hn. specialize (IH w st). rewrite Ei in IH.
        specialize (IH Hinv). lia.
      * assert (Hn : sweep_next st h = st)
          by (unfold sweep_next; by rewrite Es, Ei).
        rewrite Hn. specialize (IH w st). rewrite Ei in IH.
        specialize (IH Hinv). lia.
Qed.

(** X18.  Every class block is closed.  On every text, the sweep of the
    class assembler from its fresh state returns normally and ends with
    no block open: the last match is the empty one at the end of the
    text, a match of the second alternative, which closes a block that is
    still open.  The calls that close a block are as many as those that
    open one, and each returns a line feed, the closing brace and a line
    feed. *)
Theorem classes_block_closed (filepath s : text) (w : World) :
  ∃ out st',
    replace transpile.classes_from (classes filepath) s
      (w, transpile.mkState false false) = Ok (out, (w, st'))
    ∧ transpile.isInClass st' = false
    ∧ length (List.filter closed (sweep filepath s w))
      = length (List.filter opened (sweep filepath s w))
    ∧ ∀ c, In c (sweep filepath s w) → closed c = true →
           c.2 = LF :: str "}" ++ [LF].
Proof.
  destruct (classes_final_state filepath (pieces transpile.classes_from s) w
              (transpile.mkState false false)) as [out E].
  assert (Hend : transpile.isInClass
                   (fold_left sweep_next (hits (pieces transpile.classes_from s))
                      (transpile.mkState false false)) = false).
  { destruct (classes_from_last s) as (l & n & Hl). unfold matches in Hl.
    rewrite Hl, fold_left_app. cbn [fold_left]. unfold sweep_next.
    replace (transpile.isStart _ (Hit_ [] [None; None; Some []] n)) with false
      by (unfold transpile.isStart; reflexivity).
    destruct (transpile.isInClass (fold_left _ l _)) eqn:Ei; [|done].
    reflexivity. }
  exists out, (fold_left sweep_next (hits (pieces transpile.classes_from s))
                 (transpile.mkState false false)).
  split; [exact E|]. split; [exact Hend|]. split.
  - pose proof (classes_calls_balance filepath (pieces transpile.classes_from s) w
                  (transpile.mkState false false) (λ H, H)) as Hb.
    rewrite Hend in Hb. cbn [transpile.isInClass] in Hb. lia.
  - intros [[[w0 st] h] r] Hin Hc. unfold closed in Hc. cbn [fst snd] in *.
    apply calls_sound in Hin as (_ & s' & s'' & <- & Hcb). cbn [fst snd] in Hcb.
    rewrite classes_step in Hcb. injection Hcb as <- _.
    apply andb_prop in Hc as [Hc Hf]. apply andb_prop in Hc as [Hs Hi].
    apply negb_true_iff in Hs. unfold sweep_out. by rewrite Hs, Hi, Hf.
Qed.

(** X19.  No documentation comment, no class.  On a text in which the
    opening of a documentation comment, a slash and two stars, does not
    occur, the class assembler returns the text as it is: no header, no
    indentation and no closing brace are added, and the state and the
    tables stay as they were. *)
Theorem classes_without_comment (filepath s : text) (w : World) :
  occurs (str "/**") s = false →
  replace transpile.classes_from (classes filepath) s
    (w, transpile.mkState false false)
  = Ok (s, (w, transpile.mkState false false)).
Proof.
  intros Hno. unfold replace. rewrite classes_no_open.
  - by rewrite splice_with_pieces.
  - intros h Hh. destruct (defined (group h 1)) eqn:Hd; [|done].
    by rewrite (classes_from_opening s h Hh Hd) in Hno.
Qed.

(** ** The class assembler: one block *)

(** A call of the sweep: the run is that of the sweep, the state is the
    one the earlier calls left, and what is returned is what
    [sweep_out] gives. *)
Lemma classes_calls_split filepath ps : ∀ w st pre c post,
  calls (classes filepath) ps (w, st) = pre ++ c :: post →
  (c.1.1).1 = w
  ∧ c.1.1.2 = fold_left sweep_next (map (λ c', c'.1.2) pre) st
  ∧ c.2 = sweep_out
            (class_header (transpile.getFileClass path_basename filepath)
               (let parent :=
                  inheritance.getParent (index w)
                    (transpile.getFileClass path_basename filepath) in
                if truthy parent
                then Some (transpile.to_text inherited_text parent) else None))
            c.1.1.2 c.1.2
  ∧ In c.1.2 (hits ps).
Proof.
  induction ps as [|[x|h] ps IH]; intros w st pre c post; cbn [calls hits].
  - by destruct pre.
  - apply IH.
  - rewrite (classes_step path_basename inherited_text). destruct pre as [|c1 pre]; cbn [app].
    + intros [= <- <-]. cbn [fst snd map fold_left]. repeat split. by left.
    + intros [= <- E]. cbn [map fold_left fst snd].
      destruct (IH _ _ _ _ _ E) as (H1 & H2 & H3 & H4).
      repeat split; [done|done|done|by right].
Qed.

Lemma sweep_next_matched st h :
  transpile.matchedFirstComment (sweep_next st h)
  = transpile.matchedFirstComment st || defined (group h 1).
Proof.
  unfold sweep_next, transpile.isStart.
  destruct (defined (group h 1)), (transpile.matchedFirstComment st) eqn:E,
    (transpile.isInClass st), (transpile.isFinish h); cbn; by rewrite ?E.
Qed.

Lemma sweep_next_inside st h :
  transpile.isInClass (sweep_next st h)
  = transpile.isStart st h
    || transpile.isInClass st && negb (transpile.isFinish h).
Proof.
  unfold sweep_next.
  destruct (transpile.isStart st h), (transpile.isInClass st) eqn:E,
    (transpile.isFinish h); cbn; by rewrite ?E.
Qed.

(** The state before a call of the sweep, from the calls before it: a
    comment followed by the constructor marker has been matched when one
    of them was on such a match, and the block is open when one of them
    opened it and none since was on the end. *)
Lemma classes_calls_state filepath s w : ∀ pre c post,
  sweep filepath s w = pre ++ c :: post →
  (transpile.matchedFirstComment c.1.1.2 = true
   ↔ Exists (λ c', defined (group c'.1.2 1) = true) pre)
  ∧ (transpile.isInClass c.1.1.2 = true
     ↔ ∃ pre1 c0 pre2,
         pre = pre1 ++ c0 :: pre2 ∧ opened c0 = true
         ∧ Forall (λ c', transpile.isFinish c'.1.2 = false) pre2).
Proof.
  induction pre as [|cp pre IH] using rev_ind; intros c post E.
  - destruct (classes_calls_split _ _ _ _ _ _ _ E) as (_ & -> & _).
    cbn [map fold_left transpile.matchedFirstComment transpile.isInClass].
    split; split; try done.
    + by intros ?%Exists_nil.
    + intros (pre1 & c0 & pre2 & E0 & _). by destruct pre1.
  - destruct (classes_calls_split _ _ _ _ _ _ _ E) as (_ & Est & _).
    rewrite map_app, fold_left_app in Est. cbn [map fold_left] in Est.
    rewrite <- (assoc_L (++)) in E. cbn [app] in E.
    destruct (classes_calls_split _ _ _ _ _ _ _ E) as (_ & Ep & _).
    rewrite <- Ep in Est. destruct (IH _ _ E) as [IH1 IH2]. rewrite Est.
    rewrite sweep_next_matched, sweep_next_inside. split.
    + rewrite orb_true_iff, IH1, Exists_app, Exists_cons, Exists_nil. tauto.
    + rewrite orb_true_iff, andb_true_iff, negb_true_iff, IH2. split.
      * intros [Hs|[(pre1 & c0 & pre2 & -> & Ho & Hf) Hn]].
        -- exists pre, cp, []. by repeat split.
        -- exists pre1, c0, (pre2 ++ [cp]). rewrite <- (assoc_L (++)).
           repeat split; [done|]. apply Forall_app. split; [done|].
           by repeat constructor.
      * intros (pre1 & c0 & pre2 & E0 & Ho & Hf).
        destruct pre2 as [|cq pre2 _] using rev_ind.
        -- apply (app_inj_tail pre pre1 cp c0) in E0 as [-> ->]. by left.
        -- change (pre1 ++ c0 :: pre2 ++ [cq]) with (pre1 ++ (c0 :: pre2) ++ [cq]) in E0.
           rewrite (assoc_L (++)) in E0.
           apply app_inj_tail in E0 as [-> ->].
           apply Forall_app in Hf as [Hf Hq].
           apply Forall_cons in Hq as [Hq _]. right. split; [|done].
           by exists pre1, c0, pre2.
Qed.


End Assembler.

(** ** The run as a whole *)

Lemma splice_rel {S} (R : S → S → Prop) (cb : hit → M S text) :
  (∀ s, R s s) → (∀ a b c, R a b → R b c → R a c) →
  (∀ h s r s', cb h s = Ok (r, s') → R s s') →
  ∀ ps s out s', splice cb ps s = Ok (out, s') → R s s'.
Proof.
  intros Hrefl Htrans Hcb ps.
  induction ps as [|[c|h] ps IH]; intros s out s'; cbn [splice].
  - intros [= <- <-]. apply Hrefl.
  - intros (o & s1 & E & [= <- <-])%bind_inv. by apply (IH _ _ _ E).
  - intros (r & s1 & E1 & (o & s2 & E2 & [= <- <-])%bind_inv)%bind_inv.
    eapply Htrans; [by eapply Hcb|by eapply IH].
Qed.

Lemma splice_returns {S} (P : S → Prop) (cb : hit → M S text) :
  (∀ h s, P s → ∃ r s', cb h s = Ok (r, s') ∧ P s') →
  ∀ ps s, P s → ∃ out s', splice cb ps s = Ok (out, s') ∧ P s'.
Proof.
  intros Hcb ps. induction ps as [|[c|h] ps IH]; intros s Hs; cbn [splice].
  - by exists [], s.
  - destruct (IH s Hs) as (out & s' & E & Hs'). exists (c :: out), s'.
    unfold bind. by rewrite E.
  - destruct (Hcb h s Hs) as (r & s1 & E1 & Hs1).
    destruct (IH s1 Hs1) as (out & s' & E & Hs'). exists (r ++ out), s'.
    unfold bind. by rewrite E1, E.
Qed.

(** The first match makes a callback throw that throws in the state the
    stage starts in. *)
Lemma splice_throws {S} (cb : hit → M S text) (s : S) e ps :
  (∀ h, cb h s = Throw e) → hits ps ≠ [] → splice cb ps s = Throw e.
Proof.
  intros Hcb. induction ps as [|[c|h] ps IH]; cbn [splice hits]; [done|..].
  - intros H. unfold bind. by rewrite (IH H).
  - intros _. unfold bind. by rewrite Hcb.
Qed.

(** Two runs of a [replace] from related states, with a callback that
    keeps the relation and returns the same text on related states. *)
Lemma splice_same {S} (R : S → S → Prop) (cb : hit → M S text) :
  (∀ h a b r1 r2 a' b',
     R a b → cb h a = Ok (r1, a') → cb h b = Ok (r2, b') → r1 = r2 ∧ R a' b') →
  ∀ ps a b o1 o2 a' b',
    R a b → splice cb ps a = Ok (o1, a') → splice cb ps b = Ok (o2, b') →
    o1 = o2 ∧ R a' b'.
Proof.
  intros Hcb ps. induction ps as [|[c|h] ps IH]; intros a b o1 o2 a' b' HR;
    cbn [splice].
  - by intros [= <- <-] [= <- <-].
  - intros (x1 & a1 & E1 & [= <- <-])%bind_inv (x2 & b1 & E2 & [= <- <-])%bind_inv.
    destruct (IH _ _ _ _ _ _ HR E1 E2) as [-> HR']. done.
  - intros (r1 & a1 & E1 & (x1 & a2 & F1 & [= <- <-])%bind_inv)%bind_inv
           (r2 & b1 & E2 & (x2 & b2 & F2 & [= <- <-])%bind_inv)%bind_inv.
    destruct (Hcb _ _ _ _ _ _ _ HR E1 E2) as [-> HR1].
    destruct (IH _ _ _ _ _ _ HR1 F1 F2) as [-> HR2]. done.
Qed.

Lemma track_same c p a b u1 u2 a' b' :
  index a = index b →
  inheritance.track c p a = Ok (u1, a') → inheritance.track c p b = Ok (u2, b') →
  index a' = index b'.
Proof.
  intros Hi. unfold inheritance.track, bind, gets, when, modify, ret. cbn.
  rewrite Hi. destruct (truthy _ && negb _); cbn.
  - intros [= _ <-] [= _ <-]. cbn. by rewrite Hi.
  - destruct (inheritance.isClass (index b) c); cbn;
      intros [= _ <-] [= _ <-]; cbn; by rewrite ?Hi.
Qed.

Lemma index_wf_lookup idx :
  index_wf idx ↔ ∀ k q, inheritance.lookup idx k = JStr q → q ≠ [].
Proof.
  split.
  - intros Hwf k q Hl. by eapply Hwf, lookup_JStr.
  - intros H k q Hk. apply (H k). unfold inheritance.lookup. by rewrite Hk.
Qed.

Section Pipeline.
Variable path_basename : text → text → text.
Variable inherited_text : text → text.

Local Abbreviation transpileToEs6 := (transpile.transpileToEs6 path_basename inherited_text).

Lemma parentConstructors_effect filepath h w :
  ∃ r ds, transpile.parentConstructors path_basename filepath h w
          = Ok (r, add_console ds w)
          ∧ forallb (notice filepath) ds = true.
Proof.
  unfold transpile.parentConstructors, bind, gets. cbn.
  destruct (str_strict_eq _ _); cbn.
  - eexists _, []. by rewrite add_console_nil.
  - by eexists _, [_].
Qed.

Lemma constructors_effect filepath h w :
  ∃ r ds, transpile.constructors path_basename filepath h w
          = Ok (r, add_console ds w)
          ∧ forallb (notice filepath) ds = true.
Proof.
  rewrite constructors_call. eexists _, _. split; [reflexivity|].
  unfold class_mismatch. destruct (eqb _ _); [done|].
  cbn. by rewrite bool_decide_eq_true_2.
Qed.

(** The pipeline acts on the tables and the console through
    [dependencies.track] for the file, [inheritance.track] and notices
    only. *)
Lemma transpileToEs6_effects (R : World → World → Prop) filepath :
  (∀ w, R w w) → (∀ a b c, R a b → R b c → R a c) →
  (∀ w d u w', dependencies.track filepath d w = Ok (u, w') → R w w') →
  (∀ w c p u w', inheritance.track c p w = Ok (u, w') → R w w') →
  (∀ w d, notice filepath d = true → R w (add_console [d] w)) →
  ∀ s w out w',
    transpileToEs6 s filepath w = Ok (out, w') →
    R (add_console [Processing filepath] w) w'.
Proof.
  intros Hrefl Htrans Hdep Hinh Hnote s w out w'.
  assert (Hnotes : ∀ ds w0, forallb (notice filepath) ds = true →
                            R w0 (add_console ds w0)).
  { induction ds as [|d ds IH]; intros w0 Hds.
    - rewrite add_console_nil. apply Hrefl.
    - cbn [forallb] in Hds. apply andb_prop in Hds as [Hd Hds].
      change (d :: ds) with ([d] ++ ds). rewrite <- add_console_app.
      eapply Htrans; [by apply Hnote|by apply IH]. }
  unfold transpile.transpileToEs6.
  intros (u0 & w0 & [= <- <-] & H)%bind_inv.
  apply bind_inv in H as (t1 & w1 & E1 & H).
  apply bind_inv in H as (t2 & w2 & E2 & H).
  apply bind_inv in H as (t3 & w3 & E3 & H).
  apply bind_inv in H as (t4 & w4 & E4 & H).
  apply bind_inv in H as (t5 & w5 & E5 & H).
  apply bind_inv in H as (t6 & w6 & E6 & H).
  unfold with_state in H.
  destruct (replace transpile.classes_from _ _ _) as [[t7 [w7 st7]]|] eqn:E7; [|done].
  injection H as <- <-.
  apply (splice_rel R) in E1; [|done|done|].
  2:{ intros h s0 r s1 (u & s2 & E & [= <- <-])%bind_inv. by eapply Hdep. }
  apply (splice_rel R) in E2; [|done|done|].
  2:{ intros h s0 r s1 (u & s2 & E & [= <- <-])%bind_inv. by eapply Hinh. }
  apply (splice_rel R) in E3; [|done|done|].
  2:{ intros h s0 r s1 (u & s2 & E & [= <- <-])%bind_inv. by eapply Hinh. }
  apply (splice_rel R) in E4; [|done|done|].
  2:{ intros h s0 r s1. unfold transpile.methods. case_bool_decide.
      - intros [= <- <-]. apply Hrefl.
      - intros (u & s2 & E & [= <- <-])%bind_inv. by eapply Hinh. }
  apply (splice_rel R) in E5; [|done|done|].
  2:{ intros h s0 r s1 E.
      destruct (constructors_effect filepath h s0) as (r' & ds & E' & Hds).
      rewrite E' in E. injection E as <- <-. by apply Hnotes. }
  apply (splice_rel R) in E6; [|done|done|].
  2:{ intros h s0 r s1 E.
      destruct (parentConstructors_effect filepath h s0) as (r' & ds & E' & Hds).
      rewrite E' in E. injection E as <- <-. by apply Hnotes. }
  apply (splice_rel (λ a b : World * transpile.state, R a.1 b.1)) in E7.
  - cbn [fst] in E7.
    eapply Htrans; [exact E1|]. eapply Htrans; [exact E2|].
    eapply Htrans; [exact E3|]. eapply Htrans; [exact E4|].
    eapply Htrans; [exact E5|]. eapply Htrans; [exact E6|]. exact E7.
  - intros a. apply Hrefl.
  - intros a b c. apply Htrans.
  - intros h [s0 st0] r [s1 st1] E. rewrite classes_step in E.
    injection E as _ <- _. apply Hrefl.
Qed.

(** Once the dependency stage has returned, the pipeline returns. *)
Lemma transpileToEs6_later_stages filepath t1 w1 (k : text → M World text) :
  (∀ t w, ∃ out w', k t w = Ok (out, w')) →
  ∃ out w',
    (t2 <- replace transpile.buildInheritanceIndexViaProto_from
             transpile.buildInheritanceIndexViaProto t1 ;;
     t3 <- replace transpile.buildInheritanceIndexViaObjectAssign_from
             transpile.buildInheritanceIndexViaObjectAssign t2 ;;
     t4 <- replace transpile.methods_from transpile.methods t3 ;;
     t5 <- replace transpile.constructors_from
             (transpile.constructors path_basename filepath) t4 ;;
     t6 <- replace transpile.parentConstructors_from
             (transpile.parentConstructors path_basename filepath) t5 ;;
     k t6)%js w1 = Ok (out, w').
Proof.
  intros Hk.
  assert (Htrack : ∀ (cb : hit → M World text),
            (∀ h w, ∃ r w', cb h w = Ok (r, w')) →
            ∀ p t w, ∃ t' w', replace p cb t w = Ok (t', w')).
  { intros cb Hcb p t w.
    destruct (splice_returns (λ _, True) cb) with (ps := pieces p t) (s := w)
      as (out & w' & E & _); [|done|by exists out, w'].
    intros h s _. destruct (Hcb h s) as (r & s' & E). by exists r, s'. }
  destruct (Htrack transpile.buildInheritanceIndexViaProto) with
    (p := transpile.buildInheritanceIndexViaProto_from) (t := t1) (w := w1)
    as (t2 & w2 & E2).
  { intros h w. destruct (track_lookup (cap h 1) (Some (cap h 2)) w) as (w' & E & _).
    exists [], w'. unfold transpile.buildInheritanceIndexViaProto, bind. by rewrite E. }
  destruct (Htrack transpile.buildInheritanceIndexViaObjectAssign) with
    (p := transpile.buildInheritanceIndexViaObjectAssign_from) (t := t2) (w := w2)
    as (t3 & w3 & E3).
  { intros h w. destruct (track_lookup (cap h 1) (Some (cap h 2)) w) as (w' & E & _).
    exists [], w'. unfold transpile.buildInheritanceIndexViaObjectAssign, bind.
    by rewrite E. }
  destruct (Htrack transpile.methods) with
    (p := transpile.methods_from) (t := t3) (w := w3) as (t4 & w4 & E4).
  { intros h w. unfold transpile.methods. case_bool_decide; [by eexists _, _|].
    destruct (track_lookup (cap h 1) None w) as (w' & E & _).
    eexists _, w'. unfold bind. by rewrite E. }
  destruct (Htrack (transpile.constructors path_basename filepath)) with
    (p := transpile.constructors_from) (t := t4) (w := w4) as (t5 & w5 & E5).
  { intros h w. destruct (constructors_effect filepath h w) as (r & ds & E & _).
    by eexists _, _. }
  destruct (Htrack (transpile.parentConstructors path_basename filepath)) with
    (p := transpile.parentConstructors_from) (t := t5) (w := w5) as (t6 & w6 & E6).
  { intros h w. destruct (parentConstructors_effect filepath h w) as (r & ds & E & _).
    by eexists _, _. }
  destruct (Hk t6 w6) as (out & w' & E).
  exists out, w'.
  rewrite (bind_Ok _ _ _ _ _ E2), (bind_Ok _ _ _ _ _ E3), (bind_Ok _ _ _ _ _ E4).
  by rewrite (bind_Ok _ _ _ _ _ E5), (bind_Ok _ _ _ _ _ E6).
Qed.

Lemma classes_stage_returns filepath t w :
  ∃ out w',
    with_state (transpile.mkState false false)
      (replace transpile.classes_from
         (transpile.classes path_basename inherited_text filepath) t) w
    = Ok (out, w').
Proof.
  destruct (classes_assemble path_basename inherited_text filepath
              (pieces transpile.classes_from t) w (transpile.mkState false false))
    as [st' E].
  eexists _, w. unfold with_state, replace. by rewrite E.
Qed.

(** X20.  When the pipeline returns and when it throws.  For a file whose
    name is no member of [Object.prototype] (every path with a slash or
    an extension) the pipeline returns normally on every content and in
    every state.  For a file named like a member of [Object.prototype],
    not yet in the dependency table, it returns normally when the content
    holds no match of the dependency pattern, and throws a [TypeError]
    when it holds one. *)
Theorem transpileToEs6_returns (s filepath : text) (w : World) :
  (inherited filepath = false →
   ∃ out w', transpileToEs6 s filepath w = Ok (out, w'))
  ∧ (inherited filepath = true → internal w !! filepath = None →
     (matches transpile.internalDependencies_from s = [] →
      ∃ out w', transpileToEs6 s filepath w = Ok (out, w'))
     ∧ (matches transpile.internalDependencies_from s ≠ [] →
        transpileToEs6 s filepath w = Throw TypeError)).
Proof.
  unfold transpile.transpileToEs6. split.
  - intros Hf. rewrite (bind_Ok _ _ _ _ _ (log_add _ _)).
    set (t0 := if bool_decide (filepath = str "src/Ros3D.js") then _ else _).
    destruct (internalDependencies_run filepath
                (pieces transpile.internalDependencies_from t0) Hf
                (add_console [Processing filepath] w)) as (w1 & E1 & _).
    unfold replace at 1. rewrite (bind_Ok _ _ _ _ _ E1).
    apply transpileToEs6_later_stages. intros t w0. apply classes_stage_returns.
  - intros Hf Hn.
    assert (Hpath : bool_decide (filepath = str "src/Ros3D.js") = false).
    { apply bool_decide_eq_false_2. intros ->. by vm_compute in Hf. }
    rewrite Hpath. rewrite (bind_Ok _ _ _ _ _ (log_add _ _)). split.
    + intros Hm. rewrite (bind_Ok _ _ _ _ _ (replace_no_hits _ _ _ _ Hm)).
      apply transpileToEs6_later_stages. intros t w0. apply classes_stage_returns.
    + intros Hm. unfold replace at 1, bind at 1.
      rewrite (splice_throws _ _ TypeError); [done| |done].
      intros h. unfold transpile.internalDependencies, dependencies.track,
        bind, gets, when, ret, throw. cbn. by rewrite Hn, Hf.
Qed.

(** X21.  The index over a run: when the pipeline returns, and the
    parents the index recorded were names, then so are the parents it
    records afterwards; what was a class is still a class; and a parent
    that was recorded is still the recorded parent.  The run only adds
    to the index. *)
Theorem transpileToEs6_index_grows (s filepath out : text) (w w' : World) :
  index_wf (index w) →
  transpileToEs6 s filepath w = Ok (out, w') →
  index_wf (index w')
  ∧ (∀ k, inheritance.isClass (index w) k = true →
          inheritance.isClass (index w') k = true)
  ∧ (∀ k p, inheritance.getParent (index w) k = JStr p →
            inheritance.getParent (index w') k = JStr p).
Proof.
  intros Hwf Hrun.
  set (R := λ a b : World,
         index_wf (index a) →
         index_wf (index b)
         ∧ (∀ k, inheritance.lookup (index a) k ≠ JUndefined →
                 inheritance.lookup (index b) k ≠ JUndefined)
         ∧ (∀ k p, inheritance.lookup (index a) k = JStr p →
                   inheritance.lookup (index b) k = JStr p)).
  assert (Hsame : ∀ a b : World, index b = index a → R a b).
  { intros a b E Ha. by rewrite E. }
  assert (HR : R (add_console [Processing filepath] w) w').
  { apply (transpileToEs6_effects R filepath) with (s := s) (out := out);
      [| | | | |done].
    - intros a. by apply Hsame.
    - intros a b c Hab Hbc Ha. destruct (Hab Ha) as (Hb & H1 & H2).
      destruct (Hbc Hb) as (Hc & H3 & H4). split; [done|]. split; auto.
    - intros a d u b E. apply Hsame.
      by destruct (dependencies_track_frame _ _ _ _ _ E) as (_ & _ & ? & _).
    - intros a c p u b E Ha. split; [by eapply track_index_wf|].
      destruct (track_lookup c p a) as (b' & E' & _ & _ & Hl).
      rewrite E' in E. injection E as _ <-.
      split; intros k.
      + rewrite Hl. case_bool_decide as Hk; [|done]. intros _. apply tracked_defined.
      + intros q Hq. rewrite Hl. case_bool_decide as Hk; [|done]. subst k.
        rewrite Hq. apply tracked_truthy.
        pose proof (proj1 (index_wf_lookup _) Ha _ _ Hq) as Hne. by destruct q.
    - intros a d _. by apply Hsame. }
  destruct (HR Hwf) as (Hwf' & Hcls & Hpar).
  split; [done|]. split.
  - intros k. unfold inheritance.isClass. cbn [index add_console] in Hcls.
    specialize (Hcls k).
    destruct (inheritance.lookup (index w) k) eqn:E; try done;
      intros _; destruct (inheritance.lookup (index w') k); try done;
      by destruct Hcls.
  - intros k p. apply Hpar.
Qed.

(** X22.  The dependency table over a run: when the pipeline returns, the
    lists of the other files are as they were; the list of the file is
    the old one with names added at the end, and has no duplicates when
    the old one had none. *)
Theorem transpileToEs6_dependencies_grow (s filepath out : text) (w w' : World) :
  transpileToEs6 s filepath w = Ok (out, w') →
  (∀ g, g ≠ filepath → internal w' !! g = internal w !! g)
  ∧ (∃ l, deps_of (internal w') filepath = deps_of (internal w) filepath ++ l)
  ∧ (NoDup (deps_of (internal w) filepath) → NoDup (deps_of (internal w') filepath)).
Proof.
  intros Hrun.
  set (R := λ a b : World,
         (∀ g, g ≠ filepath → internal b !! g = internal a !! g)
         ∧ (∃ l, deps_of (internal b) filepath = deps_of (internal a) filepath ++ l)
         ∧ (NoDup (deps_of (internal a) filepath) →
            NoDup (deps_of (internal b) filepath))).
  assert (Hsame : ∀ a b : World, internal b = internal a → R a b).
  { intros a b E. unfold R. rewrite E. split; [done|]. split; [|done].
    exists []. by rewrite app_nil_r. }
  apply (transpileToEs6_effects R filepath) with (s := s) (out := out);
    [| | | | |done].
  - intros a. by apply Hsame.
  - intros a b c (H1 & [l1 H2] & H3) (H4 & [l2 H5] & H6).
    split; [intros g Hg; by rewrite H4, H1|].
    split; [|auto]. exists (l1 ++ l2). by rewrite H5, H2, (assoc_L (++)).
  - intros a d u b E.
    destruct (dependencies_track_frame _ _ _ _ _ E) as (Hl & Hg & _ & _).
    assert (Hd : deps_of (internal b) filepath
                 = add_dep (deps_of (internal a) filepath) d).
    { unfold deps_of at 1. by rewrite Hl. }
    split; [done|]. rewrite Hd. split; [|apply add_dep_NoDup].
    unfold add_dep. case_bool_decide; [exists []; by rewrite app_nil_r|by exists [d]].
  - intros a c p u b E. apply Hsame.
    destruct (track_lookup c p a) as (b' & E' & Hd & _).
    rewrite E' in E. by injection E as _ <-.
  - intros a d _. by apply Hsame.
Qed.

(** X23.  What a run prints: when the pipeline returns, the console holds
    what it held, then the line [Processing] with the path of the file,
    then only class mismatch reports for that file and notices of removed
    calls.  With the debug rules as they are, none of the debug lines is
    printed. *)
Theorem transpileToEs6_console (s filepath out : text) (w w' : World) :
  transpileToEs6 s filepath w = Ok (out, w') →
  ∃ ds, console w' = console w ++ Processing filepath :: ds
        ∧ forallb (notice filepath) ds = true.
Proof.
  intros Hrun.
  set (R := λ a b : World,
         ∃ ds, console b = console a ++ ds ∧ forallb (notice filepath) ds = true).
  assert (Hsame : ∀ a b : World, console b = console a → R a b).
  { intros a b E. exists []. by rewrite E, app_nil_r. }
  assert (HR : R (add_console [Processing filepath] w) w').
  { apply (transpileToEs6_effects R filepath) with (s := s) (out := out);
      [| | | | |done].
    - intros a. by apply Hsame.
    - intros a b c (l1 & H1 & H2) (l2 & H3 & H4). exists (l1 ++ l2).
      rewrite H3, H1, (assoc_L (++)). split; [done|].
      rewrite forallb_app. by rewrite H2, H4.
    - intros a d u b E. apply Hsame.
      by destruct (dependencies_track_frame _ _ _ _ _ E) as (_ & _ & _ & ?).
    - intros a c p u b E. apply Hsame.
      destruct (track_lookup c p a) as (b' & E' & _ & Hc & _).
      rewrite E' in E. by injection E as _ <-.
    - intros a d Hd. exists [d]. split; [done|]. cbn. by rewrite Hd. }
  destruct HR as (ds & E & Hds). exists ds. split; [|done].
  rewrite E. cbn [console add_console]. by rewrite <- (assoc_L (++)).
Qed.

(** X24.  What a run reads.  The text the pipeline returns and the
    index it leaves depend on the content, the path of the file and the
    index it starts from: two runs that start from the same index, whatever
    the dependency tables and the consoles, return the same text and leave
    the same index. *)
Theorem transpileToEs6_reads_index_only
  (s filepath out1 out2 : text) (w1 w2 w1' w2' : World) :
  index w1 = index w2 →
  transpileToEs6 s filepath w1 = Ok (out1, w1') →
  transpileToEs6 s filepath w2 = Ok (out2, w2') →
  out1 = out2 ∧ index w1' = index w2'.
Proof.
  intros Hi.
  set (R := λ a b : World, index a = index b).
  assert (Cdep : ∀ h a b r1 r2 a' b', R a b →
            transpile.internalDependencies filepath h a = Ok (r1, a') →
            transpile.internalDependencies filepath h b = Ok (r2, b') →
            r1 = r2 ∧ R a' b').
  { intros h a b r1 r2 a' b' HR
      (u & a2 & Ea & [= <- <-])%bind_inv (v & b2 & Eb & [= <- <-])%bind_inv.
    split; [done|]. unfold R in *.
    destruct (dependencies_track_frame _ _ _ _ _ Ea) as (_ & _ & -> & _).
    by destruct (dependencies_track_frame _ _ _ _ _ Eb) as (_ & _ & -> & _). }
  assert (Clink : ∀ h a b r1 r2 a' b', R a b →
            (inheritance.track (cap h 1) (Some (cap h 2)) ;; ret (@nil N))%js a
            = Ok (r1, a') →
            (inheritance.track (cap h 1) (Some (cap h 2)) ;; ret (@nil N))%js b
            = Ok (r2, b') →
            r1 = r2 ∧ R a' b').
  { intros h a b r1 r2 a' b' HR
      (u & a2 & Ea & [= <- <-])%bind_inv (v & b2 & Eb & [= <- <-])%bind_inv.
    split; [done|]. by eapply track_same. }
  assert (Cmeth : ∀ h a b r1 r2 a' b', R a b →
            transpile.methods h a = Ok (r1, a') →
            transpile.methods h b = Ok (r2, b') →
            r1 = r2 ∧ R a' b').
  { intros h a b r1 r2 a' b' HR. unfold transpile.methods. case_bool_decide.
    - by intros [= <- <-] [= <- <-].
    - intros (u & a5 & Ea & [= <- <-])%bind_inv (v & b5 & Eb & [= <- <-])%bind_inv.
      split; [done|]. by eapply track_same. }
  assert (Ccons : ∀ h a b r1 r2 a' b', R a b →
            transpile.constructors path_basename filepath h a = Ok (r1, a') →
            transpile.constructors path_basename filepath h b = Ok (r2, b') →
            r1 = r2 ∧ R a' b').
  { intros h a b r1 r2 a' b' HR. rewrite !constructors_call.
    intros [= <- <-] [= <- <-]. unfold R in *. cbn [index add_console].
    by rewrite HR. }
  assert (Cpar : ∀ h a b r1 r2 a' b', R a b →
            transpile.parentConstructors path_basename filepath h a = Ok (r1, a') →
            transpile.parentConstructors path_basename filepath h b = Ok (r2, b') →
            r1 = r2 ∧ R a' b').
  { intros h a b r1 r2 a' b' HR.
    unfold transpile.parentConstructors, bind, gets. cbn. unfold R in HR.
    rewrite HR. destruct (str_strict_eq _ _); cbn; intros [= <- <-] [= <- <-]; done. }
  assert (Ccls : ∀ h (a b : World * transpile.state) r1 r2 a' b',
            R a.1 b.1 ∧ a.2 = b.2 →
            transpile.classes path_basename inherited_text filepath h a = Ok (r1, a') →
            transpile.classes path_basename inherited_text filepath h b = Ok (r2, b') →
            r1 = r2 ∧ R a'.1 b'.1 ∧ a'.2 = b'.2).
  { intros h [a st] [b st'] r1 r2 a' b' [HR Hst]. cbn [fst snd] in HR, Hst.
    subst st'. rewrite !classes_step. intros [= <- <-] [= <- <-].
    unfold R in HR. by rewrite HR. }
  unfold transpile.transpileToEs6.
  set (t0 := if bool_decide (filepath = str "src/Ros3D.js") then _ else _).
  intros (u1 & a0 & [= <- <-] & H1)%bind_inv (u2 & b0 & [= <- <-] & H2)%bind_inv.
  assert (H0 : R (add_console [Processing filepath] w1)
                 (add_console [Processing filepath] w2)) by exact Hi.
  apply bind_inv in H1 as (x1 & a1 & E1 & H1).
  apply bind_inv in H2 as (y1 & b1 & F1 & H2).
  destruct (splice_same R _ Cdep _ _ _ _ _ _ _ H0 E1 F1) as [-> HR1].
  apply bind_inv in H1 as (x2 & a2 & E2 & H1).
  apply bind_inv in H2 as (y2 & b2 & F2 & H2).
  destruct (splice_same R _ Clink _ _ _ _ _ _ _ HR1 E2 F2) as [-> HR2].
  apply bind_inv in H1 as (x3 & a3 & E3 & H1).
  apply bind_inv in H2 as (y3 & b3 & F3 & H2).
  destruct (splice_same R _ Clink _ _ _ _ _ _ _ HR2 E3 F3) as [-> HR3].
  apply bind_inv in H1 as (x4 & a4 & E4 & H1).
  apply bind_inv in H2 as (y4 & b4 & F4 & H2).
  destruct (splice_same R _ Cmeth _ _ _ _ _ _ _ HR3 E4 F4) as [-> HR4].
  apply bind_inv in H1 as (x5 & a5 & E5 & H1).
  apply bind_inv in H2 as (y5 & b5 & F5 & H2).
  destruct (splice_same R _ Ccons _ _ _ _ _ _ _ HR4 E5 F5) as [-> HR5].
  apply bind_inv in H1 as (x6 & a6 & E6 & H1).
  apply bind_inv in H2 as (y6 & b6 & F6 & H2).
  destruct (splice_same R _ Cpar _ _ _ _ _ _ _ HR5 E6 F6) as [-> HR6].
  unfold with_state in H1, H2.
  destruct (replace transpile.classes_from _ _ (a6, _)) as [[o1 [a7 st1]]|] eqn:E7;
    [|done].
  destruct (replace transpile.classes_from _ _ (b6, _)) as [[o2 [b7 st2]]|] eqn:F7;
    [|done].
  injection H1 as <- <-. injection H2 as <- <-.
  destruct (splice_same (λ a b : World * transpile.state, R a.1 b.1 ∧ a.2 = b.2)
              _ Ccls _ (a6, transpile.mkState false false)
              (b6, transpile.mkState false false) _ _ _ _
              (conj HR6 eq_refl) E7 F7) as [-> [HR7 _]].
  done.
Qed.

End Pipeline.

(** ** The pair for the exported properties *)

Lemma exec_at_exported pos s :
  exec_at transpile.exportedProperites_from pos s
  = if starts_with (LF :: str "ROS3D.") s
    then Some (Hit_ (take 7 s) [None] pos) else None.
Proof.
  unfold exec_at, transpile.exportedProperites_from. cbn [p_re p_groups replicate].
  rewrite rmatch_Lit_starts.
  destruct (starts_with (LF :: str "ROS3D.") s) eqn:E; [|done].
  f_equal. f_equal. rewrite length_drop.
  apply starts_with_length in E.
  f_equal. change (length (LF :: str "ROS3D.")) with 7%nat in *. lia.
Qed.

(** Up to its first line feed, the text the replacement builds is the
    text it was given. *)
Lemma exported_prefix u : ¬ In LF u → ∀ s pos,
  starts_with u
    (splice_str transpile.exportedProperites_to (scan transpile.exportedProperites_from pos 0 s))
  = starts_with u s.
Proof.
  induction u as [|a u IH]; intros Hu s pos; [done|].
  assert (Ha : a ≠ LF) by (intros ->; apply Hu; by left).
  assert (Hu' : ¬ In LF u) by (intros H; apply Hu; by right).
  destruct s as [|c s]; cbn [scan]; rewrite exec_at_exported.
  - done.
  - destruct (starts_with (LF :: str "ROS3D.") (c :: s)) eqn:E.
    + unfold splice_str. cbn [splice_with]. cbn [starts_with] in E.
      apply andb_prop in E as [Ec _]. apply N.eqb_eq in Ec as ->.
      cbn [transpile.exportedProperites_to app starts_with].
      by replace (LF =? a) with false by (symmetry; by apply N.eqb_neq).
    + unfold splice_str in *. cbn [splice_with starts_with].
      by rewrite IH.
Qed.

Lemma exported_clean : ∀ s pos k j,
  starts_with (LF :: str "ROS3D.")
    (drop j (splice_str transpile.exportedProperites_to
               (scan transpile.exportedProperites_from pos k s)))
  = false.
Proof.
  assert (Hto : ∀ t, (∀ j, starts_with (LF :: str "ROS3D.") (drop j t) = false) →
            ∀ j, starts_with (LF :: str "ROS3D.")
                   (drop j (transpile.exportedProperites_to ++ t)) = false).
  { intros t Ht j.
    do 14 (destruct j as [|j]; [reflexivity|]).
    change (drop (S (S (S (S (S (S (S (S (S (S (S (S (S (S j))))))))))))))
              (transpile.exportedProperites_to ++ t)) with (drop j t).
    apply Ht. }
  induction s as [|c s IH]; intros pos k j.
  - destruct k; cbn [scan]; [rewrite exec_at_exported|]; by destruct j.
  - destruct k as [|k]; cbn [scan]; [|apply IH].
    rewrite exec_at_exported.
    destruct (starts_with (LF :: str "ROS3D.") (c :: s)) eqn:E.
    + unfold splice_str. cbn [splice_with].
      assert (El : length (take 7 (c :: s)) = 7%nat).
      { apply starts_with_length in E.
        change (length (LF :: str "ROS3D.")) with 7%nat in E.
        rewrite length_take. lia. }
      cbn [m_str]. rewrite El. apply Hto. intros j'. apply IH.
    + unfold splice_str. cbn [splice_with]. destruct j as [|j]; [|apply IH].
      cbn [drop starts_with]. destruct (c =? LF) eqn:Ec; [|done].
      cbn [andb]. fold (splice_str transpile.exportedProperites_to
                          (scan transpile.exportedProperites_from (S pos) 0 s)).
      rewrite exported_prefix by (by vm_compute; intuition discriminate).
      apply N.eqb_eq in Ec as ->. exact E.
Qed.

Lemma scan_no_match p : ∀ t pos k,
  (∀ j, exec_at p 0 (drop j t) = None) → hits (scan p pos k t) = [].
Proof.
  induction t as [|c t IH]; intros pos k Hno.
  - destruct k; cbn [scan]; [|done].
    pose proof (exec_at_None p 0 pos _ (Hno 0%nat)) as E. cbn [drop] in E.
    by rewrite E.
  - assert (Ht : ∀ j, exec_at p 0 (drop j t) = None) by (intros j; apply (Hno (S j))).
    destruct k as [|k]; cbn [scan]; [|by apply IH].
    pose proof (exec_at_None p 0 pos _ (Hno 0%nat)) as E. cbn [drop] in E.
    rewrite E. cbn [hits]. by apply IH.
Qed.

(** X25.  The pair for the exported properties, which puts
    [export const ] where a line begins with [ROS3D.]: in the text the
    replacement builds no line feed is followed by [ROS3D.] any more, so
    the pattern does not match in it and a second replacement gives the
    same text. *)
Theorem exportedProperites_once (s : text) :
  matches transpile.exportedProperites_from
    (replace_str transpile.exportedProperites_from transpile.exportedProperites_to s) = []
  ∧ replace_str transpile.exportedProperites_from transpile.exportedProperites_to
      (replace_str transpile.exportedProperites_from
         transpile.exportedProperites_to s)
    = replace_str transpile.exportedProperites_from transpile.exportedProperites_to s.
Proof.
  assert (Hm : matches transpile.exportedProperites_from
                 (replace_str transpile.exportedProperites_from
                    transpile.exportedProperites_to s) = []).
  { unfold matches, pieces. apply scan_no_match. intros j.
    rewrite exec_at_exported. unfold replace_str, pieces.
    by rewrite exported_clean. }
  split; [done|].
  unfold replace_str at 1. unfold splice_str.
  rewrite (splice_with_no_hits _ _ Hm). apply splice_with_pieces.
Qed.

(** ** Places where a text begins *)

Lemma may_start_app l : ∀ s r,
  may_start l s = false → starts_with l (s ++ r) = false.
Proof.
  induction l as [|a l IH]; intros s r; [by destruct s|].
  destruct s as [|b s]; cbn [may_start app starts_with]; [done|].
  destruct (b =? a); cbn [andb]; [apply IH|done].
Qed.

Lemma starts_with_app_inv l : ∀ u r,
  starts_with l (u ++ r) = true →
  starts_with l u = true ∨ ∃ x r', r = x :: r' ∧ In x l.
Proof.
  induction l as [|a l IH]; intros u r; [by left|].
  destruct u as [|b u]; cbn [app starts_with].
  - destruct r as [|x r]; [done|]. intros [Hx _]%andb_prop.
    apply N.eqb_eq in Hx as ->. right. exists a, r. split; [done|by left].
  - intros [Hb H]%andb_prop. rewrite Hb. cbn [andb].
    destruct (IH _ _ H) as [Hu|(x & r' & -> & Hx)]; [by left|].
    right. exists x, r'. split; [done|by right].
Qed.

Lemma starts_with_prefix l l' : ∀ s,
  starts_with (l ++ l') s = true → starts_with l s = true.
Proof.
  induction l as [|a l IH]; intros s; [done|].
  destruct s as [|b s]; cbn [app starts_with]; [done|].
  intros [-> H]%andb_prop. cbn [andb]. by apply IH.
Qed.

Lemma starts_with_inside pre l post : ∀ s,
  starts_with (pre ++ l ++ post) s = true →
  starts_with l (drop (length pre) s) = true.
Proof.
  induction pre as [|a pre IH]; intros s; cbn [app length drop].
  - apply starts_with_prefix.
  - destruct s as [|b s]; cbn [starts_with]; [done|].
    intros [_ H]%andb_prop. by apply IH.
Qed.

Lemma occurs_false l : ∀ s, occurs l s = false → starts_with l s = false.
Proof.
  intros [|x s]; cbn [occurs]; [done|]. by intros [H _]%orb_false_elim.
Qed.

Lemma occurs_false_tail l x s : occurs l (x :: s) = false → occurs l s = false.
Proof. cbn [occurs]. by intros [_ H]%orb_false_elim. Qed.

Lemma occurs_app_l l : ∀ a b, occurs l (a ++ b) = false → occurs l a = false.
Proof.
  induction a as [|x a IH]; intros b H.
  - cbn [app] in H. apply occurs_false in H. destruct l; [|done].
    by destruct b.
  - cbn [app occurs] in *. apply orb_false_elim in H as [H1 H2].
    rewrite (IH _ H2), orb_false_r.
    destruct (starts_with l (x :: a)) eqn:E; [|done].
    assert (Hs : starts_with l ((x :: a) ++ b) = true).
    { clear -E. revert E. generalize (x :: a). induction l as [|c l IHl]; [done|].
      intros [|d u]; cbn [app starts_with]; [done|].
      intros [-> H]%andb_prop. cbn [andb]. by apply IHl. }
    cbn [app] in Hs. by rewrite Hs in H1.
Qed.

Lemma occurs_app_r l : ∀ a b, occurs l (a ++ b) = false → occurs l b = false.
Proof.
  induction a as [|x a IH]; intros b H; [done|].
  apply IH. by apply occurs_false_tail in H.
Qed.

(** ** Quiet and mute parts of a text *)

Lemma quiet_app l a : ∀ b r,
  quiet l a (b ++ r) → quiet l b r → quiet l (a ++ b) r.
Proof.
  induction a as [|x a IH]; intros b r Ha Hb; [done|].
  cbn [app quiet] in *. destruct Ha as [H1 H2].
  split; [by rewrite <- (assoc_L (++))|by apply IH].
Qed.

Lemma quiet_fixed l a r : no_start l a = true → quiet l a r.
Proof.
  induction a as [|x a IH]; [done|]. cbn [no_start quiet].
  intros [H1 H2]%andb_prop. apply negb_true_iff in H1.
  split; [by apply may_start_app|by apply IH].
Qed.

(** A part in which [l] does not occur, followed by a character that is
    not one of [l] or by nothing. *)
Lemma quiet_free l a r :
  occurs l a = false →
  match r with [] => True | x :: _ => ¬ In x l end →
  quiet l a r.
Proof.
  intros Ho Hr. induction a as [|x a IH]; [done|]. cbn [quiet]. split.
  - destruct (starts_with l ((x :: a) ++ r)) eqn:E; [|done].
    apply starts_with_app_inv in E as [E|(y & r' & -> & Hy)].
    + by rewrite (occurs_false _ _ Ho) in E.
    + done.
  - apply IH. by apply occurs_false_tail in Ho.
Qed.

Lemma quiet_unlines l ls r :
  ¬ In LF l → l ≠ [] →
  Forall (λ a, occurs l a = false) ls → quiet l (unlines ls) r.
Proof.
  intros Hlf Hne H. induction H as [|a ls Ha _ IH]; [done|].
  unfold unlines. cbn [flat_map]. rewrite <- (assoc_L (++)).
  apply quiet_app; [by apply quiet_free|].
  cbn [app quiet]. split; [|exact IH].
  destruct l as [|c l]; [done|]. cbn [starts_with].
  destruct (LF =? c) eqn:E; [|done]. apply N.eqb_eq in E as <-.
  exfalso. apply Hlf. by left.
Qed.

Lemma quiet_silent l t :
  l ≠ [] → quiet l t [] → ∀ j, starts_with l (drop j t) = false.
Proof.
  intros Hne. induction t as [|x t IH]; intros H j.
  - rewrite drop_nil. by destruct l.
  - cbn [quiet] in H. destruct H as [H1 H2]. rewrite app_nil_r in H1.
    destruct j as [|j]; [done|]. cbn [drop]. by apply IH.
Qed.

(** A text in which a part of [l'] begins nowhere holds no [l']. *)
Lemma silent_inside pre l post t :
  (∀ j, starts_with l (drop j t) = false) →
  ∀ j, starts_with (pre ++ l ++ post) (drop j t) = false.
Proof.
  intros H j. destruct (starts_with _ _) eqn:E; [|done].
  apply starts_with_inside in E. rewrite drop_drop in E. by rewrite H in E.
Qed.

Lemma mute_app p a : ∀ b r,
  mute p a (b ++ r) → mute p b r → mute p (a ++ b) r.
Proof.
  induction a as [|x a IH]; intros b r Ha Hb; [done|].
  cbn [app mute] in *. destruct Ha as [H1 H2].
  split; [by rewrite <- (assoc_L (++))|by apply IH].
Qed.

Lemma exec_at_trigger p l r pos s :
  p_re p = Seq (Lit l) r → starts_with l s = false → exec_at p pos s = None.
Proof.
  intros Hp Hs. unfold exec_at. rewrite Hp. cbn [rmatch].
  by rewrite rmatch_Lit_starts, Hs.
Qed.

Lemma mute_quiet p l l' r0 a r :
  p_re p = Seq (Lit (l ++ l')) r0 → quiet l a r → mute p a r.
Proof.
  intros Hp. induction a as [|x a IH]; [done|]. cbn [quiet mute].
  intros [H1 H2]. split; [|by apply IH].
  apply (exec_at_trigger p _ _ _ _ Hp).
  destruct (starts_with (l ++ l') _) eqn:E; [|done].
  apply starts_with_prefix in E. by rewrite H1 in E.
Qed.

Lemma mute_drop p t : mute p t [] → exec_at p 0 [] = None →
  ∀ j, exec_at p 0 (drop j t) = None.
Proof.
  intros H Hend. induction t as [|x t IH]; intros j.
  - by rewrite drop_nil.
  - cbn [mute] in H. destruct H as [H1 H2]. rewrite app_nil_r in H1.
    destruct j as [|j]; [done|]. cbn [drop]. by apply IH.
Qed.

Lemma matches_mute p t :
  mute p t [] → exec_at p 0 [] = None → matches p t = [].
Proof.
  intros H Hend. unfold matches, pieces. apply scan_no_match. by apply mute_drop.
Qed.

Lemma replace_mute {S} p (cb : hit → M S text) t (s : S) :
  mute p t [] → exec_at p 0 [] = None → replace p cb t s = Ok (t, s).
Proof. intros H Hend. by apply replace_no_hits, matches_mute. Qed.

(** ** The loop of [replace] over the parts of a text *)

Lemma scan_mute p a : ∀ r pos,
  mute p a r → scan p pos 0 (a ++ r) = map Keep a ++ scan p (pos + length a) 0 r.
Proof.
  induction a as [|x a IH]; intros r pos H.
  - cbn [app map length]. by rewrite Nat.add_0_r.
  - cbn [mute app] in H. destruct H as [H1 H2].
    cbn [app scan]. rewrite (exec_at_None _ _ pos _ H1).
    cbn [map app length]. f_equal. rewrite (IH _ _ H2). f_equal. f_equal. lia.
Qed.

Lemma scan_skip p a : ∀ r pos,
  scan p pos (length a) (a ++ r) = scan p (pos + length a) 0 r.
Proof.
  induction a as [|x a IH]; intros r pos.
  - cbn [app length]. by rewrite Nat.add_0_r.
  - cbn [app length scan]. rewrite IH. f_equal. lia.
Qed.

Lemma scan_hit p h x m r pos :
  exec_at p pos (x :: m ++ r) = Some h → m_str h = x :: m →
  scan p pos 0 (x :: m ++ r) = Match h :: scan p (pos + length (x :: m)) 0 r.
Proof.
  intros E Hm. cbn [scan]. rewrite E, Hm. cbn [length]. f_equal.
  rewrite scan_skip. f_equal. lia.
Qed.

Lemma scan_end p pos : exec_at p 0 [] = None → scan p pos 0 [] = [].
Proof. intros H. cbn [scan]. by rewrite (exec_at_None _ _ pos _ H). Qed.

Lemma scan_mute_end p a pos :
  mute p a [] → exec_at p 0 [] = None → scan p pos 0 a = map Keep a.
Proof.
  intros H Hend. rewrite <- (app_nil_r a) at 1.
  rewrite (scan_mute _ _ _ _ H), (scan_end _ _ Hend). by rewrite app_nil_r.
Qed.

Lemma hits_Keep l : hits (map Keep l) = [].
Proof. by induction l. Qed.

Lemma hits_app ps qs : hits (ps ++ qs) = hits ps ++ hits qs.
Proof.
  induction ps as [|[c|h] ps IH]; cbn [app hits]; [done|done|by rewrite IH].
Qed.

Lemma splice_with_app f ps qs :
  splice_with f (ps ++ qs) = splice_with f ps ++ splice_with f qs.
Proof.
  induction ps as [|[c|h] ps IH]; cbn [app splice_with]; [done|by rewrite IH|].
  by rewrite IH, (assoc_L (++)).
Qed.

(** A stage that finds its pattern once. *)
Lemma replace_once {S} p (cb : hit → M S text) a h x m b r (s s' : S) :
  mute p a (x :: m ++ b) →
  exec_at p (length a) (x :: m ++ b) = Some h → m_str h = x :: m →
  mute p b [] → exec_at p 0 [] = None →
  cb h s = Ok (r, s') →
  replace p cb (a ++ x :: m ++ b) s = Ok (a ++ r ++ b, s').
Proof.
  intros Ha E Hm Hb Hend Hcb. unfold replace, pieces.
  rewrite (scan_mute _ _ _ _ Ha). cbn [Nat.add].
  rewrite (scan_hit _ _ _ _ _ _ E Hm), (scan_mute_end _ _ _ Hb Hend).
  rewrite (splice_once cb _ h r s s'); [|by rewrite hits_app, hits_Keep; cbn [app hits]; rewrite hits_Keep|done].
  rewrite splice_with_app, splice_with_Keep. cbn [splice_with].
  by rewrite splice_with_Keep.
Qed.

(** ** The stages at the statements of another stage *)

Lemma rmatch_Lit_app l r s c :
  rmatch (Seq (Lit l) r) (l ++ s) c = rmatch r s c.
Proof.
  cbn [rmatch]. rewrite rmatch_Lit_starts, starts_with_app, drop_app_length.
  cbn [flat_map fst snd]. apply app_nil_r.
Qed.

Lemma rmatch_Lit_fails l r s c :
  starts_with l s = false → rmatch (Seq (Lit l) r) s c = [].
Proof. intros H. cbn [rmatch]. by rewrite rmatch_Lit_starts, H. Qed.

Lemma rmatch_Dot_cons r x s c :
  not_terminator x = true → rmatch (Seq Dot r) (x :: s) c = rmatch r s c.
Proof.
  unfold not_terminator. intros Hx%negb_true_iff. cbn [rmatch].
  rewrite Hx. cbn [flat_map fst snd]. apply app_nil_r.
Qed.

Lemma flat_map_nil {A B} (f : A → list B) l :
  Forall (λ y, f y = []) l → flat_map f l = [].
Proof. induction 1 as [|y l Hy _ IH]; [done|]. cbn. by rewrite Hy, IH. Qed.

Lemma backtracks_suffix run tail c y :
  In y (backtracks run tail c) → ∃ v u, run = v ++ u ∧ y = (u ++ tail, c).
Proof.
  induction run as [|a run IH]; cbn [backtracks].
  - intros [<-|[]]. by exists [], [].
  - intros [Hin|[<-|[]]]%in_app_iff.
    + destruct (IH Hin) as (v & u & -> & ->). by exists (a :: v), u.
    + by exists [], (a :: run).
Qed.

(** After the name, every way the name can end is refused. *)
Lemma after_word_fails r i x w rest c :
  is_word x = true → forallb is_word w = true → stops is_word rest = true →
  Forall (λ u, ∀ c', rmatch r (u ++ rest) c' = [])
    (map (λ j, drop j w) (seq 0 (S (length w)))) →
  rmatch (Seq (Group i w_plus) r) (x :: w ++ rest) c = [].
Proof.
  intros Hx Hw Hstop Hr. cbn [rmatch]. apply flat_map_nil, Forall_forall.
  intros y Hy%list_elem_of_In%in_map_iff. destruct Hy as (y0 & <- & Hy0).
  unfold w_plus in Hy0. rewrite rmatch_Cls_plus in Hy0 by done.
  apply backtracks_suffix in Hy0 as (v & u & -> & ->). cbn [fst snd].
  rewrite Forall_forall in Hr. apply Hr.
  apply list_elem_of_In, in_map_iff. exists (length v).
  split; [by rewrite drop_app_length|].
  apply in_seq. rewrite length_app. lia.
Qed.

Lemma is_word_not_terminator x : is_word x = true → not_terminator x = true.
Proof.
  unfold is_word, not_terminator, is_line_terminator, LF, CR, LS, PS.
  intros H. apply negb_true_iff.
  repeat (apply orb_false_intro); apply N.eqb_neq; intros ->; done.
Qed.

Lemma forallb_word_not_terminator w :
  forallb is_word w = true → forallb not_terminator w = true.
Proof.
  rewrite !forallb_forall. intros H x Hx. by apply is_word_not_terminator, H.
Qed.

(** The dependency stage passes over a reference that [=] follows on its
    line. *)
Lemma internalDependencies_from_assigned pos x w rest :
  is_word x = true → forallb is_word w = true → stops is_word rest = true →
  In 61 (line_rest rest) →
  exec_at transpile.internalDependencies_from pos (str "ROS3D." ++ x :: w ++ rest)
  = None.
Proof.
  intros Hx Hw Hstop Heq. unfold exec_at.
  replace (rmatch _ _ _) with (@nil (text * captures)); [done|]. symmetry.
  unfold transpile.internalDependencies_from. cbn [p_re p_groups Seqs].
  rewrite rmatch_Lit_app. apply after_word_fails; try done.
  apply Forall_forall. intros u Hu%list_elem_of_In%in_map_iff c'.
  destruct Hu as (j & <- & _). cbn [rmatch].
  destruct (rmatch transpile.equals_ahead (drop j w ++ rest) c') eqn:E; [|done].
  exfalso. apply (lookahead_no_equals _ _ E).
  rewrite line_rest_app.
  - apply in_app_iff. by right.
  - apply forallb_word_not_terminator.
    rewrite <- (take_drop j w), forallb_app in Hw. by apply andb_prop in Hw as [_ Hw].
Qed.

(** A literal made of a word and a character that is no word character
    begins a text made of a word and such a character only when the two
    words are the same. *)
Lemma starts_with_word l : ∀ m x l' y r,
  forallb is_word l = true → forallb is_word m = true →
  is_word x = false → is_word y = false →
  starts_with (l ++ x :: l') (m ++ y :: r) = true → m = l.
Proof.
  induction l as [|a l IH]; intros m x l' y r Hl Hm Hx Hy.
  - destruct m as [|b m]; [done|]. cbn [app starts_with forallb] in *.
    intros [Hb _]%andb_prop. apply N.eqb_eq in Hb as ->.
    apply andb_prop in Hm as [Hm _]. by rewrite Hm in Hx.
  - cbn [forallb] in Hl. apply andb_prop in Hl as [Ha Hl].
    destruct m as [|b m]; cbn [app starts_with forallb] in *.
    + intros [Hb _]%andb_prop. apply N.eqb_eq in Hb as ->. by rewrite Ha in Hy.
    + intros [Hb H]%andb_prop. apply N.eqb_eq in Hb as ->.
      apply andb_prop in Hm as [_ Hm]. f_equal. by apply (IH m x l' y r).
Qed.

(** The two patterns that ask for [.prototype] after the name do not
    match at the constructor. *)
Lemma no_prototype_at_constructor r rest c :
  rmatch (Seq (Lit (str "ROS3D"))
            (Seq Dot (Seq (Group 1 w_plus) (Seq Dot (Seq (Lit (str "prototype")) r)))))
    (str "ROS3D.Arrow2 = function(" ++ rest) c = [].
Proof.
  change (str "ROS3D.Arrow2 = function(" ++ rest)
    with (str "ROS3D" ++ 46 :: 65 :: str "rrow2" ++ (str " = function(" ++ rest)).
  rewrite rmatch_Lit_app, rmatch_Dot_cons by done.
  apply after_word_fails; try done.
  repeat (constructor; [intros c'; vm_compute; reflexivity|]). constructor.
Qed.

Lemma proto_not_at_method pos m rest :
  forallb is_word m = true → m ≠ str "__proto__" →
  exec_at transpile.buildInheritanceIndexViaProto_from pos
    (str "ROS3D.Arrow2.prototype." ++ m ++ str " = function" ++ rest) = None.
Proof.
  intros Hm Hne. unfold exec_at.
  replace (rmatch _ _ _) with (@nil (text * captures)); [done|]. symmetry.
  unfold transpile.buildInheritanceIndexViaProto_from. cbn [p_re p_groups Seqs].
  change (str "ROS3D.Arrow2.prototype." ++ m ++ str " = function" ++ rest)
    with (str "ROS3D" ++ 46 :: 65 :: str "rrow2"
          ++ (46 :: str "prototype" ++ 46 :: m ++ 32 :: str "= function" ++ rest)).
  rewrite rmatch_Lit_app, rmatch_Dot_cons by done.
  apply after_word_fails; try done.
  repeat (constructor; [intros c'; vm_compute; reflexivity|]).
  constructor; [|constructor]. intros c'.
  change (drop 5 (str "rrow2")) with (@nil N). cbn [app].
  rewrite rmatch_Dot_cons, rmatch_Lit_app, rmatch_Dot_cons by done.
  apply rmatch_Lit_fails.
  destruct (starts_with _ _) eqn:E; [|done]. exfalso. apply Hne.
  by apply (starts_with_word (str "__proto__") m 32 (str "= ") 32
              (str "= function" ++ rest)).
Qed.

Lemma methods_not_at_constructor pos rest :
  exec_at transpile.methods_from pos (str "ROS3D.Arrow2 = function(" ++ rest) = None.
Proof.
  unfold exec_at, transpile.methods_from. cbn [p_re p_groups Seqs].
  by rewrite no_prototype_at_constructor.
Qed.

Lemma proto_not_at_constructor pos rest :
  exec_at transpile.buildInheritanceIndexViaProto_from pos
    (str "ROS3D.Arrow2 = function(" ++ rest) = None.
Proof.
  unfold exec_at, transpile.buildInheritanceIndexViaProto_from.
  cbn [p_re p_groups Seqs]. by rewrite no_prototype_at_constructor.
Qed.

Lemma In_line_rest a pre s :
  forallb not_terminator pre = true → In a pre → In a (line_rest (pre ++ s)).
Proof. intros H Hin. rewrite line_rest_app by done. apply in_app_iff. by left. Qed.

Lemma scan_first_no_match p : ∀ t pos,
  (∀ j, exec_at p 0 (drop j t) = None) → scan_first p pos t = map Keep t.
Proof.
  induction t as [|c t IH]; intros pos Hno.
  - cbn [scan_first]. pose proof (exec_at_None p 0 pos _ (Hno 0%nat)) as E.
    cbn [drop] in E. by rewrite E.
  - cbn [scan_first]. pose proof (exec_at_None p 0 pos _ (Hno 0%nat)) as E.
    cbn [drop] in E. rewrite E. cbn [map]. f_equal. apply IH.
    intros j. apply (Hno (S j)).
Qed.

Lemma unlines_app ls ls' : unlines (ls ++ ls') = unlines ls ++ unlines ls'.
Proof. unfold unlines. by rewrite flat_map_app. Qed.

Lemma occurs_true l : ∀ s,
  occurs l s = true → ∃ j, starts_with l (drop j s) = true.
Proof.
  induction s as [|x s IH]; cbn [occurs].
  - intros H. by exists 0%nat.
  - intros [H|H]%orb_prop; [by exists 0%nat|].
    destruct (IH H) as [j Hj]. by exists (S j).
Qed.

Lemma occurs_inside pre l post s :
  occurs l s = false → occurs (pre ++ l ++ post) s = false.
Proof.
  intros H. destruct (occurs (pre ++ l ++ post) s) eqn:E; [|done].
  apply occurs_true in E as [j E]. apply starts_with_inside in E.
  rewrite drop_drop in E. by rewrite (occurs_drop _ _ _ E) in H.
Qed.

Lemma Forall_occurs_inside pre l post ls :
  Forall (λ a, occurs l a = false) ls →
  Forall (λ a, occurs (pre ++ l ++ post) a = false) ls.
Proof. intros H. eapply Forall_impl; [exact H|]. intros a. apply occurs_inside. Qed.

(** A part that holds nowhere the character a text begins with. *)
Lemma quiet_no_head x l a r : ¬ In x a → quiet (x :: l) a r.
Proof.
  induction a as [|y a IH]; intros H; [done|]. cbn [quiet app starts_with]. split.
  - destruct (y =? x) eqn:E; [|done]. apply N.eqb_eq in E as ->.
    exfalso. apply H. by left.
  - apply IH. intros Hin. apply H. by right.
Qed.

(** A superclass call holds [.call(]. *)
Lemma parentConstructors_from_call pos s h :
  exec_at transpile.parentConstructors_from pos s = Some h →
  ∃ j, starts_with (str ".call(") (drop j s) = true.
Proof.
  intros E. apply exec_at_Some in E as (rest & caps & tl & E & _).
  assert (Hin : In (rest, caps)
                  (rmatch (p_re transpile.parentConstructors_from) s
                     (replicate (S (p_groups transpile.parentConstructors_from)) None)))
    by (rewrite E; by left).
  unfold transpile.parentConstructors_from in Hin. cbn [p_re p_groups Seqs] in Hin.
  cbn [rmatch] in Hin.
  apply in_flat_map in Hin as (m1 & H1 & Hin).
  destruct (rmatch_suffix (Cls is_crlf) _ _ _ H1) as [p1 E1].
  apply in_flat_map in Hin as (m2 & H2 & Hin).
  destruct (rmatch_suffix (Group 1 (Star true (Cls is_space))) _ _ _ H2) as [p2 E2].
  apply in_flat_map in Hin as (m3 & H3 & Hin).
  destruct (rmatch_suffix (Group 2 (Plus true (Cls transpile.is_ref_char))) _ _ _ H3)
    as [p3 E3].
  apply in_flat_map in Hin as (m4 & H4 & _).
  apply rmatch_Lit in H4 as [E4 _].
  exists (length (p1 ++ p2 ++ p3)).
  assert (Es : s = (p1 ++ p2 ++ p3) ++ str ".call(" ++ m4.1).
  { rewrite E1, E2, E3, E4. by rewrite <- !(assoc_L (++)). }
  rewrite Es, drop_app_length. apply starts_with_app.
Qed.

Lemma parentConstructors_no_hits t :
  quiet (str ".call(") t [] → matches transpile.parentConstructors_from t = [].
Proof.
  intros H. unfold matches, pieces. apply scan_no_match. intros j.
  destruct (exec_at transpile.parentConstructors_from 0 (drop j t)) as [h|] eqn:E;
    [exfalso|reflexivity].
  apply parentConstructors_from_call in E as [k E]. rewrite drop_drop in E.
  assert (Hne : str ".call(" ≠ []) by discriminate.
  by rewrite (quiet_silent _ _ Hne H) in E.
Qed.

Lemma parentConstructors_silent {S} (cb : hit → M S text) t (s : S) :
  quiet (str ".call(") t [] →
  replace transpile.parentConstructors_from cb t s = Ok (t, s).
Proof. intros H. by apply replace_no_hits, parentConstructors_no_hits. Qed.

Lemma mute_statement p l l' r0 seg r :
  p_re p = Seq (Lit (l ++ l')) r0 →
  exec_at p 0 (seg ++ r) = None → no_start l (drop 1 seg) = true →
  mute p seg r.
Proof.
  intros P E H. destruct seg as [|x seg]; [done|]. split; [done|].
  by apply (mute_quiet _ _ _ _ _ _ P), quiet_fixed.
Qed.

Ltac not_in_tac := vm_compute; intuition discriminate.

Ltac quiet_seg :=
  lazymatch goal with
  | |- quiet _ (unlines _) _ =>
      apply quiet_unlines; [not_in_tac|discriminate|assumption]
  | |- quiet _ (str _) _ => apply quiet_fixed; vm_compute; reflexivity
  | |- quiet _ (_ :: _) _ => apply quiet_fixed; vm_compute; reflexivity
  | |- quiet _ _ _ => apply quiet_free; [assumption|not_in_tac]
  end.

Ltac quiet_tac :=
  lazymatch goal with
  | |- quiet _ (?a ++ ?b) _ => apply (quiet_app _ a b); [quiet_seg|quiet_tac]
  | |- quiet _ _ _ => quiet_seg
  end.

(** [mute_tac P]: the parts of the text one by one, for a pattern that
    begins with a literal ([P] says which); the parts at which the
    literal stands are left. *)
Ltac mute_seg P :=
  first [ apply (mute_quiet _ _ _ _ _ _ P); quiet_seg | idtac ].

Ltac mute_tac P :=
  lazymatch goal with
  | |- mute _ (?a ++ ?b) _ => apply (mute_app _ a b); [mute_seg P|mute_tac P]
  | |- mute _ _ _ => mute_seg P
  end.

(** A text without the name of the namespace holds no match of the
    stages that look for it, and one without [Object] none of the
    stage of [Object.assign]. *)
Lemma quiet_stages t :
  quiet (str "ROS3D") t [] →
  hits (scan_first transpile.initialROS3DAssignment_from 0 t) = []
  ∧ matches transpile.internalDependencies_from t = []
  ∧ matches transpile.buildInheritanceIndexViaProto_from t = []
  ∧ matches transpile.methods_from t = []
  ∧ matches transpile.constructors_from t = [].
Proof.
  intros Q.
  assert (P0 : p_re transpile.initialROS3DAssignment_from
               = Seq (Lit (str "var ROS3D = ROS3D || {"))
                   (Seqs [Chr LF; Lit (str "  REVISION : '0"); Dot; Lit (str "18");
                          Dot; Lit (str "0'"); Chr LF; Lit (str "};")]))
    by reflexivity.
  assert (P1 : p_re transpile.internalDependencies_from
               = Seq (Lit (str "ROS3D" ++ str "."))
                   (Seqs [Group 1 w_plus; NegLook transpile.equals_ahead]))
    by reflexivity.
  assert (P2 : p_re transpile.buildInheritanceIndexViaProto_from
               = Seq (Lit (str "ROS3D" ++ []))
                   (Seqs [Dot; Group 1 w_plus; Dot;
                          Lit (str "prototype"); Dot; Lit (str "__proto__ = ");
                          Group 2 dot_star; Dot; Lit (str "prototype;");
                          Opt (Cls is_crlf)])) by reflexivity.
  assert (P3 : p_re transpile.methods_from
               = Seq (Lit (str "ROS3D" ++ []))
                   (Seqs [Dot; Group 1 w_plus; Dot;
                          Lit (str "prototype"); Dot; Group 2 w_plus;
                          Lit (str " = function")])) by reflexivity.
  assert (P4 : p_re transpile.constructors_from
               = Seq (Lit (str "ROS3D" ++ []))
                   (Seqs [Dot; Group 1 w_plus;
                          Star true (Cls is_space); Chr 61;
                          Star true (Cls is_space); Lit (str "function")]))
    by reflexivity.
  split; [|repeat split].
  - rewrite scan_first_no_match; [apply hits_Keep|].
    intros j. apply (exec_at_trigger _ _ _ _ _ P0).
    apply (silent_inside (str "var ") (str "ROS3D") (str " = ROS3D || {")).
    by apply quiet_silent.
  - apply matches_mute; [|reflexivity]. by apply (mute_quiet _ _ _ _ _ _ P1).
  - apply matches_mute; [|reflexivity]. by apply (mute_quiet _ _ _ _ _ _ P2).
  - apply matches_mute; [|reflexivity]. by apply (mute_quiet _ _ _ _ _ _ P3).
  - apply matches_mute; [|reflexivity]. by apply (mute_quiet _ _ _ _ _ _ P4).
Qed.

Lemma quiet_assign t :
  quiet (str "Object") t [] →
  matches transpile.buildInheritanceIndexViaObjectAssign_from t = [].
Proof.
  intros Q.
  assert (P : p_re transpile.buildInheritanceIndexViaObjectAssign_from
              = Seq (Lit (str "Object" ++ []))
                  (Seqs [Dot; Lit (str "assign(");
                         Group 1 w_plus; Dot; Lit (str "prototype, ");
                         Group 2 dot_star; Dot; Lit (str "prototype);")]))
    by reflexivity.
  apply matches_mute; [|reflexivity]. by apply (mute_quiet _ _ _ _ _ _ P).
Qed.

(** ** The class assembler, line by line *)

Local Abbreviation comment_token :=
  (Alt (Seq (Chr 42) (Cls (fun c => negb (c =? 47)))) (Cls (fun c => negb (c =? 42)))).

Lemma comment_token_star y s c :
  rmatch comment_token (42 :: y :: s) c = if negb (y =? 47) then [(s, c)] else [].
Proof. cbn [rmatch N.eqb Pos.eqb flat_map fst snd negb app]. by destruct (negb (y =? 47)). Qed.

Lemma comment_token_other x s c :
  (x =? 42) = false → rmatch comment_token (x :: s) c = [(s, c)].
Proof. intros H. cbn [rmatch]. by rewrite H. Qed.

(** The comment is read up to its closing, and no further. *)
Lemma comment_tokens_lazy r : ∀ n c rest caps,
  comment_tokens c = true →
  (length (c ++ str "*/" ++ rest) ≤ n)%nat →
  flat_map (λ m : text * captures, rmatch (Seq (Lit (str "*/")) r) m.1 m.2)
    (repeat_fuel (rmatch comment_token) false n (c ++ str "*/" ++ rest) caps)
  = rmatch (Seq (Lit (str "*/")) r) (str "*/" ++ rest) caps.
Proof.
  induction n as [|n IH]; intros c rest caps Hc Hn.
  { rewrite !length_app in Hn. change (length (str "*/")) with 2%nat in Hn. lia. }
  destruct c as [|x c].
  - cbn [app]. change (str "*/" ++ rest) with (42 :: 47 :: rest).
    cbn [repeat_fuel]. rewrite comment_token_star. cbn [N.eqb Pos.eqb negb flat_map].
    cbn [fst snd]. apply app_nil_r.
  - cbn [comment_tokens] in Hc. cbn [app repeat_fuel flat_map fst snd].
    destruct (x =? 42) eqn:Ex.
    + apply N.eqb_eq in Ex as ->. destruct c as [|y c]; [done|].
      apply andb_prop in Hc as [Hy Hc]. cbn [app].
      rewrite comment_token_star, Hy. cbn [flat_map fst snd]. rewrite app_nil_r.
      replace (Nat.ltb (length (c ++ str "*/" ++ rest))
                 (length (42 :: y :: c ++ str "*/" ++ rest))) with true
        by (symmetry; apply Nat.ltb_lt; cbn [length]; lia).
      rewrite rmatch_Lit_fails.
      * cbn [app]. apply IH; [done|]. cbn [app length] in Hn. lia.
      * change (str "*/") with [42; 47]. cbn [starts_with].
        apply negb_true_iff in Hy. by rewrite Hy, andb_false_r.
    + rewrite comment_token_other by done. cbn [flat_map fst snd]. rewrite app_nil_r.
      replace (Nat.ltb (length (c ++ str "*/" ++ rest))
                 (length (x :: c ++ str "*/" ++ rest))) with true
        by (symmetry; apply Nat.ltb_lt; cbn [length]; lia).
      rewrite rmatch_Lit_fails.
      * cbn [app]. apply IH; [done|]. cbn [app length] in Hn. lia.
      * change (str "*/") with [42; 47]. cbn [starts_with]. by rewrite Ex.
Qed.

Lemma comment_body_lazy r c rest caps :
  comment_body c = true →
  rmatch (Seq (Plus false comment_token) (Seq (Lit (str "*/")) r))
    (c ++ str "*/" ++ rest) caps
  = rmatch (Seq (Lit (str "*/")) r) (str "*/" ++ rest) caps.
Proof.
  intros Hc. destruct c as [|x c]; [done|]. cbn [comment_body comment_tokens] in Hc.
  unfold Plus.
  change (rmatch (Seq (Seq comment_token (Star false comment_token))
                    (Seq (Lit (str "*/")) r)) ?s ?k)
    with (flat_map (λ m : text * captures, rmatch (Seq (Lit (str "*/")) r) m.1 m.2)
            (flat_map (λ m : text * captures,
                         repeat_fuel (rmatch comment_token) false (length m.1) m.1 m.2)
               (rmatch comment_token s k))).
  cbn [app]. destruct (x =? 42) eqn:Ex.
  - apply N.eqb_eq in Ex as ->. destruct c as [|y c]; [done|].
    apply andb_prop in Hc as [Hy Hc]. cbn [app].
    rewrite comment_token_star, Hy. cbn [flat_map fst snd]. rewrite app_nil_r.
    by apply comment_tokens_lazy.
  - rewrite comment_token_other by done. cbn [flat_map fst snd]. rewrite app_nil_r.
    by apply comment_tokens_lazy.
Qed.

Lemma head_Alt_l r1 r2 s c y :
  head (rmatch r1 s c) = Some y → head (rmatch (Alt r1 r2) s c) = Some y.
Proof. cbn [rmatch]. by destruct (rmatch r1 s c). Qed.

Lemma head_Cls_star q run rest c :
  forallb q run = true → stops q rest = true →
  head (rmatch (Star true (Cls q)) (run ++ rest) c) = Some (rest, c).
Proof.
  intros Hrun Hstop. rewrite rmatch_Cls_star by done.
  by destruct (backtracks_head run rest c) as [tl ->].
Qed.

Lemma head_dot_star run rest c :
  forallb not_terminator run = true → stops not_terminator rest = true →
  head (rmatch dot_star (run ++ rest) c) = Some (rest, c).
Proof.
  intros Hrun Hstop. rewrite rmatch_dot_star by done.
  by destruct (backtracks_head run rest c) as [tl ->].
Qed.

(** The match that opens the block: the comment, the line break and the
    line of the constructor. *)
Lemma classes_from_pair pos c a1 rest :
  comment_body c = true → forallb not_terminator a1 = true →
  stops not_terminator rest = true →
  exec_at transpile.classes_from pos
    ((str "/**" ++ c ++ str "*/" ++ [LF] ++ str "constructor(" ++ a1) ++ rest)
  = Some (Hit_ (str "/**" ++ c ++ str "*/" ++ [LF] ++ str "constructor(" ++ a1)
            [None; Some (str "/**" ++ c ++ str "*/" ++ [LF] ++ str "constructor(" ++ a1);
             None] pos).
Proof.
  intros Hc Ha1 Hstop.
  set (M0 := str "/**" ++ c ++ str "*/" ++ [LF] ++ str "constructor(" ++ a1).
  rewrite (exec_at_head _ _ _ rest [None; Some M0; None]).
  { by rewrite length_app, Nat.add_sub, take_app_length. }
  unfold transpile.classes_from. cbn [p_re p_groups replicate].
  apply head_Alt_l.
  rewrite (head_Group 1 _ _ _ (rest, [None; None; None])).
  { cbn [fst snd]. by rewrite length_app, Nat.add_sub, take_app_length. }
  unfold transpile.classes_open. cbn [Seqs]. unfold M0.
  rewrite <- !(assoc_L (++)).
  rewrite rmatch_Lit_app, comment_body_lazy, rmatch_Lit_app by done.
  eapply head_Seq.
  { apply (head_Cls_star _ [LF]); [done|done]. }
  cbn [fst snd]. eapply head_Seq; [apply head_Lit|]. cbn [fst snd].
  eapply head_Seq; [by apply head_dot_star|]. done.
Qed.

Lemma classes_close_fails nls x r c :
  forallb is_crlf nls = true → is_line_terminator x = false →
  rmatch transpile.classes_close (nls ++ x :: r) c = [].
Proof.
  intros Hn Hx. unfold transpile.classes_close. cbn [Seqs].
  destruct nls as [|n0 nls].
  { cbn [app rmatch]. by rewrite Hx. }
  set (Q := λ s : text, ∃ u, u ≠ [] ∧ forallb is_crlf u = true ∧ s = u ++ x :: r).
  assert (HQ : Q ((n0 :: nls) ++ x :: r)) by (by exists (n0 :: nls)).
  revert HQ. generalize ((n0 :: nls) ++ x :: r). intros s HQ.
  assert (Hs : ∀ y, In y (rmatch (Star true (Seq (Cls is_crlf) Eol)) s c) → Q y.1).
  { intros y Hy.
    refine (repeat_fuel_rel (λ a b, Q a.1 → Q b.1) _ _ _ _ _ _ _ _ _ Hy HQ);
      [done|by auto|].
    intros s0 c0 y0 H0 HQ0. cbn [fst] in HQ0. destruct HQ0 as (u & Hu & Hcr & ->).
    cbn [rmatch] in H0.
    destruct u as [|u0 u]; [done|]. cbn [app forallb] in *.
    apply andb_prop in Hcr as [Hu0 Hcr]. rewrite Hu0 in H0.
    cbn [flat_map fst snd] in H0. rewrite app_nil_r in H0.
    destruct u as [|u1 u].
    - cbn [app] in H0. by rewrite Hx in H0.
    - cbn [app] in H0. destruct (is_line_terminator u1); [|done].
      destruct H0 as [<-|[]]. by exists (u1 :: u). }
  destruct HQ as (u & Hu & Hcr & ->). destruct u as [|u0 u]; [done|].
  cbn [forallb] in Hcr. apply andb_prop in Hcr as [Hu0 Hcr].
  assert (Ht : is_line_terminator u0 = true).
  { unfold is_crlf in Hu0. unfold is_line_terminator.
    apply orb_prop in Hu0 as [E0|E0]; rewrite E0; by rewrite ?orb_true_r. }
  change (rmatch (Seq Eol ?R) ((u0 :: u) ++ x :: r) c)
    with (flat_map (λ m : text * captures, rmatch R m.1 m.2)
            (rmatch Eol ((u0 :: u) ++ x :: r) c)).
  cbn [app rmatch]. rewrite Ht. cbn [flat_map fst snd]. rewrite app_nil_r.
  apply flat_map_nil, Forall_forall. intros y Hy%list_elem_of_In.
  destruct (Hs y Hy) as (v & Hv & Hvc & Ev). destruct y as [y1 y2].
  cbn [fst snd] in *. subst y1. destruct v as [|v0 v]; [done|].
  cbn [forallb] in Hvc. apply andb_prop in Hvc as [Hv0 _].
  cbn [rmatch app]. by rewrite Hv0.
Qed.

Lemma classes_from_line pos l rest :
  l ≠ [] → forallb not_terminator l = true →
  starts_with (str "/**") l = false → stops not_terminator rest = true →
  exec_at transpile.classes_from pos (l ++ rest) = Some (Hit_ l [None; None; None] pos).
Proof.
  intros Hl Hnt Hs Hstop.
  rewrite (exec_at_head _ _ _ rest [None; None; None]).
  { by rewrite length_app, Nat.add_sub, take_app_length. }
  unfold transpile.classes_from. cbn [p_re p_groups replicate].
  change (rmatch (Alt ?r1 (Alt ?r2 ?r3)) ?s ?k)
    with (rmatch r1 s k ++ rmatch r2 s k ++ rmatch r3 s k).
  replace (rmatch (Group 1 transpile.classes_open) (l ++ rest) [None; None; None])
    with (@nil (text * captures)).
  2:{ symmetry. cbn [rmatch]. unfold transpile.classes_open. cbn [Seqs].
      rewrite rmatch_Lit_fails; [done|].
      destruct (starts_with (str "/**") (l ++ rest)) eqn:E; [|done].
      apply starts_with_app_inv in E as [E|(y & r' & -> & Hy)]; [congruence|].
      cbn [stops] in Hstop. exfalso.
      destruct Hy as [<-|[<-|[<-|[]]]]; done. }
  replace (rmatch transpile.classes_close (l ++ rest) [None; None; None])
    with (@nil (text * captures)).
  2:{ symmetry. destruct l as [|x l]; [done|]. cbn [forallb] in Hnt.
      apply andb_prop in Hnt as [Hx _]. unfold not_terminator in Hx.
      apply negb_true_iff in Hx. unfold transpile.classes_close. cbn [Seqs app rmatch].
      by rewrite Hx. }
  cbn [app]. by apply head_dot_star.
Qed.

Lemma classes_from_line_end pos rest :
  has_text (LF :: rest) →
  exec_at transpile.classes_from pos (LF :: rest) = Some (Hit_ [] [None; None; None] pos).
Proof.
  intros (nls & x & r & E & Hn & Hx).
  rewrite (exec_at_head _ _ _ (LF :: rest) [None; None; None]).
  { by rewrite Nat.sub_diag. }
  unfold transpile.classes_from. cbn [p_re p_groups replicate].
  change (rmatch (Alt ?r1 (Alt ?r2 ?r3)) ?s ?k)
    with (rmatch r1 s k ++ rmatch r2 s k ++ rmatch r3 s k).
  replace (rmatch (Group 1 transpile.classes_open) (LF :: rest) [None; None; None])
    with (@nil (text * captures)) by reflexivity.
  rewrite E, classes_close_fails by done. rewrite <- E. cbn [app].
  apply (head_dot_star [] (LF :: rest)); done.
Qed.

Lemma is_crlf_terminator x : is_crlf x = true → is_line_terminator x = true.
Proof.
  unfold is_crlf, is_line_terminator.
  intros [E|E]%orb_prop; rewrite E; by rewrite ?orb_true_r.
Qed.


Lemma has_text_cons x r : is_line_terminator x = false → has_text (x :: r).
Proof. intros H. by exists [], x, r. Qed.

Lemma has_text_LF s : has_text s → has_text (LF :: s).
Proof.
  intros (nls & x & r & -> & Hn & Hx). exists (LF :: nls), x, r.
  split; [done|]. split; [|done]. cbn [forallb]. by rewrite Hn.
Qed.

Lemma has_text_unlines ls :
  Forall (λ l, forallb not_terminator l = true) ls →
  ls ≠ [] → last ls ≠ Some [] → has_text (unlines ls).
Proof.
  induction ls as [|l ls IH]; intros Hls Hne Hlast; [done|].
  apply Forall_cons in Hls as [Hl Hls]. unfold unlines. cbn [flat_map].
  destruct l as [|x l].
  - destruct ls as [|l2 ls]; [done|]. apply has_text_LF, IH; done.
  - cbn [forallb] in Hl. apply andb_prop in Hl as [Hx _].
    apply has_text_cons. by apply negb_true_iff in Hx.
Qed.

Lemma classes_from_last_break pos :
  exec_at transpile.classes_from pos [LF] = Some (Hit_ [LF] [None; None; Some []] pos).
Proof. reflexivity. Qed.

Lemma classes_from_end pos :
  exec_at transpile.classes_from pos [] = Some (Hit_ [] [None; None; Some []] pos).
Proof. reflexivity. Qed.

(** The lines of an open block: each comes out behind one indentation,
    with one more at its end when it has text, and the line break after
    the last one closes the block. *)
Lemma assemble_block H : ∀ ls pos,
  Forall (λ l, forallb not_terminator l = true
               ∧ starts_with (str "/**") l = false) ls →
  ls ≠ [] → last ls ≠ Some [] →
  assemble H (transpile.mkState true true)
    (scan transpile.classes_from pos 0 (unlines ls))
  = block ls.
Proof.
  induction ls as [|l ls IH]; intros pos Hls Hne Hlast; [done|].
  apply Forall_cons in Hls as [[Hl1 Hl2] Hls].
  destruct ls as [|l2 ls].
  - destruct l as [|x l]; [done|]. unfold unlines. cbn [flat_map].
    rewrite app_nil_r. cbn [app].
    rewrite (scan_hit _ (Hit_ (x :: l) [None; None; None] pos)); [| |done].
    2:{ by apply (classes_from_line pos (x :: l) [LF]). }
    cbn [scan]. rewrite classes_from_last_break. cbn [m_str length scan].
    rewrite classes_from_end. cbn [assemble block].
    unfold sweep_out, sweep_next, transpile.isStart, transpile.isFinish, group.
    cbn. by rewrite <- !(assoc_L (++)).
  - assert (Hrest : has_text (unlines (l2 :: ls))).
    { apply has_text_unlines; [|done|done].
      eapply Forall_impl; [exact Hls|]. by intros ? []. }
    specialize (IH (S (pos + length l)) Hls ltac:(done) Hlast).
    change (unlines (l :: l2 :: ls)) with ((l ++ [LF]) ++ unlines (l2 :: ls)).
    rewrite <- (assoc_L (++)). cbn [app].
    assert (Hend : scan transpile.classes_from (pos + length l) 0
                     (LF :: unlines (l2 :: ls))
                   = Match (Hit_ [] [None; None; None] (pos + length l))
                       :: Keep LF
                       :: scan transpile.classes_from (S (pos + length l)) 0
                            (unlines (l2 :: ls))).
    { cbn [scan]. by rewrite (classes_from_line_end _ _ (has_text_LF _ Hrest)). }
    destruct l as [|x l].
    + cbn [length app] in *. rewrite Nat.add_0_r in *. rewrite Hend.
      cbn [assemble block].
      change (sweep_next _ _) with (transpile.mkState true true).
      change (sweep_out H _ _) with (indent ++ @nil N).
      rewrite IH. by rewrite !app_nil_r.
    + cbn [app].
      rewrite (scan_hit _ (Hit_ (x :: l) [None; None; None] pos)); [| |done].
      2:{ by apply (classes_from_line pos (x :: l) (LF :: _)). }
      rewrite Hend. cbn [assemble block].
      change (sweep_next _ (Hit_ (x :: l) _ _)) with (transpile.mkState true true).
      change (sweep_next _ _) with (transpile.mkState true true).
      change (sweep_out H _ (Hit_ (x :: l) _ _)) with (indent ++ x :: l).
      change (sweep_out H _ _) with (indent ++ @nil N).
      rewrite IH. rewrite !app_nil_r. by rewrite <- !(assoc_L (++)).
Qed.

Lemma scan_hit_text p h mm r pos :
  exec_at p pos (mm ++ r) = Some h → m_str h = mm → mm ≠ [] →
  scan p pos 0 (mm ++ r) = Match h :: scan p (pos + length mm) 0 r.
Proof. destruct mm as [|x mm]; [done|]. intros E Hm _. by apply scan_hit. Qed.

Lemma indent_lines_app a b : indent_lines (a ++ b) = indent_lines a ++ indent_lines b.
Proof. unfold indent_lines. apply flat_map_app. Qed.

Lemma indent_lines_line a : forallb not_terminator a = true → indent_lines a = a.
Proof.
  induction a as [|x a IH]; [done|]. cbn [forallb]. intros [Hx Ha]%andb_prop.
  unfold indent_lines in *. cbn [flat_map]. rewrite (IH Ha).
  assert (E : is_crlf x = false); [|by rewrite E].
  destruct (is_crlf x) eqn:E; [|done]. apply is_crlf_terminator in E.
  unfold not_terminator in Hx. by rewrite E in Hx.
Qed.

(** ** The class assembler on texts whose lines begin with no comment *)

Lemma starts_with_mono l : ∀ a r,
  starts_with l a = true → starts_with l (a ++ r) = true.
Proof.
  induction l as [|x l IH]; intros a r; [done|]. cbn [starts_with].
  destruct a as [|y a]; [done|]. cbn [app].
  intros [-> H]%andb_prop. by rewrite (IH _ _ H).
Qed.

Lemma span_line : ∀ t,
  ∃ run rest, t = run ++ rest ∧ forallb not_terminator run = true
              ∧ stops not_terminator rest = true.
Proof.
  induction t as [|x t (run & rest & -> & Hrun & Hrest)].
  - by exists [], [].
  - destruct (not_terminator x) eqn:Ex.
    + exists (x :: run), rest. cbn [forallb]. by rewrite Ex, Hrun.
    + exists [], (x :: run ++ rest). cbn [stops]. by rewrite Ex.
Qed.

Lemma stops_no_comment t :
  stops not_terminator t = true → starts_with (str "/**") t = false.
Proof.
  destruct t as [|x t]; [done|]. cbn [stops]. unfold not_terminator.
  rewrite negb_involutive. intros Hx. change (str "/**") with [47; 42; 42].
  cbn [starts_with]. destruct (x =? 47) eqn:E; [|done].
  apply N.eqb_eq in E. by subst x.
Qed.

Lemma no_comment_after_break_app_r a : ∀ b,
  no_comment_after_break (a ++ b) = true → no_comment_after_break b = true.
Proof.
  induction a as [|x a IH]; intros b; [done|]. cbn [app no_comment_after_break].
  intros [_ H]%andb_prop. by apply IH.
Qed.

Lemma no_comment_after_break_free a r :
  forallb not_terminator a = true →
  no_comment_after_break r = true → no_comment_after_break (a ++ r) = true.
Proof.
  intros Ha Hr. induction a as [|x a IH]; [done|]. cbn [forallb] in Ha.
  apply andb_prop in Ha as [Hx Ha]. cbn [app no_comment_after_break].
  unfold not_terminator in Hx. by rewrite Hx, IH.
Qed.

Lemma no_comment_after_break_cons x r :
  starts_with (str "/**") r = false →
  no_comment_after_break r = true → no_comment_after_break (x :: r) = true.
Proof.
  intros H1 H2. cbn [no_comment_after_break]. by rewrite H1, H2, orb_true_r.
Qed.

Lemma calm_tail x t :
  is_line_terminator x = true → no_comment_after_break (x :: t) = true →
  calm t = true.
Proof.
  intros Hx. cbn [no_comment_after_break]. rewrite Hx. cbn [negb orb]. done.
Qed.

Lemma calm_after u : ∀ rest,
  u ≠ [] → forallb is_crlf u = true →
  no_comment_after_break (u ++ rest) = true → calm rest = true.
Proof.
  induction u as [|y u IH]; intros rest Hne Hu H; [done|].
  cbn [forallb] in Hu. apply andb_prop in Hu as [Hy Hu].
  destruct u as [|y2 u].
  - apply (calm_tail y); [by apply is_crlf_terminator|done].
  - apply IH; [done|done|]. cbn [app no_comment_after_break] in H.
    by apply andb_prop in H as [_ H].
Qed.

Lemma calm_stops rest :
  stops not_terminator rest = true → no_comment_after_break rest = true →
  calm rest = true.
Proof. intros H1 H2. unfold calm. by rewrite (stops_no_comment _ H1), H2. Qed.

Lemma classes_close_match t c y :
  In y (rmatch transpile.classes_close t c) →
  ∃ u, t = u ++ y.1 ∧ forallb is_crlf u = true.
Proof.
  unfold transpile.classes_close. cbn [Seqs].
  change (rmatch (Seq Eol (Seq ?R1 (Seq ?R2 Eps))) t c)
    with (flat_map (λ m : text * captures,
                      flat_map (λ m2 : text * captures,
                                  flat_map (λ m3 : text * captures, rmatch Eps m3.1 m3.2)
                                    (rmatch R2 m2.1 m2.2))
                        (rmatch R1 m.1 m.2))
            (rmatch Eol t c)).
  intros Hin. apply in_flat_map in Hin as (m1 & H1 & Hin).
  apply in_flat_map in Hin as (m2 & H2 & Hin).
  apply in_flat_map in Hin as (m3 & H3 & Hin).
  assert (E1 : m1.1 = t).
  { cbn [rmatch] in H1. destruct t as [|x t].
    - by destruct H1 as [<-|[]].
    - destruct (is_line_terminator x); [|done]. by destruct H1 as [<-|[]]. }
  assert (E2 : ∃ u, m1.1 = u ++ m2.1 ∧ forallb is_crlf u = true).
  { refine (repeat_fuel_rel
              (λ a b, ∃ u, a.1 = u ++ b.1 ∧ forallb is_crlf u = true)
              _ _ _ _ _ _ _ _ _ H2).
    - intros a. by exists [].
    - intros a b d (u & -> & Hu) (v & -> & Hv). exists (u ++ v).
      by rewrite (assoc_L (++)), forallb_app, Hu, Hv.
    - intros s0 c0 y0 H0. cbn [fst]. cbn [rmatch] in H0.
      destruct s0 as [|x s0]; [done|]. destruct (is_crlf x) eqn:Ex; [|done].
      cbn [flat_map fst snd] in H0. rewrite app_nil_r in H0.
      destruct s0 as [|x2 s0].
      + destruct H0 as [<-|[]]. exists [x]. cbn [forallb]. by rewrite Ex.
      + destruct (is_line_terminator x2); [|done]. destruct H0 as [<-|[]].
        exists [x]. cbn [forallb]. by rewrite Ex. }
  assert (E3 : m3.1 = m2.1).
  { destruct m2 as [s2 c2]. cbn [fst snd rmatch] in H3.
    destruct s2 as [|x s2]; [|destruct (is_crlf x)]; cbn [map] in H3;
      try done; by destruct H3 as [<-|[]]. }
  cbn [rmatch] in Hin. destruct Hin as [<-|[]].
  destruct E2 as (u & E2 & Hu). exists u. split; [|done].
  rewrite <- E1, E2. cbn [fst]. by rewrite E3.
Qed.

Lemma classes_from_no_pair pos t h :
  starts_with (str "/**") t = false →
  exec_at transpile.classes_from pos t = Some h →
  defined (group h 1) = false.
Proof.
  intros Hs E.
  apply exec_at_Some in E as (rest & caps & tl & E & _ & Hc & _).
  assert (Hin : In (rest, caps)
                  (rmatch (p_re transpile.classes_from) t
                     (replicate (S (p_groups transpile.classes_from)) None)))
    by (rewrite E; by left).
  unfold transpile.classes_from in Hin. cbn [p_re p_groups rmatch] in Hin.
  unfold group. rewrite Hc.
  apply in_app_iff in Hin as [Hin|Hin].
  - apply in_map_iff in Hin as ([r c] & _ & Hin).
    unfold transpile.classes_open in Hin. cbn [Seqs] in Hin.
    by rewrite rmatch_Lit_fails in Hin.
  - assert (Hg : caps !! 1%nat = Some None); [|by rewrite Hg].
    apply in_app_iff in Hin as [Hin|Hin];
      apply rmatch_captures in Hin as [_ Hin]; rewrite Hin; try reflexivity.
    + replace (groups_of transpile.classes_close) with [2%nat] by reflexivity.
      intros [Hne|Hnil]%elem_of_cons; [discriminate|by apply elem_of_nil in Hnil].
    + apply not_elem_of_nil.
Qed.

(** At a line terminator or at the end the match holds line breaks only. *)
Lemma classes_from_break pos t h :
  stops not_terminator t = true →
  exec_at transpile.classes_from pos t = Some h →
  ∃ rest, t = m_str h ++ rest ∧ forallb is_crlf (m_str h) = true.
Proof.
  intros Hs E.
  apply exec_at_Some in E as (rest & caps & tl & E & Et & _ & _).
  assert (Hin : In (rest, caps)
                  (rmatch (p_re transpile.classes_from) t
                     (replicate (S (p_groups transpile.classes_from)) None)))
    by (rewrite E; by left).
  exists rest. split; [done|].
  unfold transpile.classes_from in Hin. cbn [p_re p_groups rmatch] in Hin.
  apply in_app_iff in Hin as [Hin|Hin].
  - apply in_map_iff in Hin as ([r c] & _ & Hin).
    unfold transpile.classes_open in Hin. cbn [Seqs] in Hin.
    by rewrite rmatch_Lit_fails in Hin by (by apply stops_no_comment).
  - apply in_app_iff in Hin as [Hin|Hin].
    + apply classes_close_match in Hin as (u & Eu & Hu). cbn [fst] in Eu.
      rewrite Eu in Et. apply app_inv_tail in Et. by subst u.
    + change (Star true Dot) with dot_star in Hin.
      rewrite (rmatch_dot_star [] t) in Hin by done. cbn [backtracks] in Hin.
      destruct Hin as [[= <- _]|[]].
      rewrite <- (app_nil_l t) in Et at 1. apply app_inv_tail in Et.
      by rewrite <- Et.
Qed.

(** The assembler finds no pair of comment and constructor in a text
    none of whose lines begins with a comment. *)
Lemma scan_calm : ∀ n t pos,
  (length t ≤ n)%nat → calm t = true →
  Forall (λ h, defined (group h 1) = false)
    (hits (scan transpile.classes_from pos 0 t)).
Proof.
  induction n as [|n IH]; intros t pos Hn Hc.
  { destruct t; [|cbn in Hn; lia]. cbn [scan]. rewrite classes_from_end.
    cbn [hits]. by repeat constructor. }
  destruct t as [|x t].
  { cbn [scan]. rewrite classes_from_end. cbn [hits]. by repeat constructor. }
  cbn [length] in Hn. apply andb_prop in Hc as [Hc1 Hc2].
  apply negb_true_iff in Hc1.
  destruct (is_line_terminator x) eqn:Ex.
  - assert (Hs : stops not_terminator (x :: t) = true).
    { cbn [stops]. unfold not_terminator. by rewrite Ex. }
    cbn [scan]. destruct (exec_at _ pos (x :: t)) as [h|] eqn:E.
    + destruct (classes_from_break _ _ _ Hs E) as (rest & Et & Hu).
      cbn [hits]. constructor; [by apply (classes_from_no_pair pos (x :: t))|].
      destruct (m_str h) as [|y u] eqn:Em; cbn [length].
      * cbn [hits]. apply IH; [lia|]. by apply (calm_tail x).
      * cbn [app] in Et. injection Et as <- ->. rewrite scan_skip.
        apply IH; [rewrite ?length_app in Hn; cbn [length] in Hn; lia|].
        apply (calm_after (x :: u)); [done|done|done].
    + cbn [hits]. apply IH; [lia|]. by apply (calm_tail x).
  - destruct (span_line (x :: t)) as (run & rest & Et & Hrun & Hrest).
    destruct run as [|x' run].
    { cbn [app] in Et. subst rest. cbn [stops] in Hrest.
      unfold not_terminator in Hrest. by rewrite Ex in Hrest. }
    cbn [app] in Et. injection Et as <- ->.
    rewrite (scan_hit _ (Hit_ (x :: run) [None; None; None] pos)); [| |done].
    2:{ apply (classes_from_line pos (x :: run) rest); [done|done| |done].
        destruct (starts_with (str "/**") (x :: run)) eqn:E; [|done].
        pose proof (starts_with_mono _ _ rest E) as E'. cbn [app] in E'.
        by rewrite E' in Hc1. }
    cbn [hits]. constructor; [done|].
    apply IH; [rewrite ?length_app in Hn; cbn [length] in Hn; lia|].
    apply calm_stops; [done|].
    by apply (no_comment_after_break_app_r (x :: run)).
Qed.

Lemma matches_calm t :
  calm t = true →
  forallb (λ h, negb (defined (group h 1))) (matches transpile.classes_from t) = true.
Proof.
  intros H. apply forallb_forall. intros h Hh.
  pose proof (scan_calm (length t) t 0 ltac:(lia) H) as HF.
  rewrite Forall_forall in HF. apply list_elem_of_In in Hh.
  by rewrite (HF h Hh).
Qed.

(** ** The text of a class block *)

Lemma starts_with_indent_lines l : ∀ u r,
  ¬ In LF l → starts_with l (indent_lines u ++ r) = true →
  starts_with l (u ++ r) = true.
Proof.
  induction l as [|a l IH]; intros u r Hl; [done|].
  destruct u as [|x u]; [done|]. unfold indent_lines in *. cbn [flat_map].
  destruct (is_crlf x).
  - cbn [app starts_with]. intros [E _]%andb_prop. apply N.eqb_eq in E.
    exfalso. apply Hl. by left.
  - cbn [app starts_with]. intros [-> H]%andb_prop.
    rewrite (IH u r); [done| |done]. intros Hin. apply Hl. by right.
Qed.

Lemma quiet_indent_lines y l c r :
  ¬ In y [LF; 32] → ¬ In LF (y :: l) →
  occurs (y :: l) c = false →
  match r with [] => True | x :: _ => ¬ In x (y :: l) end →
  quiet (y :: l) (indent_lines c) r.
Proof.
  intros Hy Hl Hc Hr. induction c as [|x c IH]; [done|].
  change (indent_lines (x :: c))
    with ((if is_crlf x then LF :: indent else [x]) ++ indent_lines c).
  apply quiet_app; [|apply IH; by apply occurs_false_tail in Hc].
  destruct (is_crlf x) eqn:Ex.
  - apply quiet_no_head. intros Hin. apply Hy.
    destruct Hin as [<-|[<-|[<-|[]]]]; [by left|by right; left|by right; left].
  - cbn [quiet]. split; [|done].
    destruct (starts_with (y :: l) ([x] ++ indent_lines c ++ r)) eqn:E; [|done].
    exfalso.
    assert (E' : starts_with (y :: l) (indent_lines (x :: c) ++ r) = true).
    { unfold indent_lines in *. cbn [flat_map]. rewrite Ex.
      by rewrite <- (assoc_L (++)). }
    apply starts_with_indent_lines in E'; [|done].
    apply starts_with_app_inv in E' as [E'|(x' & r' & -> & Hin)].
    + by rewrite (occurs_false _ _ Hc) in E'.
    + by apply Hr.
Qed.

Lemma block_indented ls : ls ≠ [] → ∃ r, block ls = 32 :: r.
Proof.
  destruct ls as [|l [|l2 ls]]; [done| |]; intros _; cbn [block];
    change indent with [32; 32]; cbn [app]; by eexists.
Qed.

Lemma block_cons l0 l2 ls :
  block (l0 :: l2 :: ls)
  = indent ++ l0 ++ (match l0 with [] => [] | _ :: _ => indent end)
    ++ LF :: block (l2 :: ls).
Proof. reflexivity. Qed.

Lemma block_behind l ls :
  ls ≠ [] →
  block (l :: ls)
  = indent ++ l ++ (match l with [] => [] | _ :: _ => indent end) ++ [LF] ++ block ls.
Proof. by destruct ls. Qed.

Lemma quiet_block y l ls :
  ¬ In y [LF; 32; 125] → ¬ In LF (y :: l) → ¬ In 32 (y :: l) →
  Forall (λ a, occurs (y :: l) a = false) ls →
  quiet (y :: l) (block ls) [].
Proof.
  intros Hy Hl Hsp Hls.
  assert (Qi : ∀ r, quiet (y :: l) indent r).
  { intros r. apply quiet_no_head. intros Hin. apply Hy.
    destruct Hin as [<-|[<-|[]]]; by right; left. }
  induction Hls as [|l0 ls H0 Hls IH]; [done|].
  destruct ls as [|l2 ls].
  - cbn [block]. apply quiet_app; [apply Qi|].
    apply quiet_app; [by apply quiet_free|].
    apply quiet_no_head. intros Hin. apply Hy.
    destruct Hin as [<-|[<-|[<-|[]]]]; [by left|by right; right; left|by left].
  - cbn [block]. apply quiet_app; [apply Qi|].
    destruct (block_indented (l2 :: ls)) as [r Er]; [done|].
    assert (Qb : quiet (y :: l) (LF :: block (l2 :: ls)) []).
    { cbn [quiet]. split; [|done]. cbn [starts_with app].
      destruct (LF =? y) eqn:E; [|done]. apply N.eqb_eq in E.
      exfalso. apply Hy. by left. }
    destruct l0 as [|x0 l0].
    + done.
    + apply quiet_app.
      { apply quiet_free; [done|]. change indent with [32; 32]. by cbn [app]. }
      apply (quiet_app _ indent); [apply Qi|]. done.
Qed.

Lemma no_comment_after_break_indent_lines c r :
  forallb (λ x, negb ((x =? LS) || (x =? PS))) c = true →
  no_comment_after_break r = true →
  no_comment_after_break (indent_lines c ++ r) = true.
Proof.
  intros Hc Hr. induction c as [|x c IH]; [done|]. cbn [forallb] in Hc.
  apply andb_prop in Hc as [Hx Hc]. specialize (IH Hc).
  change (indent_lines (x :: c))
    with ((if is_crlf x then LF :: indent else [x]) ++ indent_lines c).
  rewrite <- (assoc_L (++)). destruct (is_crlf x) eqn:Ex.
  - change indent with [32; 32]. cbn [app].
    apply no_comment_after_break_cons; [done|].
    by apply (no_comment_after_break_free [32; 32]).
  - apply no_comment_after_break_free; [|done]. cbn [forallb].
    rewrite andb_true_r. unfold not_terminator, is_line_terminator.
    unfold is_crlf in Ex. apply orb_false_elim in Ex as [E1 E2].
    apply negb_true_iff in Hx. apply orb_false_elim in Hx as [E3 E4].
    by rewrite E1, E2, E3, E4.
Qed.

Lemma no_comment_after_break_block ls :
  Forall (λ l, forallb not_terminator l = true) ls →
  no_comment_after_break (block ls) = true.
Proof.
  induction 1 as [|l0 ls H0 Hls IH]; [done|].
  destruct ls as [|l2 ls].
  - cbn [block]. apply (no_comment_after_break_free indent); [done|].
    by apply no_comment_after_break_free.
  - rewrite block_cons. apply (no_comment_after_break_free indent); [done|].
    apply no_comment_after_break_free; [done|].
    apply (no_comment_after_break_free (match l0 with [] => [] | _ :: _ => indent end));
      [by destruct l0|].
    destruct (block_indented (l2 :: ls)) as [r Er]; [done|].
    apply no_comment_after_break_cons; [by rewrite Er|done].
Qed.

Ltac quiet_part y l :=
  lazymatch goal with
  | |- quiet _ (indent_lines _) _ =>
      apply (quiet_indent_lines y l); [not_in_tac|not_in_tac|assumption|not_in_tac]
  | |- quiet _ (block _) _ =>
      apply (quiet_block y l); [not_in_tac|not_in_tac|not_in_tac|assumption]
  | |- quiet _ (str _) _ => apply quiet_fixed; vm_compute; reflexivity
  | |- quiet _ indent _ => apply quiet_fixed; vm_compute; reflexivity
  | |- quiet _ (_ :: _) _ => apply quiet_fixed; vm_compute; reflexivity
  | |- quiet _ _ _ => apply quiet_free; [assumption|not_in_tac]
  end.

Ltac quiet_parts y l :=
  lazymatch goal with
  | |- quiet _ (?a ++ ?b) _ => apply (quiet_app _ a b); [quiet_part y l|quiet_parts y l]
  | |- quiet _ _ _ => quiet_part y l
  end.

(** ** Scenario A in general *)

Lemma plain_parts s :
  plain s = true →
  occurs (str "ROS3D") s = false ∧ occurs (str "Object") s = false
  ∧ occurs (str ".call(") s = false.
Proof.
  unfold plain. intros [[H1 H2]%andb_prop H3]%andb_prop.
  by rewrite !negb_true_iff in *.
Qed.

Lemma body_lines_parts ls :
  forallb body_line ls = true →
  Forall (λ l, occurs (str "ROS3D") l = false) ls
  ∧ Forall (λ l, occurs (str "Object") l = false) ls
  ∧ Forall (λ l, occurs (str ".call(") l = false) ls
  ∧ Forall (λ l, forallb not_terminator l = true
                 ∧ starts_with (str "/**") l = false) ls.
Proof.
  rewrite forallb_forall. intros H.
  assert (Hl : ∀ l, In l ls →
            (occurs (str "ROS3D") l = false ∧ occurs (str "Object") l = false
             ∧ occurs (str ".call(") l = false)
            ∧ forallb not_terminator l = true
            ∧ starts_with (str "/**") l = false).
  { intros l Hin. specialize (H l Hin). unfold body_line in H.
    apply andb_prop in H as [[H1 H2]%andb_prop H3].
    apply negb_true_iff in H3. split; [by apply plain_parts|done]. }
  repeat split; apply Forall_forall; intros l Hin%list_elem_of_In;
    destruct (Hl l Hin) as ((? & ? & ?) & ? & ?); done.
Qed.

Lemma class_unit_ok_parts c a1 body1 m a2 body2 :
  class_unit_ok c a1 body1 m a2 body2 = true →
  (comment_body c = true
   ∧ forallb (λ x, negb ((x =? LS) || (x =? PS))) c = true
   ∧ occurs (str "ROS3D") c = false ∧ occurs (str "Object") c = false
   ∧ occurs (str ".call(") c = false)
  ∧ (forallb not_terminator a1 = true
     ∧ occurs (str "ROS3D") a1 = false ∧ occurs (str "Object") a1 = false
     ∧ occurs (str ".call(") a1 = false)
  ∧ (m ≠ [] ∧ forallb is_word m = true ∧ m ≠ str "__proto__"
     ∧ forallb not_terminator a2 = true
     ∧ occurs (str "ROS3D") (m ++ a2) = false ∧ occurs (str "Object") (m ++ a2) = false
     ∧ occurs (str ".call(") (m ++ a2) = false)
  ∧ forallb body_line body1 = true ∧ forallb body_line body2 = true
  ∧ last body2 ≠ Some [].
Proof.
  unfold class_unit_ok. intros H.
  repeat (let H' := fresh "H" in apply andb_prop in H as [H H']).
  rewrite !negb_true_iff in *.
  repeat match goal with
         | H : bool_decide _ = false |- _ => apply bool_decide_eq_false in H
         | H : plain _ = true |- _ => apply plain_parts in H as (? & ? & ?)
         end.
  done.
Qed.

Lemma method_line_eq m a2 :
  method_line m a2
  = str "ROS3D.Arrow2.prototype." ++ m ++ str " = function" ++ a2.
Proof.
  unfold method_line, method_statement. rewrite <- !(assoc_L (++)). done.
Qed.

Lemma unlines_cons l ls : unlines (l :: ls) = l ++ [LF] ++ unlines ls.
Proof. unfold unlines. cbn [flat_map]. by rewrite <- (assoc_L (++)). Qed.

Lemma class_unit_eq c a1 body1 m a2 body2 :
  class_unit c a1 body1 m a2 body2
  = str "/**" ++ c ++ str "*/" ++ [LF]
    ++ str "ROS3D.Arrow2.prototype.__proto__ = Base.prototype;" ++ [LF]
    ++ str "ROS3D.Arrow2 = function(" ++ a1 ++ [LF]
    ++ unlines body1
    ++ str "ROS3D.Arrow2.prototype." ++ m ++ str " = function" ++ a2 ++ [LF]
    ++ unlines body2.
Proof.
  unfold class_unit. rewrite !unlines_cons, unlines_app, unlines_cons.
  rewrite method_line_eq. unfold doc_comment, constructor_line.
  by rewrite <- !(assoc_L (++)).
Qed.

Section ClassUnit.
Variable path_basename : text → text → text.
Variable inherited_text : text → text.
Variables (c a1 : text) (body1 : list text) (m a2 : text) (body2 : list text).
Hypothesis Hok : class_unit_ok c a1 body1 m a2 body2 = true.

Ltac parts :=
  destruct (class_unit_ok_parts _ _ _ _ _ _ Hok)
    as ((Hcb & Hcs & HcR & HcO & HcC) & (Ha1 & Ha1R & Ha1O & Ha1C)
        & (Hm0 & Hm & Hmp & Ha2 & HmR & HmO & HmC) & Hb1 & Hb2 & Hlast);
  destruct (body_lines_parts _ Hb1) as (Hb1R & Hb1O & Hb1C & Hb1t);
  destruct (body_lines_parts _ Hb2) as (Hb2R & Hb2O & Hb2C & Hb2t);
  pose proof (occurs_app_l _ _ _ HmR) as HmR1;
  pose proof (occurs_app_r _ _ _ HmR) as HmR2;
  pose proof (occurs_app_l _ _ _ HmO) as HmO1;
  pose proof (occurs_app_r _ _ _ HmO) as HmO2;
  pose proof (occurs_app_l _ _ _ HmC) as HmC1;
  pose proof (occurs_app_r _ _ _ HmC) as HmC2.

(** The texts between the stages. *)
Local Abbreviation unit0 := (class_unit c a1 body1 m a2 body2).
Local Abbreviation unit2 :=
  (unlines (doc_comment c :: constructor_line a1
            :: body1 ++ method_line m a2 :: body2)).
Local Abbreviation unit4 :=
  (unlines (doc_comment c :: constructor_line a1 :: body1 ++ (m ++ a2) :: body2)).
Local Abbreviation unit5 :=
  (unlines (doc_comment c :: (str "constructor(" ++ a1)
            :: body1 ++ (m ++ a2) :: body2)).

(** The dependency stage finds nothing: every reference is assigned to
    on its line. *)
Lemma class_unit_dependencies {S} (cb : hit → M S text) (s : S) :
  replace transpile.internalDependencies_from cb unit0 s = Ok (unit0, s).
Proof.
  parts. apply replace_mute; [|reflexivity]. rewrite class_unit_eq.
  assert (P : p_re transpile.internalDependencies_from
              = Seq (Lit (str "ROS3D" ++ str "."))
                  (Seqs [Group 1 w_plus; NegLook transpile.equals_ahead]))
    by reflexivity.
  mute_tac P.
  - apply (mute_statement _ _ _ _ _ _ P); [|vm_compute; reflexivity].
    apply (internalDependencies_from_assigned 0 65 (str "rrow2")); try done.
    apply (In_line_rest _ (str ".prototype.__proto__ = Base.prototype;"));
      [done|vm_compute; tauto].
  - apply (mute_statement _ _ _ _ _ _ P); [|vm_compute; reflexivity].
    apply (internalDependencies_from_assigned 0 65 (str "rrow2")); try done.
    apply (In_line_rest _ (str " = function(")); [done|vm_compute; tauto].
  - apply (mute_statement _ _ _ _ _ _ P); [|vm_compute; reflexivity].
    apply (internalDependencies_from_assigned 0 65 (str "rrow2")
             (str ".prototype." ++ (m ++ str " = function" ++ a2 ++ [LF] ++ unlines body2) ++ []));
      try done.
    rewrite <- !(assoc_L (++)).
    rewrite (assoc_L (++) (str ".prototype.")).
    change (str " = function" ++ a2 ++ [LF] ++ unlines body2 ++ [])
      with (str " =" ++ str " function" ++ a2 ++ [LF] ++ unlines body2 ++ []).
    rewrite (assoc_L (++) _ (str " =")).
    apply In_line_rest.
    + rewrite !forallb_app, (forallb_word_not_terminator _ Hm). done.
    + apply in_app_iff. right. vm_compute. tauto.
Qed.


Lemma unit2_eq :
  unit2
  = str "/**" ++ c ++ str "*/" ++ [LF]
    ++ str "ROS3D.Arrow2 = function(" ++ a1 ++ [LF]
    ++ unlines body1
    ++ str "ROS3D.Arrow2.prototype." ++ m ++ str " = function" ++ a2 ++ [LF]
    ++ unlines body2.
Proof.
  rewrite !unlines_cons, unlines_app, unlines_cons.
  rewrite method_line_eq. unfold doc_comment, constructor_line.
  by rewrite <- !(assoc_L (++)).
Qed.

Lemma unit4_eq :
  unit4
  = str "/**" ++ c ++ str "*/" ++ [LF]
    ++ str "ROS3D.Arrow2 = function(" ++ a1 ++ [LF]
    ++ unlines body1 ++ (m ++ a2) ++ [LF] ++ unlines body2.
Proof.
  rewrite !unlines_cons, unlines_app, unlines_cons.
  unfold doc_comment, constructor_line. set (ma := m ++ a2).
  by rewrite <- !(assoc_L (++)).
Qed.

Lemma unit5_eq :
  unit5
  = str "/**" ++ c ++ str "*/" ++ [LF]
    ++ str "constructor(" ++ a1 ++ [LF]
    ++ unlines body1 ++ (m ++ a2) ++ [LF] ++ unlines body2.
Proof.
  rewrite !unlines_cons, unlines_app, unlines_cons.
  unfold doc_comment. set (ma := m ++ a2).
  by rewrite <- !(assoc_L (++)).
Qed.

(** The first stage finds nothing either. *)
Lemma class_unit_initial :
  splice_str transpile.initialROS3DAssignment_to
    (scan_first transpile.initialROS3DAssignment_from 0 unit0) = unit0.
Proof.
  parts. rewrite scan_first_no_match; [apply splice_with_Keep|].
  assert (Hq : quiet (str " ROS3D") unit0 []).
  { pose proof (occurs_inside (str " ") (str "ROS3D") [] _ HcR) as HcR'.
    pose proof (occurs_inside (str " ") (str "ROS3D") [] _ Ha1R) as Ha1R'.
    pose proof (occurs_inside (str " ") (str "ROS3D") [] _ HmR2) as HmR2'.
    pose proof (Forall_occurs_inside (str " ") (str "ROS3D") [] _ Hb1R) as Hb1R'.
    pose proof (Forall_occurs_inside (str " ") (str "ROS3D") [] _ Hb2R) as Hb2R'.
    assert (Qm : ∀ r, quiet (str " ROS3D") m r).
    { intros r. apply quiet_no_head. intros Hin.
      rewrite forallb_forall in Hm. by specialize (Hm _ Hin). }
    rewrite class_unit_eq. repeat (apply quiet_app; [first [apply Qm|quiet_seg]|]).
    quiet_seg. }
  assert (P : p_re transpile.initialROS3DAssignment_from
              = Seq (Lit (str "var ROS3D = ROS3D || {"))
                  (Seqs [Chr LF; Lit (str "  REVISION : '0"); Dot; Lit (str "18");
                         Dot; Lit (str "0'"); Chr LF; Lit (str "};")]))
    by reflexivity.
  intros j. apply (exec_at_trigger _ _ _ _ _ P).
  apply (silent_inside (str "var") (str " ROS3D") (str " = ROS3D || {")).
  by apply quiet_silent.
Qed.

(** The link stage takes the link and its line feed away and records
    [Base] as the parent. *)
Lemma class_unit_proto (w : World) :
  inheritance.lookup (index w) (str "Arrow2") = JUndefined →
  replace transpile.buildInheritanceIndexViaProto_from
    transpile.buildInheritanceIndexViaProto unit0 w
  = Ok (unit2, set_index <[str "Arrow2" := Some (str "Base")]> w).
Proof.
  intros Hnew. parts. rewrite class_unit_eq, unit2_eq.
  set (A := str "/**" ++ c ++ str "*/" ++ [LF]).
  set (B := str "ROS3D.Arrow2 = function(" ++ a1 ++ [LF] ++ unlines body1
            ++ str "ROS3D.Arrow2.prototype." ++ m ++ str " = function" ++ a2
            ++ [LF] ++ unlines body2).
  assert (P : p_re transpile.buildInheritanceIndexViaProto_from
              = Seq (Lit (str "ROS3D" ++ [])) 
                  (Seqs [Dot; Group 1 w_plus; Dot;
                 Lit (str "prototype"); Dot; Lit (str "__proto__ = ");
                 Group 2 dot_star; Dot; Lit (str "prototype;");
                 Opt (Cls is_crlf)])) by reflexivity.
  pose (h := Hit_ (proto_statement (65 :: str "rrow2") (str "Base") ++ [LF])
               [None; Some (65 :: str "rrow2"); Some (str "Base")] (length A)).
  replace (str "/**" ++ c ++ str "*/" ++ [LF]
           ++ str "ROS3D.Arrow2.prototype.__proto__ = Base.prototype;" ++ [LF] ++ B)
    with (A ++ 82 :: (str "OS3D.Arrow2.prototype.__proto__ = Base.prototype;" ++ [LF]) ++ B)
    by (unfold A; by rewrite <- !(assoc_L (++))).
  replace (str "/**" ++ c ++ str "*/" ++ [LF] ++ B) with (A ++ [] ++ B)
    by (unfold A; by rewrite <- !(assoc_L (++))).
  apply (replace_once _ _ _ h).
  - unfold A. mute_tac P.
  - apply (buildInheritanceIndexViaProto_from_statement (length A) 65 (str "rrow2")
             (str "Base") ([LF] ++ B)); done.
  - reflexivity.
  - unfold B. mute_tac P.
    + apply (mute_statement _ _ _ _ _ _ P); [|vm_compute; reflexivity].
      apply proto_not_at_constructor.
    + apply (mute_statement _ _ _ _ _ _ P); [|vm_compute; reflexivity].
      rewrite <- !(assoc_L (++)). by apply proto_not_at_method.
  - reflexivity.
  - unfold transpile.buildInheritanceIndexViaProto.
    change (cap h 1) with (str "Arrow2"). change (cap h 2) with (str "Base").
    erewrite bind_Ok; [reflexivity|]. by apply track_new.
Qed.

(** The second link stage finds nothing. *)
Lemma class_unit_assign {S} (cb : hit → M S text) (s : S) :
  replace transpile.buildInheritanceIndexViaObjectAssign_from cb unit2 s
  = Ok (unit2, s).
Proof.
  parts. apply replace_mute; [|reflexivity]. rewrite unit2_eq.
  assert (P : p_re transpile.buildInheritanceIndexViaObjectAssign_from
              = Seq (Lit (str "Object" ++ []))
                  (Seqs [Dot; Lit (str "assign(");
                 Group 1 w_plus; Dot; Lit (str "prototype, ");
                 Group 2 dot_star; Dot; Lit (str "prototype);")])) by reflexivity.
  mute_tac P.
Qed.

(** The method stage leaves the name of the method in the place of the
    head of its statement. *)
Lemma class_unit_methods (w : World) :
  inheritance.isClass (index w) (str "Arrow2") = true →
  replace transpile.methods_from transpile.methods unit2 w = Ok (unit4, w).
Proof.
  intros Hcls. parts. rewrite unit2_eq, unit4_eq.
  destruct m as [|x2 name] eqn:Em; [done|]. rewrite <- Em in *.
  pose (A := str "/**" ++ c ++ str "*/" ++ [LF]
            ++ str "ROS3D.Arrow2 = function(" ++ a1 ++ [LF] ++ unlines body1).
  pose (B := a2 ++ [LF] ++ unlines body2).
  assert (P : p_re transpile.methods_from
              = Seq (Lit (str "ROS3D" ++ []))
                  (Seqs [Dot; Group 1 w_plus; Dot;
                 Lit (str "prototype"); Dot; Group 2 w_plus;
                 Lit (str " = function")])) by reflexivity.
  pose (h := Hit_ (method_statement (65 :: str "rrow2") m)
               [None; Some (65 :: str "rrow2"); Some m] (length A)).
  replace (str "/**" ++ c ++ str "*/" ++ [LF]
           ++ str "ROS3D.Arrow2 = function(" ++ a1 ++ [LF] ++ unlines body1
           ++ str "ROS3D.Arrow2.prototype." ++ m ++ str " = function" ++ a2 ++ [LF]
           ++ unlines body2)
    with (A ++ 82 :: (str "OS3D.Arrow2.prototype." ++ m ++ str " = function") ++ B)
    by (unfold A, B; by rewrite <- !(assoc_L (++))).
  replace (str "/**" ++ c ++ str "*/" ++ [LF]
           ++ str "ROS3D.Arrow2 = function(" ++ a1 ++ [LF] ++ unlines body1
           ++ (m ++ a2) ++ [LF] ++ unlines body2)
    with (A ++ m ++ B) by (unfold A, B; by rewrite <- !(assoc_L (++))).
  apply (replace_once _ _ _ h).
  - unfold A. mute_tac P.
    apply (mute_statement _ _ _ _ _ _ P); [|vm_compute; reflexivity].
    apply methods_not_at_constructor.
  - pose proof Hm as Hm'. rewrite Em in Hm'. cbn [forallb] in Hm'.
    apply andb_prop in Hm' as [Hx2 Hname].
    pose proof (methods_from_statement (length A) 65 (str "rrow2") x2 name B
                  eq_refl eq_refl Hx2 Hname) as E.
    rewrite <- Em in E. unfold method_statement in E.
    rewrite <- !(assoc_L (++)) in E.
    unfold h, method_statement. rewrite <- !(assoc_L (++)). exact E.
  - unfold h, method_statement. cbn [m_str]. by rewrite <- ?(assoc_L (++)).
  - unfold B. mute_tac P.
  - reflexivity.
  - unfold transpile.methods. change (cap h 2) with m. change (cap h 1) with (str "Arrow2").
    rewrite bool_decide_eq_false_2 by done.
    erewrite bind_Ok; [reflexivity|]. by apply track_known.
Qed.

(** The constructor stage puts the marker in the place of the head of
    the constructor, and prints nothing: the name is that of the file. *)
Lemma class_unit_constructors (filepath : text) (w : World) :
  transpile.getFileClass path_basename filepath = str "Arrow2" →
  inheritance.isClass (index w) (str "Arrow2") = true →
  replace transpile.constructors_from (transpile.constructors path_basename filepath)
    unit4 w = Ok (unit5, w).
Proof.
  intros Hfile Hcls. parts. rewrite unit4_eq, unit5_eq.
  pose (A := str "/**" ++ c ++ str "*/" ++ [LF]).
  pose (B := 40 :: a1 ++ [LF] ++ unlines body1 ++ (m ++ a2) ++ [LF] ++ unlines body2).
  assert (P : p_re transpile.constructors_from
              = Seq (Lit (str "ROS3D" ++ []))
                  (Seqs [Dot; Group 1 w_plus;
                 Star true (Cls is_space); Chr 61;
                 Star true (Cls is_space); Lit (str "function")])) by reflexivity.
  pose (h := Hit_ (constructor_statement (65 :: str "rrow2") (str " ") (str " "))
               [None; Some (65 :: str "rrow2")] (length A)).
  replace (str "/**" ++ c ++ str "*/" ++ [LF]
           ++ str "ROS3D.Arrow2 = function(" ++ a1 ++ [LF]
           ++ unlines body1 ++ (m ++ a2) ++ [LF] ++ unlines body2)
    with (A ++ 82 :: str "OS3D.Arrow2 = function" ++ B)
    by (unfold A, B; set (ma := m ++ a2); by rewrite <- !(assoc_L (++))).
  replace (str "/**" ++ c ++ str "*/" ++ [LF]
           ++ str "constructor(" ++ a1 ++ [LF]
           ++ unlines body1 ++ (m ++ a2) ++ [LF] ++ unlines body2)
    with (A ++ str "constructor" ++ B)
    by (unfold A, B; set (ma := m ++ a2); by rewrite <- !(assoc_L (++))).
  apply (replace_once _ _ _ h).
  - unfold A. mute_tac P.
  - apply (constructors_from_statement (length A) 65 (str "rrow2") (str " ") (str " ") B);
      done.
  - reflexivity.
  - unfold B. change (40 :: a1 ++ ?X) with ([40] ++ a1 ++ X). mute_tac P.
  - reflexivity.
  - rewrite constructors_call. unfold constructor_head, class_mismatch.
    change (cap h 1) with (str "Arrow2"). rewrite Hcls, Hfile.
    rewrite bool_decide_eq_true_2 by done. cbn [eqb].
    by rewrite add_console_nil.
Qed.

(** The stage of the superclass calls finds nothing. *)
Lemma class_unit_parentConstructors {S} (cb : hit → M S text) (s : S) :
  replace transpile.parentConstructors_from cb unit5 s = Ok (unit5, s).
Proof.
  parts. apply parentConstructors_silent. rewrite unit5_eq. quiet_tac.
Qed.

Local Abbreviation unit_out := (class_unit_output c a1 body1 m a2 body2).

(** The lines behind the constructor line end with a line that has
    text. *)
Lemma class_unit_lines :
  Forall (λ l, forallb not_terminator l = true
               ∧ starts_with (str "/**") l = false)
    (body1 ++ (m ++ a2) :: body2)
  ∧ last ([] :: body1 ++ (m ++ a2) :: body2) ≠ Some [].
Proof.
  parts. split.
  - apply Forall_app. split; [done|]. constructor; [|done]. split.
    + by rewrite forallb_app, (forallb_word_not_terminator _ Hm), Ha2.
    + destruct m as [|x name]; [done|]. cbn [forallb] in Hm.
      apply andb_prop in Hm as [Hx _]. change (str "/**") with [47; 42; 42].
      cbn [app starts_with]. destruct (x =? 47) eqn:E; [|done].
      apply N.eqb_eq in E. by subst x.
  - rewrite last_cons. rewrite last_app. rewrite last_cons.
    destruct (last body2) as [l|] eqn:El.
    + intros [= ->]. by apply Hlast.
    + intros [= E]. apply app_eq_nil in E as [-> _]. done.
Qed.

(** The class assembler opens the block at the comment and closes it at
    the end. *)
Lemma class_unit_classes (filepath : text) (w : World) :
  transpile.getFileClass path_basename filepath = str "Arrow2" →
  inheritance.getParent (index w) (str "Arrow2") = JStr (str "Base") →
  ∃ st',
    replace transpile.classes_from
      (transpile.classes path_basename inherited_text filepath) unit5
      (w, transpile.mkState false false)
    = Ok (unit_out, (w, st')).
Proof.
  intros Hfile Hparent. parts. destruct class_unit_lines as [Hlines Hl].
  unfold replace.
  destruct (classes_assemble path_basename inherited_text filepath
              (pieces transpile.classes_from unit5) w
              (transpile.mkState false false)) as [st' E].
  exists st'. rewrite E. f_equal. f_equal. clear E.
  rewrite Hfile, Hparent. cbn [truthy transpile.to_text].
  change (truthy (JStr (str "Base"))) with true. cbn iota.
  set (H := class_header _ _).
  set (la := body1 ++ (m ++ a2) :: body2) in *.
  set (M0 := str "/**" ++ c ++ str "*/" ++ [LF] ++ str "constructor(" ++ a1).
  assert (Eu : unlines (doc_comment c :: (str "constructor(" ++ a1) :: la)
               = M0 ++ unlines ([] :: la)).
  { rewrite !unlines_cons. unfold doc_comment, M0.
    by rewrite <- !(assoc_L (++)). }
  rewrite Eu. unfold pieces.
  rewrite (scan_hit_text _ (Hit_ M0 [None; Some M0; None] 0)); [| |done|].
  2:{ apply classes_from_pair; [done|done|done]. }
  2:{ unfold M0. by destruct c. }
  cbn [assemble].
  change (sweep_next _ _) with (transpile.mkState true true).
  change (sweep_out H _ _)
    with (H ++ indent ++ replace_str transpile.line_break (LF :: indent) M0).
  rewrite assemble_block; [|by constructor|done|done].
  unfold replace_str, pieces. rewrite replace_str_line_break.
  change (flat_map _ M0) with (indent_lines M0).
  unfold M0. rewrite !indent_lines_app, (indent_lines_line a1) by done.
  unfold class_unit_output, H, class_header.
  change (block ([] :: la)) with (block ([] :: body1 ++ (m ++ a2) :: body2)).
  destruct (body1 ++ (m ++ a2) :: body2) as [|l0 ls] eqn:Ela.
  { by destruct body1. }
  cbn [block app]. rewrite <- !(assoc_L (++)). done.
Qed.

(** The whole pipeline on the unit. *)
Lemma class_unit_run (filepath : text) (w : World) :
  transpile.getFileClass path_basename filepath = str "Arrow2" →
  inheritance.lookup (index w) (str "Arrow2") = JUndefined →
  transpile.transpileToEs6 path_basename inherited_text unit0 filepath w
  = Ok (unit_out,
        set_index <[str "Arrow2" := Some (str "Base")]>
          (add_console [Processing filepath] w)).
Proof.
  intros Hfile Hnew. unfold transpile.transpileToEs6.
  rewrite (bind_Ok _ _ _ _ _ (log_add _ _)).
  set (w1 := add_console [Processing filepath] w).
  assert (E0 : (if bool_decide (filepath = str "src/Ros3D.js")
                then splice_str transpile.initialROS3DAssignment_to
                       (scan_first transpile.initialROS3DAssignment_from 0 unit0)
                else unit0) = unit0).
  { case_bool_decide; [apply class_unit_initial|done]. }
  rewrite E0.
  rewrite (bind_Ok _ _ _ _ _ (class_unit_dependencies _ _)).
  rewrite (bind_Ok _ _ _ _ _ (class_unit_proto w1 Hnew)).
  set (w2 := set_index _ w1).
  assert (Hlook : inheritance.lookup (index w2) (str "Arrow2") = JStr (str "Base")).
  { unfold inheritance.lookup, w2. cbn [index set_index].
    by rewrite lookup_insert_eq. }
  assert (Hcls : inheritance.isClass (index w2) (str "Arrow2") = true).
  { unfold inheritance.isClass. by rewrite Hlook. }
  rewrite (bind_Ok _ _ _ _ _ (class_unit_assign _ _)).
  rewrite (bind_Ok _ _ _ _ _ (class_unit_methods w2 Hcls)).
  rewrite (bind_Ok _ _ _ _ _ (class_unit_constructors filepath w2 Hfile Hcls)).
  rewrite (bind_Ok _ _ _ _ _ (class_unit_parentConstructors _ _)).
  unfold with_state.
  destruct (class_unit_classes filepath w2 Hfile Hlook) as [st' ->]. done.
Qed.

(** What comes out holds none of the texts the stages look for, and
    none of its lines begins with a comment. *)
Lemma class_unit_out_quiet :
  quiet (str "ROS3D") unit_out [] ∧ quiet (str "Object") unit_out []
  ∧ quiet (str ".call(") unit_out [].
Proof.
  parts.
  assert (HR : Forall (λ a, occurs (str "ROS3D") a = false)
                 (body1 ++ (m ++ a2) :: body2))
    by (apply Forall_app; split; [done|by constructor]).
  assert (HO : Forall (λ a, occurs (str "Object") a = false)
                 (body1 ++ (m ++ a2) :: body2))
    by (apply Forall_app; split; [done|by constructor]).
  assert (HC : Forall (λ a, occurs (str ".call(") a = false)
                 (body1 ++ (m ++ a2) :: body2))
    by (apply Forall_app; split; [done|by constructor]).
  assert (Hne : body1 ++ (m ++ a2) :: body2 ≠ []) by (by destruct body1).
  unfold class_unit_output. rewrite (block_behind _ _ Hne).
  change (match str "constructor(" ++ a1 with [] => [] | _ :: _ => indent end)
    with indent.
  change (?h ++ LF :: LF :: ?r) with (h ++ [LF; LF] ++ r).
  change (str "*/" ++ LF :: ?r) with (str "*/" ++ [LF] ++ r).
  rewrite <- !(assoc_L (++)).
  split; [|split].
  - quiet_parts 82 (str "OS3D").
  - quiet_parts 79 (str "bject").
  - quiet_parts 46 (str "call(").
Qed.

Lemma class_unit_out_calm : calm unit_out = true.
Proof.
  parts. destruct class_unit_lines as [Hlines _]. unfold calm.
  apply andb_true_intro. split; [reflexivity|]. unfold class_unit_output.
  apply no_comment_after_break_free; [reflexivity|].
  apply no_comment_after_break_cons; [reflexivity|].
  apply no_comment_after_break_cons; [reflexivity|].
  apply (no_comment_after_break_free indent); [reflexivity|].
  apply (no_comment_after_break_free (str "/**")); [reflexivity|].
  apply no_comment_after_break_indent_lines; [done|].
  apply (no_comment_after_break_free (str "*/")); [reflexivity|].
  destruct (block_indented ((str "constructor(" ++ a1)
                            :: body1 ++ (m ++ a2) :: body2)) as [r Er]; [done|].
  apply no_comment_after_break_cons; [by rewrite Er|].
  apply no_comment_after_break_block. constructor.
  - by rewrite forallb_app, Ha1.
  - eapply Forall_impl; [exact Hlines|]. by intros ? [].
Qed.

Lemma class_unit_out_settled (filepath : text) (idx : gmap text (option text)) :
  settled filepath idx unit_out = true
  ∧ pattern_free unit_out = true.
Proof.
  destruct class_unit_out_quiet as (QR & QO & QC).
  destruct (quiet_stages _ QR) as (E1 & E2 & E3 & E5 & E6).
  pose proof (quiet_assign _ QO) as E4.
  assert (E7 : matches transpile.parentConstructors_from unit_out = [])
    by (by apply parentConstructors_no_hits).
  pose proof (matches_calm _ class_unit_out_calm) as E8.
  unfold settled, pattern_free. rewrite E1, E2, E3, E4, E5, E6, E7, E8.
  split; [|done]. by rewrite orb_true_r.
Qed.

End ClassUnit.

(** ** The pipeline on its own output *)

Lemma splice_kept {S} (cb : hit → M S text) ps (s : S) :
  (∀ h, In h (hits ps) → cb h s = Ok (m_str h, s)) →
  splice cb ps s = Ok (splice_with m_str ps, s).
Proof.
  induction ps as [|[x|h] ps IH]; intros H; cbn [splice splice_with hits] in *.
  - done.
  - unfold bind. by rewrite IH.
  - unfold bind. rewrite (H h) by (by left).
    rewrite IH; [done|]. intros h' Hh'. apply H. by right.
Qed.



(** ** Runs on given texts

    The theorems above at given inputs, with a [path.basename] for POSIX
    paths and the texts of V8 as the host, and the inputs on which the
    stages depart from what one may expect of them. *)



Lemma scenario_B_plain_function_witness :
  ∃ w',
    transpile.transpileToEs6 posix_basename v8_inherited_text
      (str "ROS3D.util = function(x) { return x; };") (str "src/util.js") empty_world
    = Ok (str "ROS3D.util = function(x) { return x; };", w')
    ∧ index w' = index empty_world ∧ internal w' = internal empty_world
    ∧ inheritance.isClass (index w') (str "util") = false.
Proof.
  refine (scenario_B_plain_function posix_basename v8_inherited_text
            (str "src/util.js") empty_world _).
  vm_compute. reflexivity.
Defined.

Lemma parentConstructors_without_parent_witness :
  is_string (inheritance.getParent (index empty_world)
               (transpile.getFileClass posix_basename (str "src/models/Arrow2.js")))
  = false
  ∧ replace transpile.parentConstructors_from
      (transpile.parentConstructors posix_basename (str "src/models/Arrow2.js"))
      (LF :: str "  THREE.Object3D.call(this);") empty_world
    = Ok ([], add_console
                [RemovingExtraParentConstructorCall
                   (LF :: str "  THREE.Object3D.call(this);")] empty_world).
Proof.
  split; [vm_compute; reflexivity|].
  refine (eq_trans
            (proj1 (parentConstructors_without_parent posix_basename
                      (str "src/models/Arrow2.js")
                      (LF :: str "  THREE.Object3D.call(this);") empty_world _)) _);
    vm_compute; reflexivity.
Defined.

(** C10, counterexample.  In a unit without recorded parent: a superclass
    call on the first line of the text is not matched, no line break
    preceding it, and stays, without notice; and of a call written over
    two lines only the first line is deleted. *)
Lemma parentConstructors_statement_not_deleted :
  inheritance.getParent (index empty_world)
    (transpile.getFileClass posix_basename (str "src/models/Arrow2.js"))
  = JUndefined
  ∧ replace transpile.parentConstructors_from
      (transpile.parentConstructors posix_basename (str "src/models/Arrow2.js"))
      (str "Base.call(this);" ++ LF :: str "var x;") empty_world
    = Ok (str "Base.call(this);" ++ LF :: str "var x;", empty_world)
  ∧ replace transpile.parentConstructors_from
      (transpile.parentConstructors posix_basename (str "src/models/Arrow2.js"))
      (str "{" ++ LF :: str "  Base.call(this," ++ LF :: str "    a, b);") empty_world
    = Ok (str "{" ++ LF :: str "    a, b);",
          add_console
            [RemovingExtraParentConstructorCall (LF :: str "  Base.call(this,")]
            empty_world).
Proof. split; [|split]; vm_compute; reflexivity. Qed.

(** C2, counterexample.  In the unit of [Arrow2], whose recorded parent
    is [Base], the call [Base.call(this, f(a), b);] is not rewritten to
    [super(f(a), b);]: the closing parenthesis inside the arguments is
    taken for a separator and comes back as a comma. *)
Lemma parentConstructors_nested_parenthesis :
  replace transpile.parentConstructors_from
    (transpile.parentConstructors posix_basename (str "src/models/Arrow2.js"))
    (LF :: str "Base.call(this, f(a), b);") arrow2_world
  = Ok (LF :: str "super(f(a,, b);", arrow2_world)
  ∧ LF :: str "super(f(a,, b);" ≠ LF :: str "super(f(a), b);".
Proof. split; [vm_compute; reflexivity|by vm_compute]. Qed.

Lemma parentConstructors_statement_rewritten_witness :
  ∃ h, exec_at transpile.parentConstructors_from 22
         (call_line LF (str "  ") (str "Base") (str "this") (str ", a, b);") ++ [LF])
       = Some h
       ∧ m_str h = LF :: str "  Base.call(this, a, b);"
       ∧ (inheritance.getParent (index arrow2_world)
            (transpile.getFileClass posix_basename (str "src/models/Arrow2.js"))
          = JStr (str "Base") →
          transpile.parentConstructors posix_basename (str "src/models/Arrow2.js")
            h arrow2_world
          = Ok (LF :: str "  " ++ str "super(" ++ str "a, b" ++ str ");",
                arrow2_world))
       ∧ (inheritance.getParent (index arrow2_world)
            (transpile.getFileClass posix_basename (str "src/models/Arrow2.js"))
          ≠ JStr (str "Base") →
          transpile.parentConstructors posix_basename (str "src/models/Arrow2.js")
            h arrow2_world
          = Ok ([], add_console
                      [RemovingExtraParentConstructorCall
                         (call_line LF (str "  ") (str "Base") (str "this")
                            (str ", a, b);"))] arrow2_world)).
Proof.
  refine (parentConstructors_statement_rewritten posix_basename
            (str "src/models/Arrow2.js") arrow2_world 22 LF
            (str "  ") (str "Base") (str "this") (str ", a, b);") [LF] (str "a, b")
            _ _ _ _ _ _ _ _);
    try (vm_compute; reflexivity).
  - discriminate.
  - by left.
  - apply (call_some_args [] (str " a, b") (str ";")); vm_compute; reflexivity.
Defined.

(** C3, counterexample.  The assignment to [ROS3D.Foo] whose [=] stands
    on the next line: the stage records [Foo] as a dependency of the
    file and strips the prefix of the assigned reference. *)
Lemma internalDependencies_assignment_over_two_lines :
  ∃ w',
    replace transpile.internalDependencies_from
      (transpile.internalDependencies (str "src/Foo.js"))
      (str "ROS3D.Foo" ++ LF :: str "  = 1;") empty_world
    = Ok (str "Foo" ++ LF :: str "  = 1;", w')
    ∧ internal w' !! str "src/Foo.js" = Some [str "Foo"]
    ∧ assigned_next (drop (length (str "ROS3D.Foo"))
                       (str "ROS3D.Foo" ++ LF :: str "  = 1;")) = true.
Proof.
  eexists. split; [vm_compute; reflexivity|].
  split; vm_compute; reflexivity.
Qed.

Lemma internalDependencies_not_assigned_on_line_witness :
  ∃ pre post,
    str "return ROS3D.findClosestPoint(axisRay, mpRay);"
    = pre ++ str "ROS3D." ++ str "findClosestPoint" ++ post
    ∧ ¬ In 61 (line_rest post).
Proof.
  refine (internalDependencies_not_assigned_on_line
            (str "src/a.js") (str "return ROS3D.findClosestPoint(axisRay, mpRay);")
            (str "return findClosestPoint(axisRay, mpRay);")
            (str "findClosestPoint") empty_world
            (mkWorld ∅ {[ str "src/a.js" := [str "findClosestPoint"] ]} []) _ _ _).
  - vm_compute. reflexivity.
  - vm_compute. left. reflexivity.
  - vm_compute. intros [].
Defined.


Example scenario_A_concrete :
  ∃ w',
    transpile.transpileToEs6 posix_basename v8_inherited_text
      scenario_A_input (str "src/models/Arrow2.js") empty_world
    = Ok (scenario_A_output, w').
Proof. eexists. vm_compute. reflexivity. Qed.


(** A longer unit of the shape of Scenario A: a comment of three lines,
    bodies of more than one line, one of them empty. *)
Example scenario_A_longer :
  class_unit_ok
    (LF :: str " * An arrow." ++ LF :: str " * @constructor" ++ [LF; 32])
    (str "options) {")
    [str "  this.x = options.x;"; []; str "};"; []]
    (str "dispose") (str "() {")
    [str "  this.x = null;"; str "};"] = true
  ∧ class_unit
      (LF :: str " * An arrow." ++ LF :: str " * @constructor" ++ [LF; 32])
      (str "options) {")
      [str "  this.x = options.x;"; []; str "};"; []]
      (str "dispose") (str "() {")
      [str "  this.x = null;"; str "};"]
    = str "/**" ++ LF :: str " * An arrow." ++ LF :: str " * @constructor" ++ LF ::
      str " */" ++ LF ::
      str "ROS3D.Arrow2.prototype.__proto__ = Base.prototype;" ++ LF ::
      str "ROS3D.Arrow2 = function(options) {" ++ LF ::
      str "  this.x = options.x;" ++ LF :: LF ::
      str "};" ++ LF :: LF ::
      str "ROS3D.Arrow2.prototype.dispose = function() {" ++ LF ::
      str "  this.x = null;" ++ LF ::
      str "};" ++ [LF]
  ∧ ∃ w',
      transpile.transpileToEs6 posix_basename v8_inherited_text
        (class_unit
           (LF :: str " * An arrow." ++ LF :: str " * @constructor" ++ [LF; 32])
           (str "options) {")
           [str "  this.x = options.x;"; []; str "};"; []]
           (str "dispose") (str "() {")
           [str "  this.x = null;"; str "};"])
        (str "src/models/Arrow2.js") empty_world
      = Ok (str "export class Arrow2 extends Base {" ++ LF :: LF ::
            str "  /**" ++ LF :: str "   * An arrow." ++ LF ::
            str "   * @constructor" ++ LF :: str "   */" ++ LF ::
            str "  constructor(options) {  " ++ LF ::
            str "    this.x = options.x;  " ++ LF ::
            str "  " ++ LF ::
            str "  };  " ++ LF ::
            str "  " ++ LF ::
            str "  dispose() {  " ++ LF ::
            str "    this.x = null;  " ++ LF ::
            str "  };" ++ LF ::
            str "}" ++ [LF], w').
Proof.
  split; [vm_compute; reflexivity|]. split; [vm_compute; reflexivity|].
  eexists. vm_compute. reflexivity.
Qed.

(** C5, counterexample.  Scenario B: what the pipeline returns still
    begins with the qualified reference; the dependency stage, which
    strips the prefix, passes over a reference that [=] follows. *)
Lemma scenario_B_keeps_prefix :
  ∃ w',
    transpile.transpileToEs6 posix_basename v8_inherited_text
      (str "ROS3D.util = function(x) { return x; };") (str "src/util.js") empty_world
    = Ok (str "ROS3D.util = function(x) { return x; };", w')
    ∧ take 10 (str "ROS3D.util = function(x) { return x; };") = str "ROS3D.util"
    ∧ matches transpile.internalDependencies_from
        (str "ROS3D.util = function(x) { return x; };") = [].
Proof.
  eexists. split; [vm_compute; reflexivity|].
  split; vm_compute; reflexivity.
Qed.

(** ** The examples in the comments of the source *)

Example global_replace_of_lines :
  replace_str (Pattern dot_star 0) (str "X") (str "abc" ++ LF :: str "def")
  = str "XX" ++ LF :: str "XX".
Proof. vm_compute. reflexivity. Qed.

Example internalDependencies_comment :
  replace transpile.internalDependencies_from
    (transpile.internalDependencies (str "src/a.js"))
    (str "return ROS3D.findClosestPoint(axisRay, mpRay);") empty_world
  = Ok (str "return findClosestPoint(axisRay, mpRay);",
        mkWorld ∅ {[ str "src/a.js" := [str "findClosestPoint"] ]} []).
Proof. vm_compute. reflexivity. Qed.

Example buildInheritanceIndexViaProto_comment :
  replace transpile.buildInheritanceIndexViaProto_from
    transpile.buildInheritanceIndexViaProto
    (str "ROS3D.PoseWithCovariance.prototype.__proto__ = THREE.Object3D.prototype;")
    empty_world
  = Ok ([], mkWorld {[ str "PoseWithCovariance" := Some (str "THREE.Object3D") ]}
              ∅ []).
Proof. vm_compute. reflexivity. Qed.

Example buildInheritanceIndexViaObjectAssign_comment :
  replace transpile.buildInheritanceIndexViaObjectAssign_from
    transpile.buildInheritanceIndexViaObjectAssign
    (str "Object.assign(InteractiveMarker.prototype, THREE.EventDispatcher.prototype);")
    empty_world
  = Ok ([], mkWorld {[ str "InteractiveMarker" := Some (str "THREE.EventDispatcher") ]}
              ∅ []).
Proof. vm_compute. reflexivity. Qed.

Example methods_comment :
  replace transpile.methods_from transpile.methods
    (str "ROS3D.Arrow2.prototype.dispose = function() { ... };") empty_world
  = Ok (str "dispose() { ... };", mkWorld {[ str "Arrow2" := None ]} ∅ []).
Proof. vm_compute. reflexivity. Qed.

Example constructors_comment :
  replace transpile.constructors_from
    (transpile.constructors posix_basename (str "src/models/Arrow2.js"))
    (str "ROS3D.Arrow2 = function(options) { ... };") arrow2_world
  = Ok (str "constructor(options) { ... };", arrow2_world).
Proof. vm_compute. reflexivity. Qed.

Example parentConstructors_comment :
  replace transpile.parentConstructors_from
    (transpile.parentConstructors posix_basename (str "src/models/Arrow2.js"))
    (str "constructor(options) {" ++ LF ::
     str "  THREE.ArrowHelper.call(this, direction, origin, length, 0xff0000);")
    (mkWorld {[ str "Arrow2" := Some (str "THREE.ArrowHelper") ]} ∅ [])
  = Ok (str "constructor(options) {" ++ LF ::
        str "  super(direction, origin, length, 0xff0000);",
        mkWorld {[ str "Arrow2" := Some (str "THREE.ArrowHelper") ]} ∅ []).
Proof. vm_compute. reflexivity. Qed.

(** The pattern of the superclass calls begins with a line break: a call
    on the first line of a text is not matched. *)
Example parentConstructors_first_line :
  matches transpile.parentConstructors_from (str "Base.call(this, a);") = [].
Proof. vm_compute. reflexivity. Qed.

(** Two statements on a line: the dependency stage passes over the first
    reference while [=] follows, and finds it once the method stage has
    taken the [=] away. *)
Example transpileToEs6_twice_on_a_line :
  ∃ w1 w2,
    transpile.transpileToEs6 posix_basename v8_inherited_text
      (str "ROS3D.a(); ROS3D.B.prototype.c = function() {};") (str "src/B.js")
      empty_world
    = Ok (str "ROS3D.a(); c() {};", w1)
    ∧ transpile.transpileToEs6 posix_basename v8_inherited_text
        (str "ROS3D.a(); c() {};") (str "src/B.js") w1
      = Ok (str "a(); c() {};", w2).
Proof. eexists _, _. split; vm_compute; reflexivity. Qed.


(** ** Further runs on given texts *)

Lemma dependencies_track_records_witness :
  ∃ w', dependencies.track (str "src/a.js") (str "x") empty_world = Ok (tt, w')
        ∧ str "x" ∈ deps_of (internal w') (str "src/a.js")
        ∧ (∃ l, deps_of (internal w') (str "src/a.js")
                = deps_of (internal empty_world) (str "src/a.js") ++ l)
        ∧ (∀ x, x ∈ deps_of (internal w') (str "src/a.js")
                ↔ x ∈ deps_of (internal empty_world) (str "src/a.js") ∨ x = str "x")
        ∧ (NoDup (deps_of (internal empty_world) (str "src/a.js")) →
           NoDup (deps_of (internal w') (str "src/a.js")))
        ∧ (∀ g, g ≠ str "src/a.js" → internal w' !! g = internal empty_world !! g)
        ∧ index w' = index empty_world ∧ console w' = console empty_world
        ∧ dependencies.track (str "src/a.js") (str "x") w' = Ok (tt, w').
Proof.
  refine (dependencies_track_records (str "src/a.js") (str "x") empty_world _).
  vm_compute. reflexivity.
Defined.

Lemma inherited_names_count_as_classes_witness :
  inheritance.isClass (index empty_world) (str "toString") = true
  ∧ inheritance.track (str "toString") (Some (str "Base")) empty_world
    = Ok (tt, empty_world)
  ∧ ∀ path_basename filepath h,
      cap h 1 = str "toString" →
      ∃ w', transpile.constructors path_basename filepath h empty_world
            = Ok (str "constructor", w').
Proof.
  refine (inherited_names_count_as_classes (str "toString") (Some (str "Base"))
            empty_world _ _);
    vm_compute; reflexivity.
Defined.

Lemma initialROS3DAssignment_first_only_witness :
  splice_str transpile.initialROS3DAssignment_to
    (scan_first transpile.initialROS3DAssignment_from 0
       ((str "/** a */" ++ [LF]) ++ initial_assignment 46 46
        ++ LF :: str "ROS3D.MARKER_ARROW = 0;"))
  = (str "/** a */" ++ [LF]) ++ str "export const REVISION = '0.18.0';"
    ++ LF :: str "ROS3D.MARKER_ARROW = 0;"
  ∧ (pattern_free ((str "/** a */" ++ [LF]) ++ str "export const REVISION = '0.18.0';"
                   ++ LF :: str "ROS3D.MARKER_ARROW = 0;") = true →
     transpile.transpileToEs6 posix_basename v8_inherited_text
       ((str "/** a */" ++ [LF]) ++ initial_assignment 46 46
        ++ LF :: str "ROS3D.MARKER_ARROW = 0;") (str "src/Ros3D.js") empty_world
     = Ok ((str "/** a */" ++ [LF]) ++ str "export const REVISION = '0.18.0';"
           ++ LF :: str "ROS3D.MARKER_ARROW = 0;",
           add_console [Processing (str "src/Ros3D.js")] empty_world)).
Proof.
  refine (initialROS3DAssignment_first_only posix_basename v8_inherited_text
            (str "/** a */" ++ [LF]) (LF :: str "ROS3D.MARKER_ARROW = 0;")
            46 46 empty_world _ _ _);
    [vm_compute; reflexivity..|].
  intros j Hj. do 9 (destruct j as [|j]; [vm_compute; reflexivity|]).
  change (length (str "/** a */" ++ [LF])) with 9%nat in Hj. lia.
Defined.

(** The text of that run holds no pattern of a stage once the first stage
    has run. *)
Example initialROS3DAssignment_pattern_free :
  pattern_free ((str "/** a */" ++ [LF]) ++ str "export const REVISION = '0.18.0';"
                ++ LF :: str "ROS3D.MARKER_ARROW = 0;") = true.
Proof. vm_compute. reflexivity. Qed.

Lemma internalDependencies_stage_witness :
  ∃ w', replace transpile.internalDependencies_from
          (transpile.internalDependencies (str "src/a.js"))
          (str "ROS3D.f(ROS3D.g, ROS3D.f)") empty_world
        = Ok (splice_with (λ h, cap h 1)
                (pieces transpile.internalDependencies_from
                   (str "ROS3D.f(ROS3D.g, ROS3D.f)")), w')
    ∧ deps_of (internal w') (str "src/a.js")
      = fold_left add_dep
          (map (λ h, cap h 1)
             (matches transpile.internalDependencies_from
                (str "ROS3D.f(ROS3D.g, ROS3D.f)")))
          (deps_of (internal empty_world) (str "src/a.js"))
    ∧ (∀ x, x ∈ deps_of (internal w') (str "src/a.js")
            ↔ x ∈ deps_of (internal empty_world) (str "src/a.js")
              ∨ ∃ h, In h (matches transpile.internalDependencies_from
                             (str "ROS3D.f(ROS3D.g, ROS3D.f)"))
                     ∧ cap h 1 = x)
    ∧ (∃ l, deps_of (internal w') (str "src/a.js")
            = deps_of (internal empty_world) (str "src/a.js") ++ l)
    ∧ (NoDup (deps_of (internal empty_world) (str "src/a.js")) →
       NoDup (deps_of (internal w') (str "src/a.js")))
    ∧ (∀ g, g ≠ str "src/a.js" → internal w' !! g = internal empty_world !! g)
    ∧ index w' = index empty_world ∧ console w' = console empty_world.
Proof.
  refine (internalDependencies_stage (str "src/a.js")
            (str "ROS3D.f(ROS3D.g, ROS3D.f)") empty_world _).
  vm_compute. reflexivity.
Defined.

Lemma internalDependencies_reference_witness :
  ∃ h w',
    exec_at transpile.internalDependencies_from 7
      (str "ROS3D." ++ 102 :: str "oo" ++ str "(1);") = Some h
    ∧ m_str h = str "ROS3D." ++ 102 :: str "oo"
    ∧ transpile.internalDependencies (str "src/a.js") h empty_world
      = Ok (102 :: str "oo", w')
    ∧ 102 :: str "oo" ∈ deps_of (internal w') (str "src/a.js").
Proof.
  refine (internalDependencies_reference (str "src/a.js") empty_world 7 102
            (str "oo") (str "(1);") _ _ _ _ _);
    try (vm_compute; reflexivity).
  vm_compute. intuition discriminate.
Defined.

Lemma link_stage_first_wins_witness :
  ∃ w', replace transpile.buildInheritanceIndexViaProto_from
          transpile.buildInheritanceIndexViaProto
          (str "ROS3D.A.prototype.__proto__ = B.prototype;") empty_world
        = Ok (splice_with (λ _, [])
                (pieces transpile.buildInheritanceIndexViaProto_from
                   (str "ROS3D.A.prototype.__proto__ = B.prototype;")), w')
    ∧ internal w' = internal empty_world ∧ console w' = console empty_world
    ∧ (∀ k, inheritance.getParent (index w') k
            = fold_left (λ v h, if bool_decide (k = cap h 1)
                                then tracked v (Some (cap h 2)) else v)
                (matches transpile.buildInheritanceIndexViaProto_from
                   (str "ROS3D.A.prototype.__proto__ = B.prototype;"))
                (inheritance.getParent (index empty_world) k))
    ∧ (∀ k, truthy (inheritance.getParent (index empty_world) k) = true →
            inheritance.getParent (index w') k
            = inheritance.getParent (index empty_world) k)
    ∧ (∀ pre h post,
         matches transpile.buildInheritanceIndexViaProto_from
           (str "ROS3D.A.prototype.__proto__ = B.prototype;") = pre ++ h :: post →
         (∀ h', In h' pre → cap h' 1 ≠ cap h 1) →
         cap h 2 ≠ [] →
         truthy (inheritance.getParent (index empty_world) (cap h 1)) = false →
         inheritance.getParent (index w') (cap h 1) = JStr (cap h 2))
    ∧ (∀ h, In h (matches transpile.buildInheritanceIndexViaProto_from
                    (str "ROS3D.A.prototype.__proto__ = B.prototype;")) →
            inheritance.isClass (index w') (cap h 1) = true)
    ∧ (∀ k q, inheritance.getParent (index w') k = JStr q →
              inheritance.getParent (index empty_world) k = JStr q
              ∨ ∃ h, In h (matches transpile.buildInheritanceIndexViaProto_from
                             (str "ROS3D.A.prototype.__proto__ = B.prototype;"))
                     ∧ cap h 1 = k ∧ cap h 2 = q).
Proof.
  refine (link_stage_first_wins transpile.buildInheritanceIndexViaProto_from
            transpile.buildInheritanceIndexViaProto
            (str "ROS3D.A.prototype.__proto__ = B.prototype;") empty_world _).
  left. reflexivity.
Defined.

Lemma buildInheritanceIndexViaProto_statement_witness :
  ∃ h w',
    exec_at transpile.buildInheritanceIndexViaProto_from 0
      (proto_statement (str "Arrow2") (str "THREE.ArrowHelper") ++ [LF]) = Some h
    ∧ m_str h = proto_statement (str "Arrow2") (str "THREE.ArrowHelper")
                ++ line_break_of [LF]
    ∧ transpile.buildInheritanceIndexViaProto h empty_world = Ok ([], w')
    ∧ (truthy (inheritance.getParent (index empty_world) (str "Arrow2")) = false →
       str "THREE.ArrowHelper" ≠ [] →
       inheritance.getParent (index w') (str "Arrow2") = JStr (str "THREE.ArrowHelper"))
    ∧ (truthy (inheritance.getParent (index empty_world) (str "Arrow2")) = true →
       inheritance.getParent (index w') (str "Arrow2")
       = inheritance.getParent (index empty_world) (str "Arrow2"))
    ∧ (∀ k, k ≠ str "Arrow2" →
            inheritance.getParent (index w') k
            = inheritance.getParent (index empty_world) k)
    ∧ internal w' = internal empty_world ∧ console w' = console empty_world.
Proof.
  refine (buildInheritanceIndexViaProto_statement empty_world 0 (str "Arrow2")
            (str "THREE.ArrowHelper") [LF] _ _ _ _);
    try (vm_compute; reflexivity).
  discriminate.
Defined.

Lemma buildInheritanceIndexViaObjectAssign_statement_witness :
  ∃ h w',
    exec_at transpile.buildInheritanceIndexViaObjectAssign_from 0
      (assign_statement (str "InteractiveMarker") (str "THREE.EventDispatcher") ++ [])
    = Some h
    ∧ m_str h = assign_statement (str "InteractiveMarker") (str "THREE.EventDispatcher")
    ∧ transpile.buildInheritanceIndexViaObjectAssign h empty_world = Ok ([], w')
    ∧ (truthy (inheritance.getParent (index empty_world) (str "InteractiveMarker"))
       = false →
       str "THREE.EventDispatcher" ≠ [] →
       inheritance.getParent (index w') (str "InteractiveMarker")
       = JStr (str "THREE.EventDispatcher"))
    ∧ (truthy (inheritance.getParent (index empty_world) (str "InteractiveMarker"))
       = true →
       inheritance.getParent (index w') (str "InteractiveMarker")
       = inheritance.getParent (index empty_world) (str "InteractiveMarker"))
    ∧ (∀ k, k ≠ str "InteractiveMarker" →
            inheritance.getParent (index w') k
            = inheritance.getParent (index empty_world) k)
    ∧ internal w' = internal empty_world ∧ console w' = console empty_world.
Proof.
  refine (buildInheritanceIndexViaObjectAssign_statement empty_world 0
            (str "InteractiveMarker") (str "THREE.EventDispatcher") [] _ _ _ _);
    try (vm_compute; reflexivity).
  discriminate.
Defined.

Lemma methods_statement_witness :
  ∃ h, exec_at transpile.methods_from 0
         (method_statement (str "Arrow2") (str "dispose") ++ str "() {}") = Some h
    ∧ m_str h = method_statement (str "Arrow2") (str "dispose")
    ∧ (str "dispose" = str "__proto__" →
       transpile.methods h empty_world
       = Ok (method_statement (str "Arrow2") (str "dispose"), empty_world))
    ∧ (str "dispose" ≠ str "__proto__" →
       ∃ w', transpile.methods h empty_world = Ok (str "dispose", w')
             ∧ inheritance.isClass (index w') (str "Arrow2") = true
             ∧ ∀ k p, inheritance.getParent (index empty_world) k = JStr p →
                      inheritance.getParent (index w') k = JStr p).
Proof.
  refine (methods_statement empty_world 0 (str "Arrow2") (str "dispose")
            (str "() {}") _ _ _ _);
    try (vm_compute; reflexivity); discriminate.
Defined.

Lemma constructors_statement_witness :
  ∃ h w',
    exec_at transpile.constructors_from 0
      (constructor_statement (str "Arrow2") (str " ") (str " ") ++ str "(options) {")
    = Some h
    ∧ m_str h = constructor_statement (str "Arrow2") (str " ") (str " ")
    ∧ transpile.constructors posix_basename (str "src/models/Arrow2.js") h arrow2_world
      = Ok (if inheritance.isClass (index arrow2_world) (str "Arrow2")
            then str "constructor"
            else constructor_statement (str "Arrow2") (str " ") (str " "), w')
    ∧ index w' = index arrow2_world ∧ internal w' = internal arrow2_world.
Proof.
  refine (constructors_statement posix_basename (str "src/models/Arrow2.js")
            arrow2_world 0 (str "Arrow2") (str " ") (str " ") (str "(options) {")
            _ _ _ _);
    try (vm_compute; reflexivity).
  discriminate.
Defined.

Lemma super_args_between_witness :
  transpile.super_args ([] ++ 44 :: str " f(a), b" ++ 41 :: str ";")
  = trim (map sep_to_comma (str " f(a), b"))
  ∧ transpile.super_args ([] ++ 44 :: str ";") = []
  ∧ transpile.super_args ([] ++ str ";") = [].
Proof.
  refine (super_args_between [] (str " f(a), b") (str ";") 44 41 _ _ _ _);
    vm_compute; reflexivity.
Defined.

Lemma classes_header_witness :
  transpile.classes posix_basename v8_inherited_text (str "src/models/Arrow2.js")
    (Hit_ (str "/** c */" ++ LF :: str "constructor(x) {}")
       [None; Some (str "/** c */" ++ LF :: str "constructor(x) {}"); None] 0)
    (arrow2_world, transpile.mkState false false)
  = Ok (str "export class "
        ++ transpile.getFileClass posix_basename (str "src/models/Arrow2.js")
        ++ match inheritance.getParent (index arrow2_world)
                   (transpile.getFileClass posix_basename (str "src/models/Arrow2.js"))
           with
           | JStr (c :: p) => str " extends " ++ c :: p
           | JInherited k => str " extends " ++ v8_inherited_text k
           | _ => []
           end
        ++ str " {" ++ [LF; LF] ++ indent
        ++ indent_lines (str "/** c */" ++ LF :: str "constructor(x) {}"),
        (arrow2_world, transpile.mkState true true)).
Proof.
  refine (classes_header posix_basename v8_inherited_text (str "src/models/Arrow2.js")
            (Hit_ (str "/** c */" ++ LF :: str "constructor(x) {}")
               [None; Some (str "/** c */" ++ LF :: str "constructor(x) {}"); None] 0)
            arrow2_world (transpile.mkState false false) _).
  vm_compute. reflexivity.
Defined.

Lemma classes_without_comment_witness :
  replace transpile.classes_from
    (transpile.classes posix_basename v8_inherited_text (str "src/models/Arrow2.js"))
    (str "constructor(options) {" ++ LF :: str "};")
    (arrow2_world, transpile.mkState false false)
  = Ok (str "constructor(options) {" ++ LF :: str "};",
        (arrow2_world, transpile.mkState false false)).
Proof.
  refine (classes_without_comment posix_basename v8_inherited_text
            (str "src/models/Arrow2.js")
            (str "constructor(options) {" ++ LF :: str "};") arrow2_world _).
  vm_compute. reflexivity.
Defined.

Lemma transpileToEs6_index_grows_witness :
  index_wf (index (mkWorld {[ str "A" := None ]} ∅ [Processing (str "src/A.js")]))
  ∧ (∀ k, inheritance.isClass (index empty_world) k = true →
          inheritance.isClass
            (index (mkWorld {[ str "A" := None ]} ∅ [Processing (str "src/A.js")])) k
          = true)
  ∧ (∀ k p, inheritance.getParent (index empty_world) k = JStr p →
            inheritance.getParent
              (index (mkWorld {[ str "A" := None ]} ∅ [Processing (str "src/A.js")])) k
            = JStr p).
Proof.
  refine (transpileToEs6_index_grows posix_basename v8_inherited_text
            (str "ROS3D.A.prototype.m = function() {};") (str "src/A.js")
            (str "m() {};") empty_world
            (mkWorld {[ str "A" := None ]} ∅ [Processing (str "src/A.js")]) _ _).
  - apply index_wf_empty.
  - vm_compute. reflexivity.
Defined.

Lemma transpileToEs6_dependencies_grow_witness :
  (∀ g, g ≠ str "src/a.js" →
        internal (mkWorld ∅ {[ str "src/a.js" := [str "x"] ]}
                    [Processing (str "src/a.js")]) !! g
        = internal empty_world !! g)
  ∧ (∃ l, deps_of (internal (mkWorld ∅ {[ str "src/a.js" := [str "x"] ]}
                               [Processing (str "src/a.js")])) (str "src/a.js")
          = deps_of (internal empty_world) (str "src/a.js") ++ l)
  ∧ (NoDup (deps_of (internal empty_world) (str "src/a.js")) →
     NoDup (deps_of (internal (mkWorld ∅ {[ str "src/a.js" := [str "x"] ]}
                                 [Processing (str "src/a.js")])) (str "src/a.js"))).
Proof.
  refine (transpileToEs6_dependencies_grow posix_basename v8_inherited_text
            (str "ROS3D.x") (str "src/a.js") (str "x") empty_world
            (mkWorld ∅ {[ str "src/a.js" := [str "x"] ]}
               [Processing (str "src/a.js")]) _).
  vm_compute. reflexivity.
Defined.

Lemma transpileToEs6_console_witness :
  ∃ ds, console (mkWorld {[ str "B" := None ]} ∅
                   [Processing (str "src/A.js"); ClassMismatch;
                    ClassMismatchDetails (str "src/A.js") (str "B") true false])
        = console (mkWorld {[ str "B" := None ]} ∅ [])
          ++ Processing (str "src/A.js") :: ds
        ∧ forallb (notice (str "src/A.js")) ds = true.
Proof.
  refine (transpileToEs6_console posix_basename v8_inherited_text
            (str "ROS3D.B = function() {};") (str "src/A.js")
            (str "constructor() {};") (mkWorld {[ str "B" := None ]} ∅ [])
            (mkWorld {[ str "B" := None ]} ∅
               [Processing (str "src/A.js"); ClassMismatch;
                ClassMismatchDetails (str "src/A.js") (str "B") true false]) _).
  vm_compute. reflexivity.
Defined.

Lemma transpileToEs6_reads_index_only_witness :
  str "x" = str "x"
  ∧ index (mkWorld ∅ {[ str "src/a.js" := [str "x"] ]} [Processing (str "src/a.js")])
    = index (mkWorld ∅ (<[ str "src/a.js" := [str "x"] ]>
                          {[ str "src/b.js" := [str "y"] ]})
               [Processing (str "src/b.js"); Processing (str "src/a.js")]).
Proof.
  refine (transpileToEs6_reads_index_only posix_basename v8_inherited_text
            (str "ROS3D.x") (str "src/a.js") (str "x") (str "x")
            empty_world
            (mkWorld ∅ {[ str "src/b.js" := [str "y"] ]} [Processing (str "src/b.js")])
            (mkWorld ∅ {[ str "src/a.js" := [str "x"] ]} [Processing (str "src/a.js")])
            (mkWorld ∅ (<[ str "src/a.js" := [str "x"] ]>
                          {[ str "src/b.js" := [str "y"] ]})
               [Processing (str "src/b.js"); Processing (str "src/a.js")])
            _ _ _);
    vm_compute; reflexivity.
Defined.

(** A file named like a member of [Object.prototype]: the first
    dependency makes the pipeline throw. *)
Example transpileToEs6_inherited_name :
  transpile.transpileToEs6 posix_basename v8_inherited_text
    (str "ROS3D.x") (str "toString") empty_world = Throw TypeError.
Proof. vm_compute. reflexivity. Qed.

(** With carriage return and line feed as the line break, the link
    stage takes the carriage return with the statement and leaves the line
    feed. *)
Example buildInheritanceIndexViaProto_crlf :
  replace transpile.buildInheritanceIndexViaProto_from
    transpile.buildInheritanceIndexViaProto
    (str "ROS3D.A.prototype.__proto__ = B.prototype;" ++ CR :: LF :: str "x")
    empty_world
  = Ok (LF :: str "x", mkWorld {[ str "A" := Some (str "B") ]} ∅ []).
Proof. vm_compute. reflexivity. Qed.

(** The pair for the exported properties on three lines: the reference on
    the first line stays. *)
Example exportedProperites_lines :
  replace_str transpile.exportedProperites_from transpile.exportedProperites_to
    (str "ROS3D.A = 0;" ++ LF :: str "ROS3D.B = 1;" ++ LF :: str "x = ROS3D.B;")
  = str "ROS3D.A = 0;" ++ LF :: str "export const B = 1;" ++ LF :: str "x = ROS3D.B;".
Proof. vm_compute. reflexivity. Qed.
